(** * next-cache-handler: cache-key derivation, staleness and bulk invalidation

    A shallow embedding of the three source files of the repository:

    - the [CacheHandler] class (key builder, staleness policy, orchestrator),
    - the [RedisCache] strategy (key-value backend),
    - the two [S3Cache] classes found in [packages/s3-cache/src/index.ts]
      (object-store backend): the first one keeps tags in the object
      metadata and deletes object by object, the second one keeps tags in
      the object tagging and deletes in chunks.

    Asynchronous calls are modelled in a state-and-exception monad over the
    state of the remote store; the log of the requests sent to the store is
    part of that state, so that statements about which requests are issued
    are statements about the final log. *)

From Stdlib Require Import ZArith String Ascii Lia.
From stdpp Require Import gmap strings list fin_maps sorting pretty.

(** String literals are read as strings; [++] stays the append of lists and
    [+:+] is the append of strings. *)
Open Scope string_scope.
Open Scope list_scope.

(** ** JavaScript strings and truthiness *)

Module Js.

Definition chars (s : string) : list ascii := list_ascii_of_string s.
Definition of_chars (l : list ascii) : string := string_of_list_ascii l.

(** [s.startsWith(p)] and [s.endsWith(p)]. *)
Definition startsWith (s p : string) : bool :=
  bool_decide (chars p `prefix_of` chars s).
Definition endsWith (s p : string) : bool :=
  bool_decide (chars p `suffix_of` chars s).

(** [s.slice(n)] for [0 <= n]. *)
Definition slice (s : string) (n : nat) : string := of_chars (drop n (chars s)).

(** [s.substring(0, n)] for [0 <= n]. *)
Definition substring_to (s : string) (n : nat) : string := of_chars (take n (chars s)).

(** A string is falsy exactly when it is empty. *)
Definition truthy (s : string) : bool :=
  match s with EmptyString => false | String _ _ => true end.

(** [s.replace(/\.(json|html)$/, '')] and [s.replace(/\.json$|\.html$/, '')]:
    the pattern is anchored at the end of the input, so at most one of the
    two five-character endings is removed. *)
Definition strip_json_html (s : string) : string :=
  if endsWith s ".json" then substring_to s (String.length s - 5)
  else if endsWith s ".html" then substring_to s (String.length s - 5)
  else s.

(** [s.split(sep)] for a one-character separator: the empty string gives
    one empty piece. *)
Fixpoint split_chars (sep : ascii) (cur : list ascii) (l : list ascii) : list string :=
  match l with
  | [] => [of_chars (rev cur)]
  | c :: l' =>
      if Ascii.eqb c sep then of_chars (rev cur) :: split_chars sep [] l'
      else split_chars sep (c :: cur) l'
  end.
Definition split (s : string) (sep : ascii) : list string :=
  split_chars sep [] (chars s).

(** [l.join(sep)]. *)
Fixpoint join (sep : string) (l : list string) : string :=
  match l with
  | [] => ""
  | [x] => x
  | x :: l' => x +:+ sep +:+ join sep l'
  end.

(** [l.includes(x)] on an array of strings. *)
Definition includes (l : list string) (x : string) : bool :=
  bool_decide (x ∈ l).

(** [s.lastIndexOf(c)], [None] standing for [-1]. *)
Fixpoint lastIndexOf_from (c : ascii) (i : nat) (l : list ascii) : option nat :=
  match l with
  | [] => None
  | d :: l' =>
      match lastIndexOf_from c (S i) l' with
      | Some j => Some j
      | None => if Ascii.eqb d c then Some i else None
      end
  end.
Definition lastIndexOf (s : string) (c : ascii) : option nat :=
  lastIndexOf_from c 0 (chars s).

(** The text of a built-in function in a template literal, as Node
    prints it. *)
Definition native_function (name : string) : string :=
  "function " +:+ name +:+ "() { [native code] }".

(** The members that a plain object inherits from [Object.prototype],
    each with its text in a template literal: the methods are functions,
    [constructor] is [Object] and [__proto__] is [Object.prototype]
    itself. All of them are truthy. *)
Definition Object_prototype (name : string) : option string :=
  if bool_decide (name = "constructor") then Some (native_function "Object")
  else if bool_decide (name = "__proto__") then Some "[object Object]"
  else if bool_decide
            (name ∈ ["toString"; "toLocaleString"; "valueOf"; "hasOwnProperty";
                     "isPrototypeOf"; "propertyIsEnumerable"; "__defineGetter__";
                     "__defineSetter__"; "__lookupGetter__"; "__lookupSetter__"])
       then Some (native_function name)
  else None.

(** [o[name]] on a plain object (an object literal, or what [JSON.parse]
    returns) whose own properties are [o]: the own property when there is
    one, the inherited member otherwise, [None] standing for
    [undefined]. *)
Definition get (o : gmap string string) (name : string) : option string :=
  match o !! name with
  | Some v => Some v
  | None => Object_prototype name
  end.

End Js.

(** ** Promises: state, exceptions and bounded loops *)

(** What a rejected promise carries: the [name] the code inspects, and a
    message. *)
Record JsError := mkError { name : string; message : string }.

#[global] Instance JsError_eq_dec : EqDecision JsError.
Proof. solve_decision. Defined.

(** The outcome of awaiting a call. [OutOfFuel] is the outcome of a
    [do ... while] loop that was given too few iterations. *)
Inductive Outcome (A : Type) : Type :=
| Returned (a : A)
| Thrown (e : JsError)
| OutOfFuel.
Arguments Returned {A} a.
Arguments Thrown {A} e.
Arguments OutOfFuel {A}.

(** An asynchronous computation over a store of state [W]. *)
Definition Async (W A : Type) : Type := W -> Outcome A * W.

Definition resolve {W A} (a : A) : Async W A := fun w => (Returned a, w).
Definition reject {W A} (e : JsError) : Async W A := fun w => (Thrown e, w).

Definition await {W A B} (m : Async W A) (k : A -> Async W B) : Async W B :=
  fun w =>
    match m w with
    | (Returned a, w') => k a w'
    | (Thrown e, w') => (Thrown e, w')
    | (OutOfFuel, w') => (OutOfFuel, w')
    end.

Notation "'let_await' x ':=' m 'in' k" := (await m (fun x => k))
  (at level 10, x pattern, m at level 100, k at level 200).

(** [m.catch(handler)]. *)
Definition catch {W A} (m : Async W A) (handler : JsError -> Async W A) : Async W A :=
  fun w =>
    match m w with
    | (Thrown e, w') => handler e w'
    | r => r
    end.

(** A call that has been issued and has settled: its effect on the store is
    done, its result is kept as a value. *)
Definition settle {W A} (m : Async W A) : Async W (JsError + A) :=
  fun w =>
    match m w with
    | (Returned a, w') => (Returned (inr a), w')
    | (Thrown e, w') => (Returned (inl e), w')
    | (OutOfFuel, w') => (OutOfFuel, w')
    end.

(** The calls of an array of promises are all issued, in the order in which
    the array was built, whatever the others do. *)
Fixpoint issue_all {W A} (ms : list (Async W A)) : Async W (list (JsError + A)) :=
  match ms with
  | [] => resolve []
  | m :: ms' =>
      let_await r := settle m in
      let_await rs := issue_all ms' in
      resolve (r :: rs)
  end.

Fixpoint first_rejection {A} (rs : list (JsError + A)) : JsError + list A :=
  match rs with
  | [] => inr []
  | inl e :: _ => inl e
  | inr a :: rs' =>
      match first_rejection rs' with
      | inl e => inl e
      | inr l => inr (a :: l)
      end
  end.

(** [await Promise.all(promises)]: rejects when one of them does. *)
Definition Promise_all {W A} (ms : list (Async W A)) : Async W (list A) :=
  let_await rs := issue_all ms in
  match first_rejection rs with
  | inl e => reject e
  | inr l => resolve l
  end.

(** [await Promise.allSettled(promises)]: never rejects. *)
Definition Promise_allSettled {W A} (ms : list (Async W A)) : Async W (list (JsError + A)) :=
  issue_all ms.

(** ** Cache entries *)

(** Modelled from the spec: the [CacheEntry] type is declared in the common
    package, outside the three source files. The spec gives it a [kind]
    among PAGE, ROUTE and FETCH-result, response [headers] for PAGE and
    ROUTE, explicit [tags], an optional [revalidate] in seconds and a
    [lastModified] in epoch milliseconds. The fields are those the code
    reads. [pageData] is the string the code writes as the [.rsc] body;
    [revalidate] is [None] when it is absent or [false]. *)
Inductive CacheValue : Type :=
| PAGE (html : string) (pageData : string) (headers : option (gmap string string))
| ROUTE (body : string) (headers : option (gmap string string))
| FETCH (data : string).

#[global] Instance CacheValue_eq_dec : EqDecision CacheValue.
Proof. solve_decision. Defined.

Record CacheEntry := mkEntry {
  value : option CacheValue;
  lastModified : Z;
  revalidate : option Z;
  tags : option (list string)
}.

#[global] Instance CacheEntry_eq_dec : EqDecision CacheEntry.
Proof. solve_decision. Defined.

Inductive Kind := KPAGE | KROUTE | KFETCH.

Definition kind (v : CacheValue) : Kind :=
  match v with PAGE _ _ _ => KPAGE | ROUTE _ _ => KROUTE | FETCH _ => KFETCH end.

(** The render context handed to the strategies. *)
Record CacheContext := mkCtx { isAppRouter : bool; serverAppPath : string }.

(** ** The cache handler: key builder, staleness policy, orchestrator *)

Module CacheHandler.

(** The static configuration of the class. *)
Record Config := mkConfig {
  cacheCookies : list string;
  cacheQueries : list string;
  enableDeviceSplit : bool
}.

(** One instance, as left by the constructor. *)
Record Instance := mkInstance {
  cookieCacheKey : string;
  queryCacheKey : string;
  device : option string;
  instServerAppPath : string
}.

(** The callback of the [reduce] in [buildCacheKey]. [data] is a plain
    object, given by its own properties: [data[curr]] is falsy when the
    name is neither an own property nor a member of [Object.prototype], or
    is an own property bound to the empty string. *)
Definition buildCacheKey_step (data : gmap string string) (prev curr : string) : string :=
  match Js.get data curr with
  | Some v =>
      if Js.truthy v
      then (if Js.truthy prev then "-" else "") +:+ curr +:+ "=" +:+ v
      else prev
  | None => prev
  end.

Definition buildCacheKey (keys : list string) (data : gmap string string)
    (prefix : string) : string :=
  if bool_decide (length keys = 0%nat) then ""
  else
    let cacheKey := fold_left (buildCacheKey_step data) keys "" in
    if negb (Js.truthy cacheKey) then ""
    else prefix +:+ "(" +:+ cacheKey +:+ ")".

Section Request.
(** The parsers of the [cookie] package and of the query header
    ([JSON.parse] after [decodeURIComponent], [None] when it throws)
    are collaborators of the class. *)
Variable cookieParser_parse : string -> gmap string string.
Variable parse_query : string -> option (gmap string string).
Variable ua_device_type : string -> option string.
Variable cfg : Config.

(** [this.nextOptions._requestHeaders]: the three headers that are read. *)
Record RequestHeaders := mkHeaders {
  cookie : option string;
  x_invoke_query : option string;
  user_agent : string
}.

Definition buildCookiesCacheKey (h : RequestHeaders) : string :=
  let raw := match cookie h with
             | Some c => if Js.truthy c then c else ""
             | None => ""
             end in
  buildCacheKey (cacheCookies cfg) (cookieParser_parse raw) "cookie".

Definition buildQueryCacheKey (h : RequestHeaders) : string :=
  match x_invoke_query h with
  | None => ""
  | Some q =>
      if negb (Js.truthy q) then ""
      else match parse_query q with
           | Some parsedQuery => buildCacheKey (cacheQueries cfg) parsedQuery "query"
           | None => ""
           end
  end.

Definition getCurrentDeviceType (h : RequestHeaders) : string :=
  match ua_device_type (user_agent h) with
  | Some t => t
  | None => ""
  end.

Definition constructor (h : RequestHeaders) (serverDistDir : option string) : Instance :=
  {| cookieCacheKey := buildCookiesCacheKey h;
     queryCacheKey := buildQueryCacheKey h;
     instServerAppPath := match serverDistDir with
                          | Some d => if Js.truthy d then d else ""
                          | None => ""
                          end;
     device := if enableDeviceSplit cfg then Some (getCurrentDeviceType h) else None |}.
End Request.

(** [[key, device, cookieCacheKey, queryCacheKey].filter(Boolean).join('-')] *)
Definition getPageCacheKey (this : Instance) (key : string) : string :=
  Js.join "-"
    (filter (fun s => Is_true (Js.truthy s))
       [key; default "" (device this); cookieCacheKey this; queryCacheKey this]).

(** [checkIsStaleCache], with the value of [Date.now()] as an argument.
    [pageData?.revalidate] is truthy when the entry is there and its
    [revalidate] is a number other than 0. Times are integers, as epoch
    milliseconds and whole seconds are. *)
Definition checkIsStaleCache (now : Z) (pageData : option CacheEntry) : bool :=
  match pageData with
  | Some d =>
      match revalidate d with
      | Some r =>
          if negb (r =? 0)%Z then (lastModified d + r * 1000 <? now)%Z
          else false
      | None => false
      end
  | None => false
  end.

(** [get], over any strategy: [cache_get] is [CacheHandler.cache.get]. *)
Definition get {W} (cache_get : string -> CacheContext -> Async W (option CacheEntry))
    (this : Instance) (now : Z) (key : string) (ctx : CacheContext)
  : Async W (option CacheEntry) :=
  let_await data :=
    cache_get (getPageCacheKey this key)
      {| isAppRouter := isAppRouter ctx; serverAppPath := instServerAppPath this |} in
  let isStaleData := checkIsStaleCache now data in
  if isStaleData || negb (bool_decide (is_Some data)) then resolve None
  else resolve data.

Definition set {W} (cache_set : string -> CacheEntry -> CacheContext -> Async W unit)
    (this : Instance) (cacheKey : string) (data : CacheEntry) (ctx : CacheContext)
  : Async W unit :=
  cache_set (getPageCacheKey this cacheKey) data
    {| isAppRouter := isAppRouter ctx; serverAppPath := instServerAppPath this |}.

(** The static registration methods: each changes the configuration of the
    class, the lists by a [push]. *)
Definition addCookie (cfg : Config) (value : string) : Config :=
  {| cacheCookies := cacheCookies cfg ++ [value];
     cacheQueries := cacheQueries cfg;
     enableDeviceSplit := enableDeviceSplit cfg |}.

Definition addQuery (cfg : Config) (value : string) : Config :=
  {| cacheCookies := cacheCookies cfg;
     cacheQueries := cacheQueries cfg ++ [value];
     enableDeviceSplit := enableDeviceSplit cfg |}.

Definition addDeviceSplit (cfg : Config) : Config :=
  {| cacheCookies := cacheCookies cfg;
     cacheQueries := cacheQueries cfg;
     enableDeviceSplit := true |}.

End CacheHandler.

(** A loop that was given no more iterations. *)
Definition out_of_fuel {W A} : Async W A := fun w => (OutOfFuel, w).

(** ** The key-value backend *)

Module RedisCache.

(** The commands the strategy sends through [redisAdapter.client]. A
    single key given to [unlink] is the one-element list. *)
Inductive Command : Type :=
| SCAN (cursor : Z) (MATCH : string) (COUNT : nat)
| UNLINK (keys : list string).

#[global] Instance Command_eq_dec : EqDecision Command.
Proof. solve_decision. Defined.

Record ScanReply := mkScanReply { cursor : Z; keys : list string }.

(** The server: what it answers to a command, given the commands it has
    received so far. Nothing is assumed about it. *)
Record Server := mkServer {
  on_scan : list Command -> Z -> string -> nat -> JsError + ScanReply;
  on_unlink : list Command -> list string -> JsError + Z
}.

(** The state of a run is the log of the commands sent. *)
Definition World : Type := list Command.

Definition of_reply {A} (r : JsError + A) : Outcome A :=
  match r with inl e => Thrown e | inr a => Returned a end.

Section Strategy.
Variable srv : Server.
(** [CHUNK_LIMIT] is imported from [./constants]. *)
Variable CHUNK_LIMIT : nat.
(** [redisAdapter.findCacheKeys], [redisAdapter.get] and
    [redisAdapter.set] belong to the adapters. *)
Variable findCacheKeys : string -> list string -> Async World (list string).
Variable adapter_get : string -> string -> Async World (option CacheEntry).
Variable adapter_set : string -> string -> CacheEntry -> Async World unit.

Definition client_scan (c : Z) (pattern : string) (count : nat) : Async World ScanReply :=
  fun log => (of_reply (on_scan srv log c pattern count), log ++ [SCAN c pattern count]).

Definition client_unlink (ks : list string) : Async World Z :=
  fun log => (of_reply (on_unlink srv log ks), log ++ [UNLINK ks]).

Definition get (pageKey cacheKey : string) : Async World (option CacheEntry) :=
  adapter_get pageKey cacheKey.

Definition set (pageKey cacheKey : string) (data : CacheEntry) : Async World unit :=
  adapter_set pageKey cacheKey data.

Definition revalidateTag (tag : string) (allowCacheKeys : list string) : Async World unit :=
  let_await keysToDelete := findCacheKeys tag allowCacheKeys in
  if negb (bool_decide (length keysToDelete = 0%nat))
  then let_await _ := client_unlink keysToDelete in resolve tt
  else resolve tt.

Definition delete (pageKey cacheKey : string) : Async World unit :=
  let_await _ := client_unlink [pageKey +:+ "//" +:+ cacheKey] in resolve tt.

(** The [do ... while (cursor != 0)] loop of [deleteAllByKeyMatch]. *)
Fixpoint scan_loop (fuel : nat) (key : string) (cur : Z) (keysToDelete : list string)
  : Async World (list string) :=
  match fuel with
  | O => out_of_fuel
  | S fuel' =>
      let_await result := client_scan cur (key +:+ "//*") CHUNK_LIMIT in
      let cur' := cursor result in
      let keysToDelete' := keysToDelete ++ keys result in
      if negb (cur' =? 0)%Z then scan_loop fuel' key cur' keysToDelete'
      else resolve keysToDelete'
  end.

Definition deleteAllByKeyMatch (fuel : nat) (key cacheKey : string) : Async World unit :=
  if Js.truthy cacheKey then
    let_await _ := client_unlink [key +:+ "//" +:+ cacheKey] in resolve tt
  else
    let_await keysToDelete := scan_loop fuel key 0%Z [] in
    if negb (bool_decide (length keysToDelete = 0%nat))
    then let_await _ := client_unlink keysToDelete in resolve tt
    else resolve tt.

(** The spec's description of the scan: rounds with the pattern
    [pattern], from cursor [c], until the server hands back cursor 0;
    the keys of every round are appended to the accumulator. *)
Inductive scan_rounds (pattern : string)
  : World -> Z -> list string -> World -> list string -> Prop :=
| scan_last log c acc r :
    on_scan srv log c pattern CHUNK_LIMIT = inr r ->
    cursor r = 0%Z ->
    scan_rounds pattern log c acc (log ++ [SCAN c pattern CHUNK_LIMIT]) (acc ++ keys r)
| scan_more log c acc r log' acc' :
    on_scan srv log c pattern CHUNK_LIMIT = inr r ->
    cursor r <> 0%Z ->
    scan_rounds pattern (log ++ [SCAN c pattern CHUNK_LIMIT]) (cursor r) (acc ++ keys r) log' acc' ->
    scan_rounds pattern log c acc log' acc'.

Definition is_scan_of (pattern : string) (c : Command) : Prop :=
  exists cur, c = SCAN cur pattern CHUNK_LIMIT.

End Strategy.

End RedisCache.

(** [for (const x of l) { await body(x) }]: sequential, and a throw leaves
    the loop. *)
Fixpoint for_of {W A} (l : list A) (body : A -> Async W unit) : Async W unit :=
  match l with
  | [] => resolve tt
  | x :: l' => let_await _ := body x in for_of l' body
  end.

(** ** The object store *)

(** The store behind the client: one bucket, as a finite map from keys to
    objects, and the log of the requests received. A request is either
    rejected by the service, with an error of its choice, or served on the
    bucket: reads of a missing key are rejected as [NoSuchKey], deletes of a
    missing key succeed, listings come in the order of the keys, by pages of
    [MaxKeys] keys, the continuation token of a page being its last key. *)
Module S3.

(** An entry of a [TagSet]: both fields are optional in the client's types. *)
Record Tag := mkTag { tag_Key : option string; tag_Value : option string }.

Record Object := mkObject {
  Body : option string;
  ContentType : option string;
  CacheControl : option string;
  Metadata : gmap string string;
  TagSet : list Tag
}.

Record PutObjectInput := mkPut {
  put_Key : string;
  put_Body : string;
  put_ContentType : option string;
  put_CacheControl : option string;
  put_Tagging : option string;
  put_Metadata : option (gmap string string)
}.

(** The requests of the client that the strategies use, all on the one
    bucket [bucketName]. *)
Inductive Request : Type :=
| GetObject (Key : string)
| PutObject (input : PutObjectInput)
| DeleteObject (Key : string)
| DeleteObjects (Keys : list string)
| ListObjectsV2 (ContinuationToken Prefix Delimiter : option string)
| GetObjectTagging (Key : string).

#[global] Instance Tag_eq_dec : EqDecision Tag.
Proof. solve_decision. Defined.

#[global] Instance Object_eq_dec : EqDecision Object.
Proof. solve_decision. Defined.

#[global] Instance PutObjectInput_eq_dec : EqDecision PutObjectInput.
Proof. solve_decision. Defined.

#[global] Instance Request_eq_dec : EqDecision Request.
Proof. solve_decision. Defined.

Record GetObjectOutput := mkGetOut {
  out_Body : option string;
  out_Metadata : option (gmap string string)
}.

Record Listed := mkListed { Key : option string }.

Record ListObjectsV2Output := mkListOut {
  Contents : option (list Listed);
  NextContinuationToken : option string
}.

Record GetObjectTaggingOutput := mkTaggingOut { out_TagSet : option (list Tag) }.

(** The bucket and the log of the requests it has received. *)
Record World := mkWorld {
  objects : gmap string Object;
  log : list Request
}.

(** The service: the size of a listing page, and the requests it rejects
    with an error, given those received so far. *)
Record Service := mkService {
  MaxKeys : nat;
  fault : list Request -> Request -> option JsError
}.

Definition NoSuchKey : JsError := {| name := "NoSuchKey"; message := "The specified key does not exist." |}.

(** The [Tagging] of a put is a query string [k0=v0&k1=v1]. *)
Fixpoint cut_at (c : ascii) (l : list ascii) : list ascii * option (list ascii) :=
  match l with
  | [] => ([], None)
  | d :: l' =>
      if Ascii.eqb d c then ([], Some l')
      else let '(a, b) := cut_at c l' in (d :: a, b)
  end.

Definition parse_tag (s : string) : Tag :=
  let '(k, v) := cut_at "="%char (Js.chars s) in
  {| tag_Key := Some (Js.of_chars k); tag_Value := Some (Js.of_chars (default [] v)) |}.

Definition parse_tagging (s : option string) : list Tag :=
  match s with
  | None => []
  | Some s => if Js.truthy s then map parse_tag (Js.split s "&"%char) else []
  end.

Definition object_of_put (i : PutObjectInput) : Object :=
  {| Body := Some (put_Body i);
     ContentType := put_ContentType i;
     CacheControl := put_CacheControl i;
     Metadata := default ∅ (put_Metadata i);
     TagSet := parse_tagging (put_Tagging i) |}.

(** Listings are in the order of the keys. *)
Definition key_le (a b : string) : Prop := Is_true (String.leb a b).

#[global] Instance key_le_dec a b : Decision (key_le a b).
Proof. unfold key_le. apply _. Defined.

Definition sorted_keys (m : gmap string Object) : list string :=
  merge_sort key_le (map fst (map_to_list m)).

(** A key is in the listing for [Prefix] and [Delimiter] when it starts
    with the prefix and the delimiter does not occur after it (the keys in
    which it does are rolled up into common prefixes). *)
Definition listed_under (Prefix Delimiter : option string) (k : string) : bool :=
  let p := default "" Prefix in
  Js.startsWith k p &&
  match Delimiter with
  | Some d =>
      if Js.truthy d
      then negb (bool_decide (is_Some (String.index 0 d (Js.slice k (String.length p)))))
      else true
  | None => true
  end.

(** The continuation token of a page is its last key; the next page starts
    after it. *)
Definition after (token : option string) (k : string) : bool :=
  match token with
  | Some t => String.ltb t k
  | None => true
  end.

Definition pending (m : gmap string Object) (token Prefix Delimiter : option string)
  : list string :=
  filter (fun k => Is_true (after token k && listed_under Prefix Delimiter k)) (sorted_keys m).

Definition list_page (n : nat) (m : gmap string Object)
    (token Prefix Delimiter : option string) : ListObjectsV2Output :=
  let ks := pending m token Prefix Delimiter in
  let page := take n ks in
  {| Contents := match page with
                 | [] => None
                 | _ => Some (map (fun k => {| Key := Some k |}) page)
                 end;
     NextContinuationToken := if (n <? length ks)%nat then last page else None |}.

Section Client.
Variable srv : Service.

(** A request is logged, then rejected or served. *)
Definition send {A} (req : Request)
    (serve : gmap string Object -> Outcome A * gmap string Object) : Async World A :=
  fun w =>
    let log' := log w ++ [req] in
    match fault srv (log w) req with
    | Some e => (Thrown e, {| objects := objects w; log := log' |})
    | None =>
        let '(r, m) := serve (objects w) in
        (r, {| objects := m; log := log' |})
    end.

Definition getObject (k : string) : Async World GetObjectOutput :=
  send (GetObject k) (fun m =>
    match m !! k with
    | Some o => (Returned {| out_Body := Body o; out_Metadata := Some (Metadata o) |}, m)
    | None => (Thrown NoSuchKey, m)
    end).

Definition putObject (i : PutObjectInput) : Async World unit :=
  send (PutObject i) (fun m => (Returned tt, <[put_Key i := object_of_put i]> m)).

Definition deleteObject (k : string) : Async World unit :=
  send (DeleteObject k) (fun m => (Returned tt, delete k m)).

Definition deleteObjects (ks : list string) : Async World unit :=
  send (DeleteObjects ks) (fun m => (Returned tt, foldr delete m ks)).

Definition listObjectsV2 (token Prefix Delimiter : option string)
  : Async World ListObjectsV2Output :=
  send (ListObjectsV2 token Prefix Delimiter) (fun m =>
    (Returned (list_page (MaxKeys srv) m token Prefix Delimiter), m)).

Definition getObjectTagging (k : string) : Async World GetObjectTaggingOutput :=
  send (GetObjectTagging k) (fun m =>
    match m !! k with
    | Some o => (Returned {| out_TagSet := Some (TagSet o) |}, m)
    | None => (Thrown NoSuchKey, m)
    end).
End Client.

(** [while (nextContinuationToken)]. *)
Definition more (token : option string) : bool :=
  match token with
  | Some t => Js.truthy t
  | None => false
  end.

End S3.

Definition NOT_FOUND_ERROR : list string := ["NotFound"; "NoSuchKey"].

(** [JSON.stringify] and [JSON.parse] on cache entries. [parse] throws on a
    text that is not one of an entry. *)
Record JsonCodec := mkCodec {
  JSON_stringify : CacheEntry -> string;
  JSON_parse : string -> JsError + CacheEntry
}.

(** [value?.kind === 'PAGE' && value.headers?.[header]?.toString()?.split(',').includes(tag)] *)
Definition page_headers_include (header : string) (v : option CacheValue) (tag : string) : bool :=
  match v with
  | Some (PAGE _ _ (Some hs)) =>
      match hs !! header with
      | Some h => Js.includes (Js.split h ","%char) tag
      | None => false
      end
  | _ => false
  end.

(** ** The object-store backend, first class of the file: tags in the metadata *)

Module S3CacheMetadata.
Import S3.

Definition TAGS_SEPARATOR : string := ",".

Section Class.
Variable srv : Service.
Variable json : JsonCodec.
(** The two constants imported from [next/dist/lib/constants]. *)
Variable NEXT_CACHE_IMPLICIT_TAG_ID : string.
Variable NEXT_CACHE_TAGS_HEADER : string.

(** Not-found is swallowed, anything else is thrown again. *)
Definition swallow_not_found {A} (e : JsError) : Async World (option A) :=
  if Js.includes NOT_FOUND_ERROR (name e) then resolve None else reject e.

(** [get]. The constructor sets [this.client], so the guard on it is
    passed. *)
Definition get (pageKey cacheKey : string) : Async World (option CacheEntry) :=
  let_await pageData :=
    catch (let_await o := getObject srv (pageKey +:+ "/" +:+ cacheKey +:+ ".json") in
           resolve (Some o))
          swallow_not_found in
  match pageData with
  | Some {| out_Body := Some body |} =>
      match JSON_parse json body with
      | inl e => reject e
      | inr d => resolve (Some d)
      end
  | _ => resolve None
  end.

Definition set (pageKey cacheKey : string) (data : CacheEntry) : Async World unit :=
  let input_Key := pageKey +:+ "/" +:+ cacheKey in
  let input_Metadata :=
    match tags data with
    | Some ((_ :: _) as ts) => Some ({[ "tags" := Js.join TAGS_SEPARATOR ts ]} : gmap string string)
    | _ => None
    end in
  let put ext body :=
    putObject srv {| put_Key := input_Key +:+ ext; put_Body := body;
                     put_ContentType := None; put_CacheControl := None;
                     put_Tagging := None; put_Metadata := input_Metadata |} in
  let_await _ :=
    match value data with
    | Some (PAGE html _ _) => put ".html" html
    | _ => resolve tt
    end in
  put ".json" (JSON_stringify json data).

Definition delete (pageKey cacheKey : string) : Async World unit :=
  let_await _ :=
    catch (let_await _ := deleteObject srv (pageKey +:+ "/" +:+ cacheKey +:+ ".json") in
           resolve (Some tt))
          swallow_not_found in
  let_await _ :=
    catch (let_await _ := deleteObject srv (pageKey +:+ "/" +:+ cacheKey +:+ ".html") in
           resolve (Some tt))
          swallow_not_found in
  resolve tt.

(** One turn of the [for] loop of [deleteAllByKeyMatch]. *)
Definition delete_listed (o : Listed) : Async World unit :=
  match Key o with
  | Some key =>
      if negb (Js.truthy key) then resolve tt
      else if Js.endsWith key ".json" || Js.endsWith key ".html"
      then deleteObject srv key
      else resolve tt
  | None => resolve tt
  end.

Fixpoint deleteAllByKeyMatch_loop (fuel : nat) (pageKey : string)
    (nextContinuationToken : option string) : Async World unit :=
  match fuel with
  | O => out_of_fuel
  | S fuel' =>
      let_await page :=
        listObjectsV2 srv nextContinuationToken (Some (pageKey +:+ "/")) (Some "/") in
      let contents := default [] (Contents page) in
      let token := NextContinuationToken page in
      let_await _ := for_of contents delete_listed in
      if more token then deleteAllByKeyMatch_loop fuel' pageKey token
      else resolve tt
  end.

Definition deleteAllByKeyMatch (fuel : nat) (pageKey : string) : Async World unit :=
  deleteAllByKeyMatch_loop fuel pageKey None.

(** [this.delete(key.substring(0, lastSlashIndex),
                 key.substring(lastSlashIndex + 1).replace(..., ''))];
    without a slash, [lastSlashIndex] is [-1]. *)
Definition delete_entry_of (key : string) : Async World unit :=
  match Js.lastIndexOf key "/"%char with
  | Some i => delete (Js.substring_to key i) (Js.strip_json_html (Js.slice key (S i)))
  | None => delete "" (Js.strip_json_html key)
  end.

(** One turn of the [for] loop of [revalidateTag]. *)
Definition revalidate_listed (tag : string) (o : Listed) : Async World unit :=
  match Key o with
  | Some key =>
      if negb (Js.truthy key) then resolve tt
      else
        let_await out := getObject srv key in
        let metadata := default ∅ (out_Metadata out) in
        let tags := default "" (metadata !! "tags") in
        if Js.truthy tags && Js.includes (Js.split tags ","%char) tag
        then delete_entry_of key
        else
          match out_Body out with
          | Some body =>
              if Js.endsWith key ".json" then
                match JSON_parse json body with
                | inl e => reject e
                | inr entry =>
                    if page_headers_include NEXT_CACHE_TAGS_HEADER (value entry) tag
                    then delete_entry_of key
                    else resolve tt
                end
              else resolve tt
          | None => resolve tt
          end
  | None => resolve tt
  end.

Fixpoint revalidateTag_loop (fuel : nat) (tag : string)
    (nextContinuationToken : option string) : Async World unit :=
  match fuel with
  | O => out_of_fuel
  | S fuel' =>
      let_await page := listObjectsV2 srv nextContinuationToken None None in
      let contents := default [] (Contents page) in
      let token := NextContinuationToken page in
      let_await _ := for_of contents (revalidate_listed tag) in
      if more token then revalidateTag_loop fuel' tag token
      else resolve tt
  end.

Definition revalidateTag (fuel : nat) (tag : string) : Async World unit :=
  if Js.startsWith tag NEXT_CACHE_IMPLICIT_TAG_ID then
    (* Revalidate by Path *)
    deleteAllByKeyMatch fuel (Js.slice tag (String.length NEXT_CACHE_IMPLICIT_TAG_ID))
  else
    (* Revalidate by Tag *)
    revalidateTag_loop fuel tag None.

End Class.
End S3CacheMetadata.

(** Modelled from the spec: [chunkArray] is imported from the common
    package, outside the three source files. The spec has the keys deleted
    "in bounded-size chunks (chunk size ≤ 1000)": the array is cut, in
    order, into pieces of [chunkSize] elements, the last one possibly
    shorter, and the empty array gives no piece. *)
Fixpoint chunkArray_upto {A} (fuel : nat) (array : list A) (chunkSize : nat) : list (list A) :=
  match fuel with
  | O => []
  | S fuel' =>
      match array with
      | [] => []
      | _ => take chunkSize array :: chunkArray_upto fuel' (drop chunkSize array) chunkSize
      end
  end.

Definition chunkArray {A} (array : list A) (chunkSize : nat) : list (list A) :=
  chunkArray_upto (length array) array chunkSize.

(** ** The object-store backend, second class of the file: tags in the tagging *)

Module S3CacheTagging.
Import S3.

Definition TAG_PREFIX : string := "revalidateTag".
(** [Object.values(CacheExtension)] *)
Definition PAGE_CACHE_EXTENSIONS : list string := ["json"; "html"; "rsc"].
Definition CHUNK_LIMIT : nat := 1000.

(** [buildTagKeys(tags?: string | string[])] *)
Definition buildTagKeys (tags : option (string + list string)) : string :=
  let number l :=
    Js.join "&" (imap (fun index tag => TAG_PREFIX +:+ pretty index +:+ "=" +:+ tag) l) in
  match tags with
  | None => ""
  | Some (inl s) => if Js.truthy s then number (Js.split s ","%char) else ""
  | Some (inr l) => match l with [] => "" | _ => number l end
  end.

(** The test of the filter on a key:
    [allowCacheKeys.some((allowKey) => key.replace(/\.(json|html)$/, '').endsWith(allowKey))] *)
Definition some_allowKey_matches (allowCacheKeys : list string) (key : string) : bool :=
  existsb (fun allowKey => Js.endsWith (Js.strip_json_html key) allowKey) allowCacheKeys.

(** [allowCacheKeys.length], as a condition. *)
Definition nonempty {A} (l : list A) : bool :=
  match l with [] => false | _ => true end.

Section Class.
Variable srv : Service.
Variable json : JsonCodec.
Variable NEXT_CACHE_TAGS_HEADER : string.

Definition deleteObjects (keysToDelete : list string) : Async World unit :=
  let_await _ :=
    Promise_allSettled
      (map (fun chunk => S3.deleteObjects srv chunk) (chunkArray keysToDelete CHUNK_LIMIT)) in
  resolve tt.

Definition swallow_not_found {A} (e : JsError) : Async World (option A) :=
  if Js.includes NOT_FOUND_ERROR (name e) then resolve None else reject e.

(** [get]. The constructor sets [this.client], so the guard on it is
    passed. *)
Definition get (pageKey cacheKey : string) : Async World (option CacheEntry) :=
  let_await pageData :=
    catch (let_await o := getObject srv (pageKey +:+ "/" +:+ cacheKey +:+ "." +:+ "json") in
           resolve (Some o))
          swallow_not_found in
  match pageData with
  | Some {| out_Body := Some body |} =>
      match JSON_parse json body with
      | inl e => reject e
      | inr d => resolve (Some d)
      end
  | _ => resolve None
  end.

(** The header of the tags of a PAGE or ROUTE value, as a string. *)
Definition tags_header (hs : option (gmap string string)) : option (string + list string) :=
  match hs with
  | Some m => inl <$> (m !! NEXT_CACHE_TAGS_HEADER)
  | None => None
  end.

Definition set (pageKey cacheKey : string) (data : CacheEntry) (ctx : CacheContext)
  : Async World unit :=
  let base_Key := pageKey +:+ "/" +:+ cacheKey in
  let base_CacheControl :=
    match revalidate data with
    | Some r => if negb (r =? 0)%Z then Some ("max-age=" +:+ pretty r) else None
    | None => None
    end in
  let put ext body contentType tagging :=
    putObject srv {| put_Key := base_Key +:+ "." +:+ ext; put_Body := body;
                     put_ContentType := Some contentType;
                     put_CacheControl := base_CacheControl;
                     put_Tagging := tagging; put_Metadata := None |} in
  let with_headers hs page :=
    let headersTags := buildTagKeys (tags_header hs) in
    let tagging := if Js.truthy headersTags then Some headersTags else None in
    page tagging ++ [put "json" (JSON_stringify json data) "application/json" tagging] in
  let promises :=
    match value data with
    | Some (PAGE html pageData hs) =>
        with_headers hs (fun tagging =>
          put "html" html "text/html" tagging ::
          (if isAppRouter ctx then [put "rsc" pageData "text/x-component" tagging] else []))
    | Some (ROUTE _ hs) => with_headers hs (fun _ => [])
    | _ =>
        [put "json" (JSON_stringify json data) "application/json"
           (match tags data with
            | Some ((_ :: _) as ts) => Some (buildTagKeys (Some (inr ts)))
            | _ => None
            end)]
    end in
  let_await _ := Promise_all promises in
  resolve tt.

(** The values of the tags of an object whose key starts with
    [TAG_PREFIX]. *)
Definition revalidate_tags (ts : list Tag) : list string :=
  map (fun t => match tag_Value t with
                | Some v => if Js.truthy v then v else ""
                | None => ""
                end)
      (filter (fun t => Is_true (match tag_Key t with
                                 | Some k => Js.startsWith k TAG_PREFIX
                                 | None => false
                                 end)) ts).

(** The callback of the [reduce] in [revalidateTag]. It is an [async]
    function: [reduce] calls it on every listed object in turn, each
    call runs up to its first [await] and so sends its request at once;
    [acc] is the promise returned by the previous call, here with the
    value it settles to. *)
Definition revalidateTag_step (tag : string) (allowCacheKeys : list string)
    (acc : Async World (JsError + list string)) (o : Listed)
  : Async World (JsError + list string) :=
  let_await acc := acc in
  match Key o with
  | Some key =>
      if negb (Js.truthy key)
         || (nonempty allowCacheKeys && some_allowKey_matches allowCacheKeys key)
      then resolve acc
      else
        let_await r := settle (getObjectTagging srv key) in
        match r with
        | inl e => resolve (inl e)
        | inr out =>
            let tags := revalidate_tags (default [] (out_TagSet out)) in
            if Js.includes tags tag
            then resolve (match acc with
                          | inl e => inl e
                          | inr ks => inr (ks ++ [key])
                          end)
            else resolve acc
        end
  | None => resolve acc
  end.

Definition revalidateTag_page (tag : string) (allowCacheKeys : list string)
    (contents : list Listed) : Async World (list string) :=
  let_await r := fold_left (revalidateTag_step tag allowCacheKeys) contents (resolve (inr [])) in
  match r with
  | inl e => reject e
  | inr ks => resolve ks
  end.

Fixpoint revalidateTag_loop (fuel : nat) (tag : string) (allowCacheKeys : list string)
    (keysToDelete : list string) (nextContinuationToken : option string)
  : Async World (list string) :=
  match fuel with
  | O => out_of_fuel
  | S fuel' =>
      let_await page := listObjectsV2 srv nextContinuationToken None None in
      let contents := default [] (Contents page) in
      let token := NextContinuationToken page in
      let_await found := revalidateTag_page tag allowCacheKeys contents in
      let keysToDelete' := keysToDelete ++ found in
      if more token then revalidateTag_loop fuel' tag allowCacheKeys keysToDelete' token
      else resolve keysToDelete'
  end.

Definition revalidateTag (fuel : nat) (tag : string) (_ctx : option CacheContext)
    (allowCacheKeys : list string) : Async World unit :=
  let_await keysToDelete := revalidateTag_loop fuel tag allowCacheKeys [] None in
  deleteObjects keysToDelete.

Definition delete (pageKey cacheKey : string) : Async World unit :=
  S3.deleteObjects srv
    (map (fun ext => pageKey +:+ "/" +:+ cacheKey +:+ "." +:+ ext) PAGE_CACHE_EXTENSIONS).

(** The [reduce] in [deleteAllByKeyMatch]: an absent key counts as [''];
    the test is on the bare extension, without the dot. *)
Definition has_page_extension (key : string) : bool :=
  existsb (fun ext => Js.endsWith key ext) PAGE_CACHE_EXTENSIONS.

Definition deleteAllByKeyMatch_page (contents : list Listed) : list string :=
  fold_left (fun acc o =>
               let key := default "" (Key o) in
               if has_page_extension key then acc ++ [key] else acc)
            contents [].

Fixpoint deleteAllByKeyMatch_loop (fuel : nat) (pageKey : string)
    (keysToDelete : list string) (nextContinuationToken : option string)
  : Async World (list string) :=
  match fuel with
  | O => out_of_fuel
  | S fuel' =>
      let_await page :=
        listObjectsV2 srv nextContinuationToken (Some (pageKey +:+ "/")) (Some "/") in
      let contents := default [] (Contents page) in
      let token := NextContinuationToken page in
      let keysToDelete' := keysToDelete ++ deleteAllByKeyMatch_page contents in
      if more token then deleteAllByKeyMatch_loop fuel' pageKey keysToDelete' token
      else resolve keysToDelete'
  end.

Definition deleteAllByKeyMatch (fuel : nat) (pageKey : string) (_ctx : option CacheContext)
    (allowCacheKeys : list string) : Async World unit :=
  let_await keysToDelete := deleteAllByKeyMatch_loop fuel pageKey [] None in
  deleteObjects
    (if nonempty allowCacheKeys
     then filter (fun key => Is_true (some_allowKey_matches allowCacheKeys key)) keysToDelete
     else keysToDelete).

End Class.

(** The object at [key] carries [tag] among its [revalidateTagN] values. *)
Definition carries_tag (m : gmap string Object) (tag key : string) : Prop :=
  exists o, m !! key = Some o /\ Js.includes (revalidate_tags (TagSet o)) tag = true.

End S3CacheTagging.

(** * The vocabulary of the statements *)

Section Vocabulary.
Import S3 S3CacheTagging.


(** A computation that only adds requests satisfying [P] to the log. *)
Definition only_sends {A} (P : Request -> Prop) (c : Async World A) : Prop :=
  forall w, exists extra, log (snd (c w)) = log w ++ extra /\ Forall P extra.

(** What holds of a key that the scan keeps: the filter test failed on it
    and its object carries the tag. *)
Definition kept_by_scan (m : gmap string Object) (tag : string) (allowCacheKeys : list string)
    (k : string) : Prop :=
  nonempty allowCacheKeys && some_allowKey_matches allowCacheKeys k = false
  /\ carries_tag m tag k.

(** The promise threaded through the [reduce]: it settles, on a bucket left
    as it was, to an error or to keys kept by the scan. *)
Definition settles_to_kept (m : gmap string Object) (tag : string) (allowCacheKeys : list string)
    (c : Async World (JsError + list string)) : Prop :=
  forall w, objects w = m ->
    exists res w', c w = (Returned res, w')
                   /\ objects w' = m
                   /\ forall ks, res = inr ks -> forall k, k ∈ ks -> kept_by_scan m tag allowCacheKeys k.

(** The promise threaded through the [reduce] settles to keys. *)
Definition settles_to_keys (m : gmap string Object) (c : Async World (JsError + list string))
  : Prop :=
  forall w, objects w = m -> exists ks w', c w = (Returned (inr ks), w') /\ objects w' = m.

(** The bucket after an array of puts that all succeed. *)
Definition after_puts (m : gmap string Object) (inputs : list PutObjectInput)
  : gmap string Object :=
  foldl (fun m i => <[put_Key i := object_of_put i]> m) m inputs.

End Vocabulary.

(** * The vocabulary of the further properties *)

(** [data[name]] is truthy: the name is an own property with a non-empty
    value, or it is not an own property and [Object.prototype] has a member
    of that name. *)
Definition has_value (data : gmap string string) (name : string) : bool :=
  match Js.get data name with
  | Some v => Js.truthy v
  | None => false
  end.

(** [carries_tag], as a test. *)
Definition tagged_with (m : gmap string S3.Object) (tag key : string) : bool :=
  match m !! key with
  | Some o => Js.includes (S3CacheTagging.revalidate_tags (S3.TagSet o)) tag
  | None => false
  end.

(** The test that the scan of [revalidateTag] makes on a listed key. *)
Definition scan_keeps (m : gmap string S3.Object) (tag : string) (allowCacheKeys : list string)
    (key : string) : bool :=
  negb (S3CacheTagging.nonempty allowCacheKeys
        && S3CacheTagging.some_allowKey_matches allowCacheKeys key)
  && tagged_with m tag key.

(** A request that changes the bucket. *)
Definition is_write (req : S3.Request) : Prop :=
  match req with
  | S3.PutObject _ | S3.DeleteObject _ | S3.DeleteObjects _ => True
  | _ => False
  end.

(** The extensions of the objects that [set] of the second class writes,
    in the order of the writes. *)
Definition set_extensions (data : CacheEntry) (ctx : CacheContext) : list string :=
  match value data with
  | Some (PAGE _ _ _) => if isAppRouter ctx then ["html"; "rsc"; "json"] else ["html"; "json"]
  | _ => ["json"]
  end.

(** The characters of the decimal text of a number. *)
Definition digits : list ascii :=
  ["0"; "1"; "2"; "3"; "4"; "5"; "6"; "7"; "8"; "9"]%char.

(** The tags that [buildTagKeys] numbers: the array it is given, or the
    pieces of the text between commas; none when the argument is absent or
    empty. *)
Definition listed_tags (tags : option (string + list string)) : list string :=
  match tags with
  | None => []
  | Some (inl s) => if Js.truthy s then Js.split s ","%char else []
  | Some (inr l) => l
  end.

(** The tags under which [set] of the second class files an entry: those of
    the tags header for a PAGE or a ROUTE, the [tags] of the entry
    otherwise. *)
Definition entry_tags (header : string) (data : CacheEntry) : list string :=
  match value data with
  | Some (PAGE _ _ hs) => listed_tags (S3CacheTagging.tags_header header hs)
  | Some (ROUTE _ hs) => listed_tags (S3CacheTagging.tags_header header hs)
  | _ => default [] (tags data)
  end.

(** The test of [deleteAllByKeyMatch] of the first class on a listed key:
    [key.endsWith('.json') || key.endsWith('.html')]. *)
Definition has_dotted_extension (key : string) : bool :=
  Js.endsWith key ".json" || Js.endsWith key ".html".

(** A computation that changes the bucket only by removing objects whose
    key satisfies [P]. *)
Definition only_removes {A} (P : string -> Prop) (c : Async S3.World A) : Prop :=
  forall w k,
    S3.objects (snd (c w)) !! k = S3.objects w !! k
    \/ (P k /\ S3.objects (snd (c w)) !! k = None).

(** A part of the composite key after the first: nothing when it is
    empty, the part after a dash otherwise. *)
Definition dashed (part : string) : string :=
  if Js.truthy part then "-" +:+ part else "".

(** * Sample stores *)

(** A server with two keys under [/blog], handed out in two rounds. *)
Definition two_round_server : RedisCache.Server :=
  {| RedisCache.on_scan := fun _ c _ _ =>
       if (c =? 0)%Z then inr (RedisCache.mkScanReply 17 ["/blog//a"])
       else inr (RedisCache.mkScanReply 0 ["/blog//b"]);
     RedisCache.on_unlink := fun _ ks => inr (Z.of_nat (length ks)) |}.

(** A service that serves every request, with pages of 1000 keys. *)
Definition quiet : S3.Service :=
  {| S3.MaxKeys := 1000; S3.fault := fun _ _ => None |}.

(** An object with the one tag [revalidateTag0=t]. *)
Definition tagged (body : option string) (t : string) : S3.Object :=
  {| S3.Body := body; S3.ContentType := Some "application/json";
     S3.CacheControl := None; S3.Metadata := ∅;
     S3.TagSet := [ {| S3.tag_Key := Some "revalidateTag0"; S3.tag_Value := Some t |} ] |}.

(** Two variants of the page [/blog], both with the tag [t], and one entry
    of [/news] with another tag. *)
Definition blog_bucket : S3.World :=
  {| S3.objects := <["/blog/a.json" := tagged (Some "{}") "t"]>
                     (<["/blog/b.json" := tagged (Some "{}") "t"]>
                        (<["/news/c.json" := tagged (Some "{}") "u"]> ∅));
     S3.log := [] |}.

(** The three objects of each of the variants [a] and [c] of the page
    [/blog]. *)
Definition variants_bucket : S3.World :=
  {| S3.objects :=
       <["/blog/a.json" := tagged (Some "{}") "t"]>
         (<["/blog/a.html" := tagged (Some "<p>a</p>") "t"]>
            (<["/blog/a.rsc" := tagged (Some "0:[]") "t"]>
               (<["/blog/c.json" := tagged (Some "{}") "t"]>
                  (<["/blog/c.html" := tagged (Some "<p>c</p>") "t"]>
                     (<["/blog/c.rsc" := tagged (Some "0:[]") "t"]> ∅)))));
     S3.log := [] |}.

(** An error of the store that is not a not-found. *)
Definition AccessDenied : JsError := {| name := "AccessDenied"; message := "Access Denied" |}.

(** A service that refuses the reads of [/down/k.json]. *)
Definition flaky : S3.Service :=
  {| S3.MaxKeys := 1000;
     S3.fault := fun _ req =>
       match req with
       | S3.GetObject k => if bool_decide (k = "/down/k.json") then Some AccessDenied else None
       | _ => None
       end |}.

(** A codec for the runs that parse nothing. *)
Definition no_codec : JsonCodec :=
  {| JSON_stringify := fun _ => "";
     JSON_parse := fun _ => inl {| name := "SyntaxError"; message := "" |} |}.

(** A bucket whose one object comes back without a body. *)
Definition bodiless_bucket : S3.World :=
  {| S3.objects := {[ "/empty/k.json" := tagged None "t" ]}; S3.log := [] |}.

(** A PAGE entry of the app router. Its codec, below, knows this entry
    only: its text stands for the JSON text of the entry. *)
Definition sample_page : CacheEntry :=
  {| value := Some (PAGE "<p>hi</p>" "0:[]" (Some {[ "x-next-cache-tags" := "t1,t2" ]}));
     lastModified := 1700000000000;
     revalidate := Some 60%Z;
     tags := None |}.

(** The codec of the sample entry. *)
Definition sample_codec : JsonCodec :=
  {| JSON_stringify := fun d => if bool_decide (d = sample_page) then "sample_page" else "";
     JSON_parse := fun s =>
       if bool_decide (s = "sample_page") then inr sample_page
       else inl {| name := "SyntaxError"; message := "Unexpected token" |} |}.

(** The bucket before anything is written. *)
Definition empty_bucket : S3.World := {| S3.objects := ∅; S3.log := [] |}.

(** The error of a throttled request. *)
Definition SlowDown : JsError := {| name := "SlowDown"; message := "Please reduce your request rate." |}.

(** A service that rejects every batch delete. *)
Definition no_deletes : S3.Service :=
  {| S3.MaxKeys := 1000;
     S3.fault := fun _ req =>
       match req with
       | S3.DeleteObjects _ => Some SlowDown
       | _ => None
       end |}.

(** A service that rejects the batch deletes of exactly 1000 keys. *)
Definition no_full_chunks : S3.Service :=
  {| S3.MaxKeys := 1000;
     S3.fault := fun _ req =>
       match req with
       | S3.DeleteObjects ks => if bool_decide (length ks = 1000) then Some SlowDown else None
       | _ => None
       end |}.

(** The keys [/k/0.json], [/k/1.json], ... *)
Definition numbered_keys (n : nat) : list string :=
  map (fun i => "/k/" +:+ pretty i +:+ ".json") (seq 0 n).

(** * Properties of the cache handler *)

Section KeyBuilder.
Import CacheHandler.

Lemma truthy_app_eq (a b : string) : Js.truthy (a +:+ "=" +:+ b) = true.
Proof. destruct a; reflexivity. Qed.

Lemma buildCacheKey_step_present data prev curr v :
  data !! curr = Some v -> Js.truthy v = true ->
  buildCacheKey_step data prev curr
  = (if Js.truthy prev then "-" else "") +:+ curr +:+ "=" +:+ v.
Proof. intros H1 H2. unfold buildCacheKey_step, Js.get. by rewrite H1, H2. Qed.

Lemma buildCacheKey_step_absent data prev curr :
  (Js.get data curr = None \/ Js.get data curr = Some "") ->
  buildCacheKey_step data prev curr = prev.
Proof. intros [H|H]; unfold buildCacheKey_step; by rewrite H. Qed.

(** What the [reduce] leaves when the last allow-listed name is present:
    that name and its value alone, after a dash when something came
    before. The pairs accumulated before are not part of it. *)
Lemma buildCacheKey_last_present keys data curr v prefix :
  data !! curr = Some v -> Js.truthy v = true ->
  buildCacheKey (keys ++ [curr]) data prefix
  = prefix +:+ "("
    +:+ ((if Js.truthy (fold_left (buildCacheKey_step data) keys "") then "-" else "")
         +:+ curr +:+ "=" +:+ v)
    +:+ ")".
Proof.
  intros H1 H2. unfold buildCacheKey.
  rewrite bool_decide_eq_false_2 by (rewrite length_app; simpl; lia).
  rewrite fold_left_app. simpl.
  rewrite (buildCacheKey_step_present _ _ _ _ H1 H2).
  destruct (Js.truthy (fold_left _ keys "")); [reflexivity|].
  change ("" +:+ curr +:+ "=" +:+ v) with (curr +:+ "=" +:+ v).
  by rewrite truthy_app_eq.
Qed.

(** Names outside the allow-list have no part in the key. *)
Lemma buildCacheKey_only_allowed keys data data' prefix :
  (forall k, k ∈ keys -> data !! k = data' !! k) ->
  buildCacheKey keys data prefix = buildCacheKey keys data' prefix.
Proof.
  intros H. unfold buildCacheKey.
  assert (forall acc, fold_left (buildCacheKey_step data) keys acc
                 = fold_left (buildCacheKey_step data') keys acc) as ->; [|done].
  induction keys as [|k keys IH]; intros acc; [done|].
  simpl. unfold buildCacheKey_step at 2 4. unfold Js.get.
  rewrite <- (H k) by set_solver.
  apply IH. intros k' Hk'. apply H. set_solver.
Qed.

(** C2. With the allow-list [a, b] and the cookies [a=1] and [b=2], the
    cookie segment is [cookie(-b=2)]: the pair of [a] is lost and the
    separator is left in front, where the specification has
    [cookie(a=1-b=2)]. *)
Theorem buildCacheKey_two_cookies :
  buildCacheKey ["a"; "b"] (<["a" := "1"]> (<["b" := "2"]> ∅)) "cookie" = "cookie(-b=2)"
  /\ forall cookieParser_parse cfg h,
       cacheCookies cfg = ["a"; "b"] ->
       cookie h = Some "a=1; b=2" ->
       cookieParser_parse "a=1; b=2" = <["a" := "1"]> (<["b" := "2"]> ∅) ->
       buildCookiesCacheKey cookieParser_parse cfg h = "cookie(-b=2)".
Proof.
  split; [by vm_compute|].
  intros parse cfg h Hc Hh Hp. unfold buildCookiesCacheKey.
  rewrite Hc, Hh. simpl. rewrite Hp. by vm_compute.
Qed.

Lemma buildCacheKey_two_cookies_witness :
  buildCookiesCacheKey (fun _ => <["a" := "1"]> (<["b" := "2"]> ∅))
    {| cacheCookies := ["a"; "b"]; cacheQueries := []; enableDeviceSplit := false |}
    {| cookie := Some "a=1; b=2"; x_invoke_query := None; user_agent := "" |}
  = "cookie(-b=2)".
Proof.
  apply (proj2 buildCacheKey_two_cookies); reflexivity.
Defined.

End KeyBuilder.

Section Staleness.
Import CacheHandler.

(** C3, as stated, fails on an entry whose [revalidate] is 0: one
    millisecond after [lastModified] the entry is past
    [lastModified + 0 * 1000], and it is not reported stale. *)
Lemma checkIsStaleCache_zero_counterexample :
  let e := {| value := None; lastModified := 0; revalidate := Some 0%Z; tags := None |} in
  ~ (checkIsStaleCache 1 (Some e) = true <-> (1 > lastModified e + 0 * 1000)%Z).
Proof. simpl. intros [_ H]. discriminate H. lia. Qed.

(** C3, amended. [checkIsStaleCache] is false for an entry without a
    [revalidate] value and for one whose [revalidate] is 0; for any other
    [revalidate] it is true exactly when the current time is strictly
    after [lastModified + revalidate * 1000], so that at that very time
    the entry is not stale. *)
Theorem checkIsStaleCache_spec (now : Z) (e : CacheEntry) :
  (revalidate e = None -> checkIsStaleCache now (Some e) = false)
  /\ (revalidate e = Some 0%Z -> checkIsStaleCache now (Some e) = false)
  /\ (forall r, revalidate e = Some r -> r <> 0%Z ->
        (checkIsStaleCache now (Some e) = true <-> (now > lastModified e + r * 1000)%Z)
        /\ (now = (lastModified e + r * 1000)%Z -> checkIsStaleCache now (Some e) = false)).
Proof.
  unfold checkIsStaleCache. repeat split.
  - by intros ->.
  - by intros ->.
  - rewrite H. destruct (Z.eqb_spec r 0); [done|]. simpl.
    intros Hlt. apply Z.ltb_lt in Hlt. lia.
  - rewrite H. destruct (Z.eqb_spec r 0); [done|]. simpl.
    intros Hgt. apply Z.ltb_lt. lia.
  - rewrite H. destruct (Z.eqb_spec r 0); [done|]. simpl.
    intros ->. apply Z.ltb_irrefl.
Qed.

Lemma checkIsStaleCache_spec_witness :
  let e := {| value := None; lastModified := 1000; revalidate := Some 60%Z; tags := None |} in
  checkIsStaleCache 61001 (Some e) = true
  /\ checkIsStaleCache 61000 (Some e) = false
  /\ checkIsStaleCache 60999 (Some e) = false.
Proof.
  intros e.
  destruct (checkIsStaleCache_spec 61001 e) as (_ & _ & H1).
  destruct (checkIsStaleCache_spec 61000 e) as (_ & _ & H2).
  split; [|split].
  - apply (H1 60%Z); [reflexivity | lia | simpl; lia].
  - apply (H2 60%Z); [reflexivity | lia | reflexivity].
  - reflexivity.
Defined.

(** C10. An entry whose [revalidate] is 0 is never stale, whatever the
    current time, and [get] hands it over as the strategy returned it. *)
Theorem get_revalidate_zero {W} (cache_get : string -> CacheContext -> Async W (option CacheEntry))
    (this : Instance) (now : Z) (key : string) (ctx : CacheContext)
    (e : CacheEntry) (w w' : W) :
  revalidate e = Some 0%Z ->
  cache_get (getPageCacheKey this key)
    {| isAppRouter := isAppRouter ctx; serverAppPath := instServerAppPath this |} w
  = (Returned (Some e), w') ->
  checkIsStaleCache now (Some e) = false
  /\ get cache_get this now key ctx w = (Returned (Some e), w').
Proof.
  intros Hr Hget.
  assert (checkIsStaleCache now (Some e) = false) as Hs.
  { unfold checkIsStaleCache. by rewrite Hr. }
  split; [exact Hs|].
  unfold get, await. rewrite Hget, Hs. reflexivity.
Qed.

Lemma get_revalidate_zero_witness :
  let e := {| value := Some (FETCH "{}"); lastModified := 0; revalidate := Some 0%Z; tags := None |} in
  let this := {| cookieCacheKey := ""; queryCacheKey := ""; device := None; instServerAppPath := "" |} in
  checkIsStaleCache 4102444800000 (Some e) = false
  /\ get (fun _ _ => resolve (Some e)) this 4102444800000 "/index" (mkCtx false "") tt
     = (Returned (Some e), tt).
Proof.
  intros e this.
  apply (get_revalidate_zero (fun _ _ => resolve (Some e)) this 4102444800000 "/index"
           (mkCtx false "") e tt tt); reflexivity.
Defined.

End Staleness.

(** * Properties of the key-value backend *)

Section KeyValue.
Import RedisCache.
Variable srv : Server.
Variable CHUNK_LIMIT : nat.

Lemma client_scan_run c pattern log :
  client_scan srv c pattern CHUNK_LIMIT log
  = (of_reply (on_scan srv log c pattern CHUNK_LIMIT), log ++ [SCAN c pattern CHUNK_LIMIT]).
Proof. reflexivity. Qed.

(** When the server brings the cursor back to 0, the loop ends with the
    keys of all the rounds, as soon as it is given as many iterations as
    there are rounds. *)
Lemma scan_loop_rounds key log c acc log' acc' :
  scan_rounds srv CHUNK_LIMIT (key +:+ "//*") log c acc log' acc' ->
  exists n, forall fuel, n <= fuel ->
    scan_loop srv CHUNK_LIMIT fuel key c acc log = (Returned acc', log').
Proof.
  induction 1 as [log c acc r Hr H0 | log c acc r log' acc' Hr Hne _ [n IH]].
  - exists 1. intros [|fuel] Hle; [lia|].
    simpl. unfold await. rewrite client_scan_run, Hr. simpl.
    rewrite H0. reflexivity.
  - exists (S n). intros [|fuel] Hle; [lia|].
    simpl. unfold await. rewrite client_scan_run, Hr. simpl.
    destruct (Z.eqb_spec (cursor r) 0); [contradiction|]. simpl.
    apply IH. lia.
Qed.

(** The rounds send scans with the pattern, and nothing else. *)
Lemma scan_rounds_log pattern log c acc log' acc' :
  scan_rounds srv CHUNK_LIMIT pattern log c acc log' acc' ->
  exists scans,
    log' = log ++ SCAN c pattern CHUNK_LIMIT :: scans
    /\ Forall (is_scan_of CHUNK_LIMIT pattern) scans.
Proof.
  induction 1 as [log c acc r Hr H0 | log c acc r log' acc' Hr Hne _ (scans & -> & Hall)].
  - exists []. split; [reflexivity | constructor].
  - exists (SCAN (cursor r) pattern CHUNK_LIMIT :: scans). split.
    + by rewrite <- app_assoc.
    + constructor; [by eexists | exact Hall].
Qed.

(** C9. With a cache key, the only command is the unlink of
    [key//cacheKey], whatever the fuel. Without one, whenever the server
    brings the cursor back to 0, the run sends the scans of the rounds, all
    with the pattern [key//*] and the first with cursor 0, and then one
    unlink of all the keys gathered, or nothing when there is none. *)
Theorem deleteAllByKeyMatch_commands (key cacheKey : string) (log : World) :
  (cacheKey <> "" -> forall fuel,
     snd (deleteAllByKeyMatch srv CHUNK_LIMIT fuel key cacheKey log)
     = log ++ [UNLINK [key +:+ "//" +:+ cacheKey]])
  /\ (cacheKey = "" -> forall log' acc,
        scan_rounds srv CHUNK_LIMIT (key +:+ "//*") log 0 [] log' acc ->
        (exists scans,
            log' = log ++ SCAN 0 (key +:+ "//*") CHUNK_LIMIT :: scans
            /\ Forall (is_scan_of CHUNK_LIMIT (key +:+ "//*")) scans)
        /\ exists n, forall fuel, n <= fuel ->
             deleteAllByKeyMatch srv CHUNK_LIMIT fuel key cacheKey log
             = match acc with
               | [] => (Returned tt, log')
               | _ => (match on_unlink srv log' acc with
                       | inl e => Thrown e
                       | inr _ => Returned tt
                       end, log' ++ [UNLINK acc])
               end).
Proof.
  split.
  - intros Hne fuel. unfold deleteAllByKeyMatch.
    destruct cacheKey as [|a s]; [done|]. simpl.
    unfold await, client_unlink. by destruct (on_unlink _ _ _).
  - intros -> log' acc Hrounds. split; [by apply scan_rounds_log in Hrounds|].
    destruct (scan_loop_rounds _ _ _ _ _ _ Hrounds) as [n Hn].
    exists n. intros fuel Hle. unfold deleteAllByKeyMatch. simpl.
    unfold await at 1. rewrite (Hn fuel Hle).
    destruct acc as [|k acc]; [reflexivity|]. simpl.
    unfold await, client_unlink. by destruct (on_unlink _ _ _).
Qed.

End KeyValue.

Lemma deleteAllByKeyMatch_commands_witness :
  snd (RedisCache.deleteAllByKeyMatch two_round_server 1000 0 "/blog" "a" [])
  = [RedisCache.UNLINK ["/blog//a"]]
  /\ exists n, forall fuel, n <= fuel ->
       RedisCache.deleteAllByKeyMatch two_round_server 1000 fuel "/blog" "" []
       = (Returned tt,
          [RedisCache.SCAN 0 "/blog//*" 1000; RedisCache.SCAN 17 "/blog//*" 1000;
           RedisCache.UNLINK ["/blog//a"; "/blog//b"]]).
Proof.
  split.
  - apply (proj1 (deleteAllByKeyMatch_commands two_round_server 1000 "/blog" "a" [])).
    discriminate.
  - apply (proj2 (deleteAllByKeyMatch_commands two_round_server 1000 "/blog" "" [])
             eq_refl
             [RedisCache.SCAN 0 "/blog//*" 1000; RedisCache.SCAN 17 "/blog//*" 1000]
             ["/blog//a"; "/blog//b"]).
    eapply (RedisCache.scan_more two_round_server 1000 "/blog//*" [] 0 []
              (RedisCache.mkScanReply 17 ["/blog//a"])); [reflexivity | discriminate |].
    apply (RedisCache.scan_last two_round_server 1000 "/blog//*"
             [RedisCache.SCAN 0 "/blog//*" 1000] 17 ["/blog//a"]
             (RedisCache.mkScanReply 0 ["/blog//b"])); reflexivity.
Defined.

(** * Properties of the object-store backend *)

(** ** Requests and their effect *)

Section Requests.
Import S3.
Variable srv : Service.

Lemma send_log {A} req (serve : gmap string Object -> Outcome A * gmap string Object) w :
  log (snd (send srv req serve w)) = log w ++ [req].
Proof.
  unfold send. destruct (fault srv (log w) req); [reflexivity|].
  by destruct (serve (objects w)).
Qed.

(** Reading requests leave the bucket as it is. *)
Lemma getObject_objects k w : objects (snd (getObject srv k w)) = objects w.
Proof.
  unfold getObject, send. destruct (fault srv (log w) _); [reflexivity|].
  by destruct (objects w !! k).
Qed.

Lemma getObjectTagging_objects k w : objects (snd (getObjectTagging srv k w)) = objects w.
Proof.
  unfold getObjectTagging, send. destruct (fault srv (log w) _); [reflexivity|].
  by destruct (objects w !! k).
Qed.

Lemma listObjectsV2_objects t p d w : objects (snd (listObjectsV2 srv t p d w)) = objects w.
Proof. unfold listObjectsV2, send. by destruct (fault srv (log w) _). Qed.

(** A batch delete removes keys of the batch, or nothing. *)
Lemma lookup_foldr_delete (m : gmap string Object) ks k :
  foldr delete m ks !! k = if bool_decide (k ∈ ks) then None else m !! k.
Proof.
  induction ks as [|k' ks IH]; cbn [foldr].
  - case_bool_decide; [set_solver | done].
  - destruct (decide (k = k')) as [->|Hne].
    + rewrite lookup_delete_eq, bool_decide_eq_true_2 by set_solver. done.
    + rewrite lookup_delete_ne, IH by done.
      rewrite (bool_decide_ext (k ∈ ks) (k ∈ k' :: ks)); [done|].
      rewrite elem_of_cons. split; [by right | by intros [?|?]].
Qed.

Lemma deleteObjects_log ks w :
  log (snd (S3.deleteObjects srv ks w)) = log w ++ [DeleteObjects ks].
Proof. apply send_log. Qed.

Lemma deleteObjects_lookup ks w k :
  objects (snd (S3.deleteObjects srv ks w)) !! k = objects w !! k
  \/ (k ∈ ks /\ objects (snd (S3.deleteObjects srv ks w)) !! k = None).
Proof.
  unfold S3.deleteObjects, send. destruct (fault srv (log w) _); simpl; [by left|].
  rewrite lookup_foldr_delete. case_bool_decide; [by right | by left].
Qed.

End Requests.

(** ** Arrays of promises *)

Section Promises.
Context {W A : Type}.

(** When no call runs out of fuel, all the calls of the array are issued and
    the wait for all of them to settle ends normally. *)
Lemma issue_all_returns (ms : list (Async W A)) w :
  Forall (fun m => forall w', fst (m w') <> OutOfFuel) ms ->
  exists rs, fst (issue_all ms w) = Returned rs /\ length rs = length ms.
Proof.
  intros Hall. revert w. induction Hall as [|m ms Hm _ IH]; intros w; simpl.
  - by exists [].
  - unfold await, settle. specialize (Hm w).
    destruct (m w) as [[a|e|] w1]; simpl in *; [| |done].
    + destruct (IH w1) as (rs & Hrs & Hlen).
      destruct (issue_all ms w1) as [[rs'| |] w2]; simpl in *; try done.
      injection Hrs as ->. exists (inr a :: rs). by rewrite <- Hlen.
    + destruct (IH w1) as (rs & Hrs & Hlen).
      destruct (issue_all ms w1) as [[rs'| |] w2]; simpl in *; try done.
      injection Hrs as ->. exists (inl e :: rs). by rewrite <- Hlen.
Qed.

(** The state after the calls of the array is the state after the calls of
    its tail, from the state the first call leaves. *)
Lemma issue_all_cons_snd (m : Async W A) (ms : list (Async W A)) w :
  fst (m w) <> OutOfFuel ->
  snd (issue_all (m :: ms) w) = snd (issue_all ms (snd (m w))).
Proof.
  intros Hm. simpl. unfold await at 1, settle.
  destruct (m w) as [[a|e|] w1]; simpl in *; [| |done];
    unfold await; by destruct (issue_all ms w1) as [[rs| |] w2].
Qed.

End Promises.

(** ** Chunks *)

Section Chunks.
Context {A : Type}.

Lemma chunkArray_upto_concat fuel (l : list A) n :
  0 < n -> length l <= fuel -> concat (chunkArray_upto fuel l n) = l.
Proof.
  intros Hn. revert l. induction fuel as [|fuel IH]; intros l Hlen.
  - destruct l; [done | simpl in Hlen; lia].
  - destruct l as [|x l]; [done|].
    cbn [chunkArray_upto concat]. rewrite IH.
    + apply take_drop.
    + rewrite length_drop. simpl in *. lia.
Qed.

Lemma chunkArray_upto_sizes fuel (l : list A) n :
  0 < n -> Forall (fun c => 0 < length c <= n) (chunkArray_upto fuel l n).
Proof.
  intros Hn. revert l. induction fuel as [|fuel IH]; intros l; [constructor|].
  destruct l as [|x l]; [constructor|].
  cbn [chunkArray_upto]. constructor; [|apply IH].
  rewrite length_take. simpl. lia.
Qed.

(** The chunks are the array, cut in order into non-empty pieces of at most
    [n] elements. *)
Lemma chunkArray_partition (l : list A) n :
  0 < n ->
  concat (chunkArray l n) = l /\ Forall (fun c => 0 < length c <= n) (chunkArray l n).
Proof.
  intros Hn. split.
  - by apply chunkArray_upto_concat.
  - by apply chunkArray_upto_sizes.
Qed.

End Chunks.

(** ** The second class: chunked deletes and reads *)

Section TaggingClass.
Import S3 S3CacheTagging.
Variable srv : Service.
Variable json : JsonCodec.

Lemma deleteObjects_never_runs_out ks w : fst (S3.deleteObjects srv ks w) <> OutOfFuel.
Proof.
  unfold S3.deleteObjects, send. by destruct (fault srv (log w) _).
Qed.

Lemma issue_all_deleteObjects_log chunks w :
  log (snd (issue_all (map (S3.deleteObjects srv) chunks) w)) = log w ++ map DeleteObjects chunks.
Proof.
  revert w. induction chunks as [|c chunks IH]; intros w.
  - simpl. by rewrite app_nil_r.
  - cbn [map]. rewrite issue_all_cons_snd by apply deleteObjects_never_runs_out.
    rewrite IH, deleteObjects_log, <- app_assoc. reflexivity.
Qed.

Lemma issue_all_deleteObjects_lookup chunks w k :
  objects (snd (issue_all (map (S3.deleteObjects srv) chunks) w)) !! k = objects w !! k
  \/ (k ∈ concat chunks
      /\ objects (snd (issue_all (map (S3.deleteObjects srv) chunks) w)) !! k = None).
Proof.
  revert w. induction chunks as [|c chunks IH]; intros w; [by left|].
  cbn [map concat]. rewrite issue_all_cons_snd by apply deleteObjects_never_runs_out.
  destruct (IH (snd (S3.deleteObjects srv c w))) as [Hsame|[Hin Hnone]].
  - rewrite Hsame.
    destruct (deleteObjects_lookup srv c w k) as [Hc|[Hin Hc]]; [by left | right].
    split; [apply elem_of_app; by left | done].
  - right. split; [apply elem_of_app; by right | done].
Qed.

Lemma deleteObjects_returns keys w :
  fst (deleteObjects srv keys w) = Returned tt.
Proof.
  unfold deleteObjects, Promise_allSettled, await.
  destruct (issue_all_returns (map (S3.deleteObjects srv) (chunkArray keys CHUNK_LIMIT)) w)
    as (rs & Hrs & _).
  { apply Forall_forall. intros m Hm. apply list_elem_of_fmap in Hm as (c & -> & _).
    apply deleteObjects_never_runs_out. }
  destruct (issue_all _ w) as [[rs'| |] w1]; simpl in *; done.
Qed.

Lemma deleteObjects_snd keys w :
  snd (deleteObjects srv keys w)
  = snd (issue_all (map (S3.deleteObjects srv) (chunkArray keys CHUNK_LIMIT)) w).
Proof.
  unfold deleteObjects, Promise_allSettled, await.
  by destruct (issue_all _ w) as [[rs'| |] w1].
Qed.

(** Only keys of the array are removed. *)
Lemma deleteObjects_lookup_keys keys w k :
  objects (snd (deleteObjects srv keys w)) !! k = objects w !! k
  \/ (k ∈ keys /\ objects (snd (deleteObjects srv keys w)) !! k = None).
Proof.
  rewrite deleteObjects_snd.
  destruct (issue_all_deleteObjects_lookup (chunkArray keys CHUNK_LIMIT) w k) as [H|[Hin H]];
    [by left | right].
  split; [|done].
  by rewrite (proj1 (chunkArray_partition keys CHUNK_LIMIT ltac:(unfold CHUNK_LIMIT; lia))) in Hin.
Qed.

End TaggingClass.

Section ChunkedDelete.
Import S3 S3CacheTagging.
Variable srv : Service.

(** C8. [deleteObjects] cuts the keys, in order, into non-empty chunks of at
    most 1000 keys, sends one batch delete per chunk, all of them whatever
    the service answers to the others, and returns normally. So the two
    invalidation calls throw only what their listing phase throws. *)
Theorem deleteObjects_chunked (keys : list string) (w : World) :
  let chunks := chunkArray keys CHUNK_LIMIT in
  concat chunks = keys
  /\ Forall (fun c => 0 < length c <= 1000) chunks
  /\ fst (deleteObjects srv keys w) = Returned tt
  /\ log (snd (deleteObjects srv keys w)) = log w ++ map DeleteObjects chunks
  /\ (forall fuel tag ctx allowCacheKeys,
        fst (revalidateTag srv fuel tag ctx allowCacheKeys w)
        = match fst (revalidateTag_loop srv fuel tag allowCacheKeys [] None w) with
          | Returned _ => Returned tt
          | Thrown e => Thrown e
          | OutOfFuel => OutOfFuel
          end)
  /\ (forall fuel pageKey ctx allowCacheKeys,
        fst (deleteAllByKeyMatch srv fuel pageKey ctx allowCacheKeys w)
        = match fst (deleteAllByKeyMatch_loop srv fuel pageKey [] None w) with
          | Returned _ => Returned tt
          | Thrown e => Thrown e
          | OutOfFuel => OutOfFuel
          end).
Proof.
  intros chunks.
  destruct (chunkArray_partition keys CHUNK_LIMIT) as [Hcat Hsizes];
    [unfold CHUNK_LIMIT; lia|].
  repeat split.
  - exact Hcat.
  - exact Hsizes.
  - apply deleteObjects_returns.
  - rewrite deleteObjects_snd. apply issue_all_deleteObjects_log.
  - intros fuel tag ctx allow. unfold revalidateTag, await.
    destruct (revalidateTag_loop srv fuel tag allow [] None w) as [[ks|e|] w1]; try done.
    apply deleteObjects_returns.
  - intros fuel pageKey ctx allow. unfold deleteAllByKeyMatch, await.
    destruct (deleteAllByKeyMatch_loop srv fuel pageKey [] None w) as [[ks|e|] w1]; try done.
    apply deleteObjects_returns.
Qed.

End ChunkedDelete.

Section Read.
Import S3 S3CacheTagging.
Variable srv : Service.
Variable json : JsonCodec.

(** [get], by the outcome of its one read. *)
Lemma get_by_read (pageKey cacheKey : string) (w : World) :
  get srv json pageKey cacheKey w
  = match getObject srv (pageKey +:+ "/" +:+ cacheKey +:+ ".json") w with
    | (Returned out, w1) =>
        (match out_Body out with
         | Some body =>
             match JSON_parse json body with
             | inl e => Thrown e
             | inr d => Returned (Some d)
             end
         | None => Returned None
         end, w1)
    | (Thrown e, w1) =>
        (if Js.includes NOT_FOUND_ERROR (name e) then Returned None else Thrown e, w1)
    | (OutOfFuel, w1) => (OutOfFuel, w1)
    end.
Proof.
  unfold get. change ("." +:+ "json") with ".json".
  unfold catch, await.
  destruct (getObject srv _ w) as [[[[body|] md]|e|] w1]; simpl; try reflexivity.
  - by destruct (JSON_parse json body).
  - unfold swallow_not_found. by destruct (Js.includes NOT_FOUND_ERROR (name e)).
Qed.

(** C7. [get] sends one request, the read of [pageKey/cacheKey.json], and
    leaves the bucket as it is. When the read is rejected with the name
    [NotFound] or [NoSuchKey], or comes back without a body, [get] returns
    [null]; any other rejection is thrown as it is. *)
Theorem get_not_found_is_null (pageKey cacheKey : string) (w : World) :
  let key := pageKey +:+ "/" +:+ cacheKey +:+ ".json" in
  log (snd (get srv json pageKey cacheKey w)) = log w ++ [GetObject key]
  /\ objects (snd (get srv json pageKey cacheKey w)) = objects w
  /\ (forall e, fst (getObject srv key w) = Thrown e ->
        name e ∈ NOT_FOUND_ERROR -> fst (get srv json pageKey cacheKey w) = Returned None)
  /\ (forall e, fst (getObject srv key w) = Thrown e ->
        name e ∉ NOT_FOUND_ERROR -> fst (get srv json pageKey cacheKey w) = Thrown e)
  /\ (forall out, fst (getObject srv key w) = Returned out ->
        out_Body out = None -> fst (get srv json pageKey cacheKey w) = Returned None).
Proof.
  intros key. rewrite get_by_read. fold key.
  assert (log (snd (getObject srv key w)) = log w ++ [GetObject key]) as Hlog
    by apply send_log.
  pose proof (getObject_objects srv key w) as Hobj.
  destruct (getObject srv key w) as [[out|e|] w1]; simpl in *.
  - split; [exact Hlog|]. split; [exact Hobj|]. split; [|split]; try discriminate.
    intros out' [= <-] Hbody. by rewrite Hbody.
  - split; [exact Hlog|]. split; [exact Hobj|]. unfold Js.includes. split; [|split].
    + intros e' [= <-] Hin. by rewrite bool_decide_eq_true_2.
    + intros e' [= <-] Hin. by rewrite bool_decide_eq_false_2.
    + discriminate.
  - split; [exact Hlog|]. split; [exact Hobj|]. split; [|split]; discriminate.
Qed.

End Read.

(** ** Listings *)

Section KeyOrder.

Lemma ascii_compare_lt_trans (a b c : ascii) :
  Ascii.compare a b = Lt -> Ascii.compare b c = Lt -> Ascii.compare a c = Lt.
Proof.
  unfold Ascii.compare. rewrite !N.compare_lt_iff. lia.
Qed.

Lemma ascii_compare_refl (a : ascii) : Ascii.compare a a = Eq.
Proof. unfold Ascii.compare. apply N.compare_refl. Qed.

Lemma string_compare_refl (s : string) : String.compare s s = Eq.
Proof. induction s as [|a s IH]; simpl; [done|]. by rewrite ascii_compare_refl. Qed.

Lemma string_compare_lt_trans (s1 s2 s3 : string) :
  String.compare s1 s2 = Lt -> String.compare s2 s3 = Lt -> String.compare s1 s3 = Lt.
Proof.
  revert s2 s3. induction s1 as [|a s1 IH]; intros [|b s2] [|c s3]; simpl; try done.
  destruct (Ascii.compare a b) eqn:Hab; try done.
  - apply Ascii.compare_eq_iff in Hab as ->.
    destruct (Ascii.compare b c) eqn:Hbc; try done. apply IH.
  - destruct (Ascii.compare b c) eqn:Hbc; try done.
    + apply Ascii.compare_eq_iff in Hbc as <-. by rewrite Hab.
    + by rewrite (ascii_compare_lt_trans _ _ _ Hab Hbc).
Qed.

Lemma string_ltb_trans (s1 s2 s3 : string) :
  String.ltb s1 s2 = true -> String.ltb s2 s3 = true -> String.ltb s1 s3 = true.
Proof.
  unfold String.ltb. intros H1 H2.
  destruct (String.compare s1 s2) eqn:H12; try done.
  destruct (String.compare s2 s3) eqn:H23; try done.
  by rewrite (string_compare_lt_trans _ _ _ H12 H23).
Qed.

Lemma string_ltb_irrefl (s : string) : String.ltb s s = false.
Proof. unfold String.ltb. by rewrite string_compare_refl. Qed.

End KeyOrder.

Section Pagination.
Import S3.

(** A page with a continuation token leaves strictly fewer keys to list. *)
Lemma list_page_progress (n : nat) (m : gmap string Object) (token P D : option string) (t' : string) :
  NextContinuationToken (list_page n m token P D) = Some t' ->
  length (pending m (Some t') P D) < length (pending m token P D).
Proof.
  unfold list_page. simpl. intros Hnext.
  destruct (n <? length (pending m token P D))%nat eqn:Hn; [|done].
  assert (t' ∈ pending m token P D) as Hin.
  { apply last_Some in Hnext as [l' Hl'].
    apply (subseteq_take n). rewrite Hl'. set_solver. }
  unfold pending in *.
  apply list_elem_of_filter in Hin as [Ht' Hin].
  apply Is_true_true, andb_true_iff in Ht' as [Hafter Hlisted].
  rewrite <- (list_filter_filter_l
                (fun k => Is_true (after (Some t') k && listed_under P D k))
                (fun k => Is_true (after token k && listed_under P D k))).
  - apply (length_filter_lt _ _ t').
    + apply list_elem_of_filter. split; [|done].
      apply Is_true_true, andb_true_iff. done.
    + simpl. rewrite string_ltb_irrefl. simpl. tauto.
  - intros k Hk. apply Is_true_true, andb_true_iff in Hk as [Hk1 Hk2].
    apply Is_true_true, andb_true_iff. split; [|done].
    destruct token as [t|]; [|done]. simpl in *.
    by apply (string_ltb_trans _ t').
Qed.

End Pagination.

Section PageContents.
Import S3.

Lemma pending_elem (m : gmap string Object) (token P D : option string) (k : string) :
  k ∈ pending m token P D ->
  listed_under P D k = true /\ after token k = true /\ is_Some (m !! k).
Proof.
  unfold pending. intros [Hk Hin]%list_elem_of_filter.
  apply Is_true_true, andb_true_iff in Hk as [Hafter Hlisted].
  split; [done|]. split; [done|].
  unfold sorted_keys in Hin. rewrite merge_sort_Permutation in Hin.
  apply list_elem_of_fmap in Hin as ([k' o] & -> & Hin).
  apply elem_of_map_to_list in Hin. by exists o.
Qed.

Lemma list_page_contents (n : nat) (m : gmap string Object) (token P D : option string) (o : Listed) :
  o ∈ default [] (Contents (list_page n m token P D)) ->
  exists k, Key o = Some k /\ k ∈ pending m token P D.
Proof.
  unfold list_page. simpl.
  destruct (take n (pending m token P D)) as [|k0 page] eqn:Hpage; simpl; [set_solver|].
  rewrite <- (fmap_cons (fun k => {| Key := Some k |})).
  intros (k & -> & Hin)%list_elem_of_fmap. exists k. split; [done|].
  apply (subseteq_take n). by rewrite Hpage.
Qed.

End PageContents.

(** ** The second class: deletion by path *)

Section DeleteByPath.
Import S3 S3CacheTagging.
Variable srv : Service.

Lemma listObjectsV2_run (token P D : option string) (w : World) :
  listObjectsV2 srv token P D w
  = (match fault srv (log w) (ListObjectsV2 token P D) with
     | Some e => Thrown e
     | None => Returned (list_page (MaxKeys srv) (objects w) token P D)
     end,
     {| objects := objects w; log := log w ++ [ListObjectsV2 token P D] |}).
Proof. unfold listObjectsV2, send. by destruct (fault srv (log w) _). Qed.

Lemma deleteAllByKeyMatch_page_elem (contents : list Listed) (acc : list string) (k : string) :
  k ∈ fold_left (fun acc o =>
                   let key := default "" (Key o) in
                   if has_page_extension key then acc ++ [key] else acc)
                contents acc ->
  k ∈ acc \/ (has_page_extension k = true /\ exists o, o ∈ contents /\ default "" (Key o) = k).
Proof.
  revert acc. induction contents as [|o contents IH]; intros acc; simpl; [by left|].
  intros [Hacc|(Hext & o' & Hin & Hk)]%IH.
  - destruct (has_page_extension (default "" (Key o))) eqn:Hext.
    + apply elem_of_app in Hacc as [Hacc|Hk]; [by left | right].
      apply list_elem_of_singleton in Hk as ->.
      split; [done|]. exists o. split; [by left | done].
    + by left.
  - right. split; [done|]. exists o'. split; [by right | done].
Qed.

(** The loop leaves the bucket as it is; the keys it gathers are keys of
    the bucket, listed under the prefix, that end with an extension. *)
Lemma deleteAllByKeyMatch_loop_sound (fuel : nat) (pageKey : string) (acc : list string)
    (token : option string) (w : World) :
  objects (snd (deleteAllByKeyMatch_loop srv fuel pageKey acc token w)) = objects w
  /\ forall ks, fst (deleteAllByKeyMatch_loop srv fuel pageKey acc token w) = Returned ks ->
       forall k, k ∈ ks ->
         k ∈ acc
         \/ (listed_under (Some (pageKey +:+ "/")) (Some "/") k = true
             /\ has_page_extension k = true
             /\ is_Some (objects w !! k)).
Proof.
  revert acc token w. induction fuel as [|fuel IH]; intros acc token w; [done|].
  cbn [deleteAllByKeyMatch_loop]. unfold await. rewrite listObjectsV2_run.
  destruct (fault srv (log w) _) as [e|]; [done|].
  set (page := list_page _ _ _ _ _).
  set (w1 := {| objects := objects w; log := _ |}).
  assert (forall k, k ∈ acc ++ deleteAllByKeyMatch_page (default [] (Contents page)) ->
            k ∈ acc \/ (listed_under (Some (pageKey +:+ "/")) (Some "/") k = true
                       /\ has_page_extension k = true /\ is_Some (objects w !! k))) as Hpage.
  { intros k [Hk|Hk]%elem_of_app; [by left | right].
    apply deleteAllByKeyMatch_page_elem in Hk as [Hk|(Hext & o & Hin & Hk)]; [set_solver|].
    apply list_page_contents in Hin as (k' & Hkey & Hin).
    rewrite Hkey in Hk. simpl in Hk. subst k'.
    apply pending_elem in Hin as (Hl & _ & Hsome). done. }
  destruct (more (NextContinuationToken page)).
  - destruct (IH (acc ++ deleteAllByKeyMatch_page (default [] (Contents page)))
                (NextContinuationToken page) w1) as [Hobj Hks].
    split; [exact Hobj|].
    intros ks Hret k Hk. destruct (Hks ks Hret k Hk) as [Hacc|Hnew]; [by apply Hpage | by right].
  - split; [done|]. intros ks [= <-] k Hk. by apply Hpage.
Qed.

(** When no listing request is rejected, the loop returns as soon as its
    fuel exceeds the number of keys still to list. *)
Lemma deleteAllByKeyMatch_loop_returns (fuel : nat) (pageKey : string) (acc : list string)
    (token : option string) (w : World) :
  (forall lg tok, fault srv lg (ListObjectsV2 tok (Some (pageKey +:+ "/")) (Some "/")) = None) ->
  length (pending (objects w) token (Some (pageKey +:+ "/")) (Some "/")) < fuel ->
  exists ks, fst (deleteAllByKeyMatch_loop srv fuel pageKey acc token w) = Returned ks.
Proof.
  intros Hquiet. revert acc token w.
  induction fuel as [|fuel IH]; intros acc token w Hlen; [lia|].
  cbn [deleteAllByKeyMatch_loop]. unfold await. rewrite listObjectsV2_run, Hquiet.
  set (page := list_page _ _ _ _ _).
  destruct (NextContinuationToken page) as [t'|] eqn:Hnext; simpl; [|by eexists].
  destruct (Js.truthy t'); [|by eexists].
  apply IH. simpl. apply list_page_progress in Hnext. lia.
Qed.

Lemma listed_under_startsWith (p : string) (D : option string) (k : string) :
  listed_under (Some p) D k = true -> Js.startsWith k p = true.
Proof. unfold listed_under. simpl. by intros [? _]%andb_true_iff. Qed.

Lemma some_allowKey_matches_true (allowCacheKeys : list string) (key : string) :
  some_allowKey_matches allowCacheKeys key = true
  <-> exists allowKey, allowKey ∈ allowCacheKeys
                       /\ Js.endsWith (Js.strip_json_html key) allowKey = true.
Proof.
  unfold some_allowKey_matches. rewrite existsb_exists.
  split; intros (a & Ha & Hm); exists a; (split; [by apply list_elem_of_In | done]).
Qed.

(** X27. The filter of [deleteAllByKeyMatch] as the code applies it, for
    every service. With a non-empty filter, an object that the call
    removes has a key under [pageKey/] which, without a final [.json] or
    [.html] (a final [.rsc] stays), ends with an entry of the filter; an
    object whose key does not is there after the call as it was before.
    The call returns when its listing requests are served and it is given
    enough fuel. *)
Theorem deleteAllByKeyMatch_filtered (pageKey : string) (ctx : option CacheContext)
    (allowCacheKeys : list string) (w : World) :
  allowCacheKeys <> [] ->
  (forall fuel k,
     objects (snd (deleteAllByKeyMatch srv fuel pageKey ctx allowCacheKeys w)) !! k
     <> objects w !! k ->
     Js.startsWith k (pageKey +:+ "/") = true
     /\ (exists allowKey, allowKey ∈ allowCacheKeys
                          /\ Js.endsWith (Js.strip_json_html k) allowKey = true)
     /\ objects (snd (deleteAllByKeyMatch srv fuel pageKey ctx allowCacheKeys w)) !! k = None)
  /\ (forall fuel k,
        (forall allowKey, allowKey ∈ allowCacheKeys ->
                          Js.endsWith (Js.strip_json_html k) allowKey = false) ->
        objects (snd (deleteAllByKeyMatch srv fuel pageKey ctx allowCacheKeys w)) !! k
        = objects w !! k)
  /\ ((forall lg tok, fault srv lg (ListObjectsV2 tok (Some (pageKey +:+ "/")) (Some "/")) = None) ->
      exists n, forall fuel, n <= fuel ->
        fst (deleteAllByKeyMatch srv fuel pageKey ctx allowCacheKeys w) = Returned tt).
Proof.
  intros Hne.
  assert (forall fuel k,
     objects (snd (deleteAllByKeyMatch srv fuel pageKey ctx allowCacheKeys w)) !! k
     <> objects w !! k ->
     Js.startsWith k (pageKey +:+ "/") = true
     /\ (exists allowKey, allowKey ∈ allowCacheKeys
                          /\ Js.endsWith (Js.strip_json_html k) allowKey = true)
     /\ objects (snd (deleteAllByKeyMatch srv fuel pageKey ctx allowCacheKeys w)) !! k = None)
    as Honly.
  { intros fuel k. unfold deleteAllByKeyMatch, await.
    destruct (deleteAllByKeyMatch_loop_sound fuel pageKey [] None w) as [Hobj Hks].
    destruct (deleteAllByKeyMatch_loop srv fuel pageKey [] None w) as [[ks|e|] w1];
      simpl in *; [|by rewrite Hobj..].
    destruct allowCacheKeys as [|a allow]; [done|]. cbn [nonempty].
    set (kept := filter _ ks).
    destruct (deleteObjects_lookup_keys srv kept w1 k) as [Hsame|[Hin Hnone]].
    - rewrite Hsame, Hobj. done.
    - intros _. apply list_elem_of_filter in Hin as [Hmatch Hin].
      apply Is_true_true, some_allowKey_matches_true in Hmatch.
      destruct (Hks ks eq_refl k Hin) as [Hnil|(Hl & _ & _)]; [set_solver|].
      split; [by apply listed_under_startsWith in Hl|]. done. }
  split; [exact Honly|]. split.
  - intros fuel k Hnone.
    destruct (decide (objects (snd (deleteAllByKeyMatch srv fuel pageKey ctx allowCacheKeys w)) !! k
                      = objects w !! k)) as [Heq|Hneq]; [exact Heq|].
    destruct (Honly fuel k Hneq) as (_ & (a & Ha & Hm) & _).
    rewrite (Hnone a Ha) in Hm. done.
  - intros Hquiet.
    exists (S (length (pending (objects w) None (Some (pageKey +:+ "/")) (Some "/")))).
    intros fuel Hle. unfold deleteAllByKeyMatch, await.
    destruct (deleteAllByKeyMatch_loop_returns fuel pageKey [] None w Hquiet) as [ks Hks]; [lia|].
    destruct (deleteAllByKeyMatch_loop srv fuel pageKey [] None w) as [[ks'|e|] w1];
      simpl in *; try done.
    apply deleteObjects_returns.
Qed.

End DeleteByPath.

(** ** The second class: invalidation by tag *)

Section InvalidateByTag.
Import S3 S3CacheTagging.
Variable srv : Service.

Lemma getObjectTagging_run (k : string) (w : World) :
  getObjectTagging srv k w
  = (match fault srv (log w) (GetObjectTagging k) with
     | Some e => Thrown e
     | None =>
         match objects w !! k with
         | Some o => Returned {| out_TagSet := Some (TagSet o) |}
         | None => Thrown NoSuchKey
         end
     end,
     {| objects := objects w; log := log w ++ [GetObjectTagging k] |}).
Proof.
  unfold getObjectTagging, send. destruct (fault srv (log w) _); [done|].
  by destruct (objects w !! k).
Qed.

Lemma revalidateTag_step_settles m tag allowCacheKeys c o :
  settles_to_kept m tag allowCacheKeys c ->
  settles_to_kept m tag allowCacheKeys (revalidateTag_step srv tag allowCacheKeys c o).
Proof.
  intros Hc w Hw. destruct (Hc w Hw) as (res & w1 & Hrun & Hobj & Hkept).
  unfold revalidateTag_step, await at 1. rewrite Hrun.
  destruct (Key o) as [key|]; [|by exists res, w1].
  destruct (negb (Js.truthy key) || _) eqn:Hskip; [by exists res, w1|].
  apply orb_false_iff in Hskip as [_ Hfilter].
  unfold await, settle. rewrite getObjectTagging_run.
  destruct (fault srv (log w1) _) as [e|].
  { eexists _, _. split; [reflexivity|]. split; [done|]. done. }
  destruct (objects w1 !! key) as [obj|] eqn:Hlookup.
  2:{ eexists _, _. split; [reflexivity|]. split; [done|]. done. }
  simpl. destruct (Js.includes _ tag) eqn:Htag.
  - eexists _, _. split; [reflexivity|]. split; [done|].
    intros ks Hks k Hk. destruct res as [e|ks0]; [done|].
    injection Hks as <-. apply elem_of_app in Hk as [Hk|Hk]; [by apply (Hkept ks0)|].
    apply list_elem_of_singleton in Hk as ->. split; [done|].
    exists obj. rewrite <- Hobj. done.
  - eexists _, _. split; [reflexivity|]. split; [done|]. done.
Qed.

Lemma revalidateTag_fold_settles m tag allowCacheKeys contents c :
  settles_to_kept m tag allowCacheKeys c ->
  settles_to_kept m tag allowCacheKeys
    (fold_left (revalidateTag_step srv tag allowCacheKeys) contents c).
Proof.
  revert c. induction contents as [|o contents IH]; intros c Hc; [done|].
  simpl. apply IH. by apply revalidateTag_step_settles.
Qed.

Lemma revalidateTag_page_sound tag allowCacheKeys contents w :
  objects (snd (revalidateTag_page srv tag allowCacheKeys contents w)) = objects w
  /\ fst (revalidateTag_page srv tag allowCacheKeys contents w) <> OutOfFuel
  /\ forall ks, fst (revalidateTag_page srv tag allowCacheKeys contents w) = Returned ks ->
       forall k, k ∈ ks -> kept_by_scan (objects w) tag allowCacheKeys k.
Proof.
  unfold revalidateTag_page, await.
  destruct (revalidateTag_fold_settles (objects w) tag allowCacheKeys contents (resolve (inr [])))
    with (w := w) as (res & w1 & -> & Hobj & Hkept); [|done|].
  { intros w0 Hw0. exists (inr []), w0. split; [done|]. split; [done|].
    intros ks [= <-] k Hk. set_solver. }
  destruct res as [e|ks]; simpl; [done|].
  split; [done|]. split; [done|]. intros ks' [= <-]. by apply Hkept.
Qed.

Lemma revalidateTag_loop_sound (fuel : nat) (tag : string) (allowCacheKeys acc : list string)
    (token : option string) (w : World) :
  objects (snd (revalidateTag_loop srv fuel tag allowCacheKeys acc token w)) = objects w
  /\ forall ks, fst (revalidateTag_loop srv fuel tag allowCacheKeys acc token w) = Returned ks ->
       forall k, k ∈ ks -> k ∈ acc \/ kept_by_scan (objects w) tag allowCacheKeys k.
Proof.
  revert acc token w. induction fuel as [|fuel IH]; intros acc token w; [done|].
  cbn [revalidateTag_loop]. unfold await. rewrite listObjectsV2_run.
  destruct (fault srv (log w) _) as [e|]; [done|].
  set (page := list_page _ _ _ _ _).
  set (w1 := {| objects := objects w; log := _ |}).
  assert (objects w1 = objects w) as Hw1 by done.
  clearbody page w1.
  destruct (revalidateTag_page_sound tag allowCacheKeys (default [] (Contents page)) w1)
    as (Hobj & _ & Hkept).
  rewrite Hw1 in Hobj, Hkept.
  destruct (revalidateTag_page srv tag allowCacheKeys _ w1) as [[found|e|] w2];
    simpl in *; [|done..].
  assert (forall k, k ∈ acc ++ found -> k ∈ acc \/ kept_by_scan (objects w) tag allowCacheKeys k)
    as Hpage.
  { intros k [Hk|Hk]%elem_of_app; [by left | right]. by apply (Hkept found). }
  destruct (more (NextContinuationToken page)).
  - destruct (IH (acc ++ found) (NextContinuationToken page) w2) as [Hobj2 Hks].
    split; [by rewrite Hobj2|].
    intros ks Hret k Hk. destruct (Hks ks Hret k Hk) as [Hacc|Hnew]; [by apply Hpage|].
    right. by rewrite <- Hobj.
  - split; [done|]. intros ks [= <-] k Hk. by apply Hpage.
Qed.

(** What [revalidateTag] removes: objects that carry the tag and on whose
    key the filter test fails. With a non-empty filter, the objects whose
    key, without its ending, ends with an entry of the filter are the ones
    that stay. *)
Lemma revalidateTag_removes (fuel : nat) (tag : string) (ctx : option CacheContext)
    (allowCacheKeys : list string) (w : World) (k : string) :
  objects (snd (revalidateTag srv fuel tag ctx allowCacheKeys w)) !! k <> objects w !! k ->
  carries_tag (objects w) tag k
  /\ nonempty allowCacheKeys && some_allowKey_matches allowCacheKeys k = false
  /\ objects (snd (revalidateTag srv fuel tag ctx allowCacheKeys w)) !! k = None.
Proof.
  unfold revalidateTag, await.
  destruct (revalidateTag_loop_sound fuel tag allowCacheKeys [] None w) as [Hobj Hks].
  destruct (revalidateTag_loop srv fuel tag allowCacheKeys [] None w) as [[ks|e|] w1];
    simpl in *; [|by rewrite Hobj..].
  destruct (deleteObjects_lookup_keys srv ks w1 k) as [Hsame|[Hin Hnone]].
  - rewrite Hsame, Hobj. done.
  - intros _. destruct (Hks ks eq_refl k Hin) as [Hnil|[Hfilter Htag]]; [set_solver|]. done.
Qed.

End InvalidateByTag.

(** ** Runs on the sample bucket *)

Section Samples.
Import S3 S3CacheTagging.

(** C1. On the two variants [/blog/a] and [/blog/b], both tagged [t],
    [revalidateTag] of [t] with the filter [a] removes [/blog/b.json] and
    keeps [/blog/a.json]: the tagging of [/blog/a.json] is not even read.
    The specification has [/blog/a.json] removed and [/blog/b.json]
    untouched. *)
Theorem revalidateTag_filter_inverted :
  let run := revalidateTag quiet 2 "t" None ["a"] blog_bucket in
  fst run = Returned tt
  /\ objects (snd run) !! "/blog/a.json" = objects blog_bucket !! "/blog/a.json"
  /\ is_Some (objects blog_bucket !! "/blog/b.json")
  /\ objects (snd run) !! "/blog/b.json" = None
  /\ log (snd run)
     = [ListObjectsV2 None None None; GetObjectTagging "/blog/b.json";
        GetObjectTagging "/news/c.json"; DeleteObjects ["/blog/b.json"]].
Proof. vm_compute. repeat split; try reflexivity. by eexists. Qed.

(** With a non-empty filter, the objects whose key, without its ending,
    ends with an entry of the filter are never removed by [revalidateTag]. *)
Lemma revalidateTag_spares_filter (srv : Service) (fuel : nat) (tag : string)
    (ctx : option CacheContext) (allowCacheKeys : list string) (w : World) (k : string) :
  allowCacheKeys <> [] ->
  some_allowKey_matches allowCacheKeys k = true ->
  objects (snd (revalidateTag srv fuel tag ctx allowCacheKeys w)) !! k = objects w !! k.
Proof.
  intros Hne Hmatch.
  destruct (decide (objects (snd (revalidateTag srv fuel tag ctx allowCacheKeys w)) !! k
                    = objects w !! k)) as [Heq|Hneq]; [exact Heq|].
  destruct (revalidateTag_removes srv fuel tag ctx allowCacheKeys w k Hneq) as (_ & Hfilter & _).
  rewrite Hmatch in Hfilter. by destruct allowCacheKeys.
Qed.

Lemma deleteAllByKeyMatch_filtered_witness :
  objects (snd (deleteAllByKeyMatch quiet 2 "/blog" None ["a"] blog_bucket)) !! "/blog/b.json"
  = objects blog_bucket !! "/blog/b.json"
  /\ exists n, forall fuel, n <= fuel ->
       fst (deleteAllByKeyMatch quiet fuel "/blog" None ["a"] blog_bucket) = Returned tt.
Proof.
  destruct (deleteAllByKeyMatch_filtered quiet "/blog" None ["a"] blog_bucket) as (_ & Hkeep & Hret);
    [discriminate|].
  split.
  - apply Hkeep. intros allowKey Hin. apply list_elem_of_singleton in Hin. subst allowKey.
    reflexivity.
  - apply Hret. intros lg tok. reflexivity.
Defined.

(** The filter [a] on the path [/blog]: [/blog/a.json] goes, its sibling
    stays. *)
Example deleteAllByKeyMatch_filtered_run :
  let run := deleteAllByKeyMatch quiet 2 "/blog" None ["a"] blog_bucket in
  fst run = Returned tt
  /\ objects (snd run) !! "/blog/a.json" = None
  /\ objects (snd run) !! "/blog/b.json" = objects blog_bucket !! "/blog/b.json"
  /\ log (snd run)
     = [ListObjectsV2 None (Some "/blog/") (Some "/"); DeleteObjects ["/blog/a.json"]].
Proof. vm_compute. repeat split; reflexivity. Qed.

End Samples.

Lemma get_not_found_is_null_witness :
  fst (S3CacheTagging.get flaky no_codec "/gone" "k" bodiless_bucket) = Returned None
  /\ fst (S3CacheTagging.get flaky no_codec "/down" "k" bodiless_bucket) = Thrown AccessDenied
  /\ fst (S3CacheTagging.get flaky no_codec "/empty" "k" bodiless_bucket) = Returned None.
Proof.
  split; [|split].
  - destruct (get_not_found_is_null flaky no_codec "/gone" "k" bodiless_bucket)
      as (_ & _ & H & _ & _).
    apply (H S3.NoSuchKey); [reflexivity|].
    apply (bool_decide_unpack _). vm_compute. exact I.
  - destruct (get_not_found_is_null flaky no_codec "/down" "k" bodiless_bucket)
      as (_ & _ & _ & H & _).
    apply (H AccessDenied); [reflexivity|].
    apply (bool_decide_unpack _). vm_compute. exact I.
  - destruct (get_not_found_is_null flaky no_codec "/empty" "k" bodiless_bucket)
      as (_ & _ & _ & _ & H).
    apply (H {| S3.out_Body := None; S3.out_Metadata := Some ∅ |}); reflexivity.
Defined.

(** ** The first class: path-form tags *)

Section PathForm.
Import S3 S3CacheMetadata.
Variable srv : Service.
Variable json : JsonCodec.
Variable NEXT_CACHE_IMPLICIT_TAG_ID : string.
Variable NEXT_CACHE_TAGS_HEADER : string.

Lemma chars_app (a b : string) : Js.chars (a +:+ b) = Js.chars a ++ Js.chars b.
Proof. unfold Js.chars. induction a as [|c a IH]; simpl; [done|]. by rewrite IH. Qed.

Lemma chars_length (s : string) : length (Js.chars s) = String.length s.
Proof. unfold Js.chars. induction s as [|c s IH]; simpl; [done|]. by rewrite IH. Qed.

Lemma startsWith_app (p rest : string) : Js.startsWith (p +:+ rest) p = true.
Proof.
  unfold Js.startsWith. apply bool_decide_eq_true_2.
  rewrite chars_app. by apply prefix_app_r.
Qed.

Lemma slice_app (p rest : string) : Js.slice (p +:+ rest) (String.length p) = rest.
Proof.
  unfold Js.slice, Js.of_chars. rewrite chars_app, <- chars_length, drop_app_length.
  apply string_of_list_ascii_of_string.
Qed.

Lemma only_sends_resolve {A} P (a : A) : only_sends P (resolve a).
Proof. intros w. exists []. by rewrite app_nil_r. Qed.

Lemma only_sends_out_of_fuel {A} P : only_sends P (@out_of_fuel World A).
Proof. intros w. exists []. by rewrite app_nil_r. Qed.

Lemma only_sends_send {A} (P : Request -> Prop) req
    (serve : gmap string Object -> Outcome A * gmap string Object) :
  P req -> only_sends P (send srv req serve).
Proof.
  intros HP w. exists [req]. split; [apply send_log|]. by constructor.
Qed.

Lemma only_sends_await {A B} P (c : Async World A) (k : A -> Async World B) :
  only_sends P c -> (forall a, only_sends P (k a)) -> only_sends P (await c k).
Proof.
  intros Hc Hk w. unfold await. destruct (Hc w) as (e1 & Hlog1 & HP1).
  destruct (c w) as [[a|e|] w1]; simpl in *; [|by exists e1..].
  destruct (Hk a w1) as (e2 & Hlog2 & HP2).
  exists (e1 ++ e2). split; [by rewrite Hlog2, Hlog1, app_assoc|].
  by apply Forall_app.
Qed.





End PathForm.


Example revalidateTag_tagging_path_form_run :
  let run := S3CacheTagging.revalidateTag quiet 2 ("_N_T_" +:+ "/blog") None [] blog_bucket in
  fst run = Returned tt
  /\ S3.objects (snd run) = S3.objects blog_bucket
  /\ S3.log (snd run)
     = [S3.ListObjectsV2 None None None; S3.GetObjectTagging "/blog/a.json";
        S3.GetObjectTagging "/blog/b.json"; S3.GetObjectTagging "/news/c.json"].
Proof.
  intros run. split; [by vm_compute|]. split; [|by vm_compute].
  apply (bool_decide_eq_true_1 _). by vm_compute.
Qed.

(** ** The second class: writing and reading back *)

Section RoundTrip.
Import S3 S3CacheTagging.
Variable srv : Service.
Variable json : JsonCodec.
Variable NEXT_CACHE_TAGS_HEADER : string.

Lemma putObject_run (i : PutObjectInput) (w : World) :
  putObject srv i w
  = match fault srv (log w) (PutObject i) with
    | Some e => (Thrown e, {| objects := objects w; log := log w ++ [PutObject i] |})
    | None => (Returned tt, {| objects := <[put_Key i := object_of_put i]> (objects w);
                               log := log w ++ [PutObject i] |})
    end.
Proof. unfold putObject, send. by destruct (fault srv (log w) _). Qed.

Lemma getObject_run (k : string) (w : World) :
  getObject srv k w
  = (match fault srv (log w) (GetObject k) with
     | Some e => Thrown e
     | None =>
         match objects w !! k with
         | Some o => Returned {| out_Body := Body o; out_Metadata := Some (Metadata o) |}
         | None => Thrown NoSuchKey
         end
     end,
     {| objects := objects w; log := log w ++ [GetObject k] |}).
Proof.
  unfold getObject, send. destruct (fault srv (log w) _); [done|].
  by destruct (objects w !! k).
Qed.

Lemma string_app_assoc (a b c : string) : (a +:+ b) +:+ c = a +:+ (b +:+ c).
Proof.
  induction a as [|x a IH]; [done|].
  change (String x ((a +:+ b) +:+ c) = String x (a +:+ (b +:+ c))). by rewrite IH.
Qed.

Lemma issue_all_puts (inputs : list PutObjectInput) (w : World) :
  exists rs w',
    issue_all (map (putObject srv) inputs) w = (Returned rs, w')
    /\ log w' = log w ++ map PutObject inputs
    /\ forall l, first_rejection rs = inr l -> objects w' = after_puts (objects w) inputs.
Proof.
  revert w. induction inputs as [|i inputs IH]; intros w.
  - exists [], w. simpl. by rewrite app_nil_r.
  - cbn [map issue_all]. unfold await, settle. rewrite putObject_run.
    destruct (fault srv (log w) (PutObject i)) as [e|].
    + set (w1 := {| objects := objects w; log := _ |}).
      destruct (IH w1) as (rs & w2 & -> & Hlog & _).
      exists (inl e :: rs), w2. split; [done|].
      split; [by rewrite Hlog; simpl; rewrite <- app_assoc|]. done.
    + set (w1 := {| objects := <[put_Key i := _]> (objects w); log := _ |}).
      destruct (IH w1) as (rs & w2 & -> & Hlog & Hobj).
      exists (inr tt :: rs), w2. split; [done|].
      split; [by rewrite Hlog; simpl; rewrite <- app_assoc|].
      intros l. simpl. destruct (first_rejection rs) as [e|l'] eqn:Hfirst; [done|].
      intros _. by apply (Hobj l').
Qed.

Lemma Promise_all_puts (inputs : list PutObjectInput) (w w1 : World) (l : list unit) :
  Promise_all (map (putObject srv) inputs) w = (Returned l, w1) ->
  objects w1 = after_puts (objects w) inputs
  /\ log w1 = log w ++ map PutObject inputs.
Proof.
  unfold Promise_all, await.
  destruct (issue_all_puts inputs w) as (rs & w2 & -> & Hlog & Hobj).
  destruct (first_rejection rs) as [e|l'] eqn:Hfirst; [done|].
  intros [= _ <-]. split; [by apply (Hobj l') | done].
Qed.

(** C6. A PAGE entry written under the app router and read back, with
    nothing in between: when the write returns and the read is served,
    [get] returns what [JSON.parse] makes of the [JSON.stringify] of the
    entry; when that is an entry with the same [html] and [pageData], as
    it is for strings, the entry read is a PAGE with the [html] and the
    [pageData] that were written. The [.rsc] object holds [pageData] as it
    was given. *)
Theorem set_then_get (pageKey cacheKey : string) (data read : CacheEntry) (ctx : CacheContext)
    (html pageData : string) (hs hs' : option (gmap string string)) (w w1 : World) :
  value data = Some (PAGE html pageData hs) ->
  isAppRouter ctx = true ->
  JSON_parse json (JSON_stringify json data) = inr read ->
  value read = Some (PAGE html pageData hs') ->
  set srv json NEXT_CACHE_TAGS_HEADER pageKey cacheKey data ctx w = (Returned tt, w1) ->
  fault srv (log w1) (GetObject (pageKey +:+ "/" +:+ cacheKey +:+ ".json")) = None ->
  (exists d w2, get srv json pageKey cacheKey w1 = (Returned (Some d), w2)
                /\ objects w2 = objects w1
                /\ (kind <$> value d) = (kind <$> value data)
                /\ exists h, value d = Some (PAGE html pageData h))
  /\ (exists o, objects w1 !! ((pageKey +:+ "/" +:+ cacheKey) +:+ ".rsc") = Some o
                /\ Body o = Some pageData).
Proof.
  intros Hvalue Hrouter Hcodec Hread_value Hset Hread.
  unfold set in Hset. rewrite Hvalue, Hrouter in Hset.
  change ("." +:+ "html") with ".html" in Hset.
  change ("." +:+ "rsc") with ".rsc" in Hset.
  change ("." +:+ "json") with ".json" in Hset.
  set (k := pageKey +:+ "/" +:+ cacheKey) in *.
  cbn [app] in Hset.
  match type of Hset with
  | await (Promise_all [putObject srv ?i1; putObject srv ?i2; putObject srv ?i3]) _ _ = _ =>
      change (await (Promise_all (map (putObject srv) [i1; i2; i3])) (fun _ => resolve tt) w
              = (Returned tt, w1)) in Hset;
      set (ihtml := i1) in *; set (irsc := i2) in *; set (ijson := i3) in *
  end.
  unfold await in Hset.
  destruct (Promise_all _ w) as [[l|e|] w'] eqn:Hall; try done.
  injection Hset as ->.
  apply Promise_all_puts in Hall as [Hobj _].
  unfold after_puts in Hobj. cbn [foldl] in Hobj.
  assert (pageKey +:+ "/" +:+ cacheKey +:+ ".json" = k +:+ ".json") as Hkey.
  { unfold k. by rewrite !string_app_assoc. }
  split.
  - rewrite get_by_read, getObject_run, Hread, Hkey, Hobj.
    change (put_Key ijson) with (k +:+ ".json"). rewrite lookup_insert_eq.
    cbn [object_of_put Body out_Body put_Body ijson]. rewrite Hcodec.
    exists read. eexists. split; [reflexivity|]. split; [reflexivity|].
    rewrite Hread_value, Hvalue. split; [reflexivity | by exists hs'].
  - rewrite Hobj. change (put_Key ijson) with (k +:+ ".json").
    rewrite lookup_insert_ne by (intros H%String.app_inj; discriminate H).
    change (put_Key irsc) with (k +:+ ".rsc"). rewrite lookup_insert_eq.
    eexists. split; [reflexivity|]. reflexivity.
Qed.

End RoundTrip.

Lemma set_then_get_witness :
  let w1 := snd (S3CacheTagging.set quiet sample_codec "x-next-cache-tags" "/blog" "k"
                   sample_page (mkCtx true "") empty_bucket) in
  (exists d w2, S3CacheTagging.get quiet sample_codec "/blog" "k" w1 = (Returned (Some d), w2)
                /\ S3.objects w2 = S3.objects w1
                /\ (kind <$> value d) = (kind <$> value sample_page)
                /\ exists h, value d = Some (PAGE "<p>hi</p>" "0:[]" h))
  /\ (exists o, S3.objects w1 !! (("/blog" +:+ "/" +:+ "k") +:+ ".rsc") = Some o
                /\ S3.Body o = Some "0:[]").
Proof.
  intros w1.
  apply (set_then_get quiet sample_codec "x-next-cache-tags" "/blog" "k" sample_page sample_page
           (mkCtx true "") "<p>hi</p>" "0:[]"
           (Some {[ "x-next-cache-tags" := "t1,t2" ]}) (Some {[ "x-next-cache-tags" := "t1,t2" ]})
           empty_bucket w1); reflexivity.
Defined.

(** What the write of the sample entry sends: the three objects, each with
    the tagging built from the header of the tags. *)
Example set_sample_page_run :
  let run := S3CacheTagging.set quiet sample_codec "x-next-cache-tags" "/blog" "k"
               sample_page (mkCtx true "") empty_bucket in
  fst run = Returned tt
  /\ map (fun req => match req with
                     | S3.PutObject i => (S3.put_Key i, S3.put_Body i, S3.put_Tagging i)
                     | _ => ("", "", None)
                     end) (S3.log (snd run))
     = [("/blog/k.html", "<p>hi</p>", Some "revalidateTag0=t1&revalidateTag1=t2");
        ("/blog/k.rsc", "0:[]", Some "revalidateTag0=t1&revalidateTag1=t2");
        ("/blog/k.json", "sample_page", Some "revalidateTag0=t1&revalidateTag1=t2")].
Proof. vm_compute. split; reflexivity. Qed.

(** 2001 keys go in three batch deletes; the two full ones are rejected,
    the third is sent all the same and the call returns. *)
Example deleteObjects_partial_failure :
  let run := S3CacheTagging.deleteObjects no_full_chunks (numbered_keys 2001) empty_bucket in
  fst run = Returned tt
  /\ map (fun req => match req with
                     | S3.DeleteObjects ks => length ks
                     | _ => 0
                     end) (S3.log (snd run)) = [1000; 1000; 1].
Proof. vm_compute. split; reflexivity. Qed.

(** Invalidation by tag when every batch delete is rejected: the call
    returns and the bucket is as it was. *)
Example revalidateTag_best_effort :
  let run := S3CacheTagging.revalidateTag no_deletes 2 "t" None [] blog_bucket in
  fst run = Returned tt
  /\ S3.objects (snd run) = S3.objects blog_bucket
  /\ S3.log (snd run)
     = [S3.ListObjectsV2 None None None; S3.GetObjectTagging "/blog/a.json";
        S3.GetObjectTagging "/blog/b.json"; S3.GetObjectTagging "/news/c.json";
        S3.DeleteObjects ["/blog/a.json"; "/blog/b.json"]].
Proof.
  intros run. split; [by vm_compute|]. split; [|by vm_compute].
  apply (bool_decide_eq_true_1 _). by vm_compute.
Qed.

(** The two classes read in the same way. *)
Lemma get_same_in_both_classes (srv : S3.Service) (json : JsonCodec) (pageKey cacheKey : string) :
  S3CacheMetadata.get srv json pageKey cacheKey = S3CacheTagging.get srv json pageKey cacheKey.
Proof. reflexivity. Qed.

(** The filter test removes the endings [.json] and [.html] only: under the
    filter [a], the [.rsc] object of the variant [a] is not among the keys
    deleted. *)
(** C5. The filter test takes [.json] and [.html] off the key, not [.rsc],
    although [rsc] is one of the extensions the call selects. On a bucket
    with the three objects of the variants [a] and [c] of [/blog], the
    filter [c] deletes [/blog/a.rsc], an object of the variant [a] that the
    filter does not name (its key ends with [c] as it stands), and leaves
    the rest of [a]; the filter [a] deletes the [.json] and [.html] objects
    of [a] and leaves [/blog/a.rsc] behind. The claim has the extension
    taken off before the test: [/blog/a.rsc] would stay under the filter
    [c]. *)
Theorem deleteAllByKeyMatch_filter_rsc :
  let by_c := S3CacheTagging.deleteAllByKeyMatch quiet 2 "/blog" None ["c"] variants_bucket in
  let by_a := S3CacheTagging.deleteAllByKeyMatch quiet 2 "/blog" None ["a"] variants_bucket in
  (fst by_c = Returned tt
   /\ S3.log (snd by_c)
      = [S3.ListObjectsV2 None (Some "/blog/") (Some "/");
         S3.DeleteObjects ["/blog/a.rsc"; "/blog/c.html"; "/blog/c.json"; "/blog/c.rsc"]]
   /\ S3.objects (snd by_c) !! "/blog/a.rsc" = None
   /\ is_Some (S3.objects variants_bucket !! "/blog/a.rsc")
   /\ S3.objects (snd by_c) !! "/blog/a.json" = S3.objects variants_bucket !! "/blog/a.json"
   /\ S3.objects (snd by_c) !! "/blog/a.html" = S3.objects variants_bucket !! "/blog/a.html")
  /\ (fst by_a = Returned tt
      /\ S3.log (snd by_a)
         = [S3.ListObjectsV2 None (Some "/blog/") (Some "/");
            S3.DeleteObjects ["/blog/a.html"; "/blog/a.json"]]
      /\ S3.objects (snd by_a) !! "/blog/a.rsc" = S3.objects variants_bucket !! "/blog/a.rsc").
Proof.
  cbv zeta. split.
  - split; [by vm_compute|]. split; [by vm_compute|]. split; [by vm_compute|].
    split; [vm_compute; by eexists|]. split; by vm_compute.
  - split; [by vm_compute|]. split; by vm_compute.
Qed.

Example deleteAllByKeyMatch_filter_keeps_rsc :
  let w := {| S3.objects := <["/blog/a.json" := tagged (Some "{}") "t"]>
                              (<["/blog/a.rsc" := tagged (Some "0:[]") "t"]> ∅);
              S3.log := [] |} in
  S3.log (snd (S3CacheTagging.deleteAllByKeyMatch quiet 2 "/blog" None ["a"] w))
  = [S3.ListObjectsV2 None (Some "/blog/") (Some "/"); S3.DeleteObjects ["/blog/a.json"]].
Proof. by vm_compute. Qed.

(** ** The second class: the scan returns *)

Section ScanReturns.
Import S3 S3CacheTagging.
Variable srv : Service.
Hypothesis listings_served : forall lg tok, fault srv lg (ListObjectsV2 tok None None) = None.
Hypothesis taggings_served : forall lg k, fault srv lg (GetObjectTagging k) = None.

Lemma revalidateTag_step_returns m tag allowCacheKeys c o :
  (forall k, Key o = Some k -> is_Some (m !! k)) ->
  settles_to_keys m c ->
  settles_to_keys m (revalidateTag_step srv tag allowCacheKeys c o).
Proof.
  intros Hthere Hc w Hw. destruct (Hc w Hw) as (ks & w1 & Hrun & Hobj).
  unfold revalidateTag_step, await at 1. rewrite Hrun.
  destruct (Key o) as [key|]; [|by exists ks, w1].
  destruct (negb (Js.truthy key) || _); [by exists ks, w1|].
  unfold await, settle. rewrite getObjectTagging_run, taggings_served.
  destruct (Hthere key eq_refl) as [obj Hobj']. rewrite Hobj, Hobj'. simpl.
  destruct (Js.includes _ tag); by eexists _, _.
Qed.

Lemma revalidateTag_fold_returns m tag allowCacheKeys contents c :
  (forall o k, o ∈ contents -> Key o = Some k -> is_Some (m !! k)) ->
  settles_to_keys m c ->
  settles_to_keys m (fold_left (revalidateTag_step srv tag allowCacheKeys) contents c).
Proof.
  revert c. induction contents as [|o contents IH]; intros c Hthere Hc; [done|].
  simpl. apply IH.
  - intros o' k Hin. apply Hthere. by right.
  - apply revalidateTag_step_returns; [|done]. intros k. apply Hthere. by left.
Qed.

Lemma revalidateTag_loop_returns (fuel : nat) (tag : string) (allowCacheKeys acc : list string)
    (token : option string) (w : World) :
  length (pending (objects w) token None None) < fuel ->
  exists ks, fst (revalidateTag_loop srv fuel tag allowCacheKeys acc token w) = Returned ks.
Proof.
  revert acc token w. induction fuel as [|fuel IH]; intros acc token w Hlen; [lia|].
  cbn [revalidateTag_loop]. unfold await. rewrite listObjectsV2_run, listings_served.
  set (page := list_page _ _ _ _ _).
  set (w1 := {| objects := objects w; log := _ |}).
  unfold revalidateTag_page, await.
  destruct (revalidateTag_fold_returns (objects w) tag allowCacheKeys (default [] (Contents page))
              (resolve (inr []))) with (w := w1) as (found & w2 & -> & Hobj); [| |done|].
  { intros o k Hin Hkey. apply list_page_contents in Hin as (k' & Hkey' & Hin).
    rewrite Hkey in Hkey'. injection Hkey' as <-. by apply pending_elem in Hin as (_ & _ & ?). }
  { intros w0 Hw0. by exists [], w0. }
  assert (forall t', NextContinuationToken page = Some t' ->
            length (pending (objects w) (Some t') None None)
            < length (pending (objects w) token None None)) as Hprogress
    by (intros t'; apply list_page_progress).
  clearbody page.
  destruct (NextContinuationToken page) as [t'|] eqn:Hnext; simpl; [|by eexists].
  destruct (Js.truthy t'); [|by eexists].
  apply IH. rewrite Hobj. specialize (Hprogress t' eq_refl). lia.
Qed.

(** When the service serves the listings and the reads of taggings,
    whatever it does with the batch deletes, [revalidateTag] returns as
    soon as its fuel exceeds the number of keys of the bucket. *)
Lemma revalidateTag_returns (tag : string) (ctx : option CacheContext)
    (allowCacheKeys : list string) (w : World) :
  exists n, forall fuel, n <= fuel ->
    fst (revalidateTag srv fuel tag ctx allowCacheKeys w) = Returned tt.
Proof.
  exists (S (length (pending (objects w) None None None))). intros fuel Hle.
  unfold revalidateTag, await.
  destruct (revalidateTag_loop_returns fuel tag allowCacheKeys [] None w) as [ks Hks]; [lia|].
  destruct (revalidateTag_loop srv fuel tag allowCacheKeys [] None w) as [[ks'|e|] w1];
    simpl in *; try done.
  apply deleteObjects_returns.
Qed.

End ScanReturns.

(** ** Runs of the first class *)

(** An entry of [/blog] with the tags [t] and [u] in its metadata: its
    [.html] object is read first, and both objects are deleted; the read of
    the [.json] object, which was listed with it, is then rejected as not
    found, and [revalidateTag] throws that. *)
Example revalidateTag_metadata_run :
  let o := {| S3.Body := Some "{}"; S3.ContentType := None; S3.CacheControl := None;
              S3.Metadata := {[ "tags" := "t,u" ]}; S3.TagSet := [] |} in
  let w := {| S3.objects := <["/blog/a.json" := o]> (<["/blog/a.html" := o]> ∅);
              S3.log := [] |} in
  let run := S3CacheMetadata.revalidateTag quiet no_codec "_N_T_" "x-next-cache-tags" 2 "u" w in
  fst run = Thrown S3.NoSuchKey
  /\ S3.log (snd run)
     = [S3.ListObjectsV2 None None None;
        S3.GetObject "/blog/a.html";
        S3.DeleteObject "/blog/a.json"; S3.DeleteObject "/blog/a.html";
        S3.GetObject "/blog/a.json"].
Proof. by vm_compute. Qed.

(** The path-form tag of [/blog] on the sample bucket. *)
Example revalidateTag_path_form_run :
  let run := S3CacheMetadata.revalidateTag quiet no_codec "_N_T_" "x-next-cache-tags" 2
               "_N_T_/blog" blog_bucket in
  fst run = Returned tt
  /\ S3.log (snd run)
     = [S3.ListObjectsV2 None (Some "/blog/") (Some "/");
        S3.DeleteObject "/blog/a.json"; S3.DeleteObject "/blog/b.json"].
Proof. by vm_compute. Qed.

(** The filter test is [endsWith]: under the filter [a], the variant [ba]
    goes with the variant [a]. *)
Example deleteAllByKeyMatch_filter_is_a_suffix_test :
  let w := {| S3.objects := <["/blog/a.json" := tagged (Some "{}") "t"]>
                              (<["/blog/ba.json" := tagged (Some "{}") "t"]>
                                 (<["/blog/b.json" := tagged (Some "{}") "t"]> ∅));
              S3.log := [] |} in
  S3.log (snd (S3CacheTagging.deleteAllByKeyMatch quiet 2 "/blog" None ["a"] w))
  = [S3.ListObjectsV2 None (Some "/blog/") (Some "/");
     S3.DeleteObjects ["/blog/a.json"; "/blog/ba.json"]].
Proof. by vm_compute. Qed.

(** * Further properties of the cache handler *)

Section KeyBuilderMore.
Import CacheHandler.

Lemma buildCacheKey_step_has_value data prev curr :
  has_value data curr = true -> Js.truthy (buildCacheKey_step data prev curr) = true.
Proof.
  unfold has_value, buildCacheKey_step. destruct (Js.get data curr) as [v|]; [|done].
  intros ->. destruct (Js.truthy prev); [done|].
  change ("" +:+ curr +:+ "=" +:+ v) with (curr +:+ "=" +:+ v). apply truthy_app_eq.
Qed.

Lemma buildCacheKey_step_no_value data prev curr :
  has_value data curr = false -> buildCacheKey_step data prev curr = prev.
Proof.
  unfold has_value, buildCacheKey_step. destruct (Js.get data curr) as [v|]; [|done].
  by intros ->.
Qed.

(** The accumulator of the [reduce] is non-empty exactly when it started
    non-empty or met a name with a value. *)
Lemma buildCacheKey_fold_truthy data keys acc :
  Js.truthy (fold_left (buildCacheKey_step data) keys acc)
  = Js.truthy acc || existsb (has_value data) keys.
Proof.
  revert acc. induction keys as [|k keys IH]; intros acc; simpl.
  - by rewrite orb_false_r.
  - rewrite IH. destruct (has_value data k) eqn:Hk.
    + rewrite (buildCacheKey_step_has_value _ _ _ Hk). simpl. by rewrite orb_true_r.
    + by rewrite (buildCacheKey_step_no_value _ _ _ Hk).
Qed.

Lemma buildCacheKey_fold_no_value data keys acc :
  existsb (has_value data) keys = false ->
  fold_left (buildCacheKey_step data) keys acc = acc.
Proof.
  revert acc. induction keys as [|k keys IH]; intros acc; simpl; [done|].
  intros [Hk Hkeys]%orb_false_iff. rewrite (buildCacheKey_step_no_value _ _ _ Hk). by apply IH.
Qed.

Lemma append_paren_nonempty (prefix body : string) : prefix +:+ "(" +:+ body +:+ ")" <> "".
Proof. destruct prefix; discriminate. Qed.

Lemma buildCacheKey_no_value (keys : list string) (data : gmap string string)
    (prefix : string) :
  existsb (has_value data) keys = false -> buildCacheKey keys data prefix = "".
Proof.
  intros Hnone. unfold buildCacheKey. case_bool_decide; [done|].
  by rewrite (buildCacheKey_fold_no_value _ _ _ Hnone).
Qed.

(** Names without a value at the end of the allow-list change nothing. *)
Lemma buildCacheKey_app_no_value (before after : list string) (data : gmap string string)
    (prefix : string) :
  existsb (has_value data) after = false ->
  buildCacheKey (before ++ after) data prefix = buildCacheKey before data prefix.
Proof.
  intros Hnone. destruct before as [|k before].
  - cbn [app]. rewrite (buildCacheKey_no_value after data prefix Hnone). done.
  - unfold buildCacheKey. rewrite !bool_decide_eq_false_2 by done.
    by rewrite fold_left_app, (buildCacheKey_fold_no_value _ _ _ Hnone).
Qed.

(** X1. The segment is empty exactly when [data[name]] is falsy for every
    name of the allow-list: the name is an own property with the empty
    string, or it is neither an own property nor a member of
    [Object.prototype]. *)
Theorem buildCacheKey_empty_iff (keys : list string) (data : gmap string string)
    (prefix : string) :
  buildCacheKey keys data prefix = "" <-> existsb (has_value data) keys = false.
Proof.
  unfold buildCacheKey. case_bool_decide as Hlen.
  - destruct keys; [done | discriminate Hlen].
  - pose proof (buildCacheKey_fold_truthy data keys "") as Htruthy. simpl in Htruthy.
    rewrite Htruthy. destruct (existsb (has_value data) keys); simpl; [|done].
    split; [|done]. intros H. by apply append_paren_nonempty in H.
Qed.

Lemma fold_left_filter_has_value data keys acc :
  fold_left (buildCacheKey_step data) (filter (fun k => Is_true (has_value data k)) keys) acc
  = fold_left (buildCacheKey_step data) keys acc.
Proof.
  revert acc. induction keys as [|k keys IH]; intros acc; [done|].
  destruct (has_value data k) eqn:Hk.
  - rewrite filter_cons_True by (by rewrite Hk). simpl. apply IH.
  - rewrite filter_cons_False by (by rewrite Hk; intros []). simpl.
    rewrite (buildCacheKey_step_no_value _ _ _ Hk). apply IH.
Qed.

(** X2. The names of the allow-list for which [data[name]] is falsy are
    transparent: the segment is that of the allow-list without them. A
    name that [Object.prototype] has and the request leaves out is not one
    of them. *)
Theorem buildCacheKey_skips_names_without_value (keys : list string)
    (data : gmap string string) (prefix : string) :
  buildCacheKey keys data prefix
  = buildCacheKey (filter (fun k => Is_true (has_value data k)) keys) data prefix.
Proof.
  destruct (existsb (has_value data) keys) eqn:Hex.
  - unfold buildCacheKey. rewrite fold_left_filter_has_value.
    apply existsb_exists in Hex as (k & Hin & Hk).
    assert (k ∈ filter (fun k => Is_true (has_value data k)) keys) as Hin'.
    { apply list_elem_of_filter. split; [by rewrite Hk | by apply list_elem_of_In]. }
    rewrite !bool_decide_eq_false_2; [done| |].
    + intros Hlen. apply length_zero_iff_nil in Hlen. rewrite Hlen in Hin'. set_solver.
    + intros Hlen. apply length_zero_iff_nil in Hlen. subst keys. by destruct Hin.
  - rewrite (buildCacheKey_no_value keys data prefix Hex).
    symmetry. apply buildCacheKey_no_value.
    apply not_true_iff_false. intros (k & Hin & Hk)%existsb_exists.
    apply list_elem_of_In, list_elem_of_filter in Hin as [_ Hin].
    apply not_true_iff_false in Hex. apply Hex, existsb_exists.
    exists k. split; [by apply list_elem_of_In | done].
Qed.

(** X3. What the segment is when a name is an own property with a
    non-empty value and [data[name]] is falsy for every name after it: the
    segment holds that name with its value, and nothing of the names before
    it but a dash when [data[name]] was truthy for one of them (own or
    inherited). *)
Theorem buildCacheKey_last_value_only (before after : list string) (name value : string)
    (data : gmap string string) (prefix : string) :
  data !! name = Some value ->
  value <> "" ->
  existsb (has_value data) after = false ->
  buildCacheKey (before ++ name :: after) data prefix
  = prefix +:+ "("
    +:+ ((if existsb (has_value data) before then "-" else "") +:+ name +:+ "=" +:+ value)
    +:+ ")".
Proof.
  intros Hname Hvalue Hafter.
  assert (Js.truthy value = true) as Htruthy by (by destruct value).
  unfold buildCacheKey.
  rewrite bool_decide_eq_false_2 by (rewrite length_app; simpl; lia).
  rewrite fold_left_app. cbn [fold_left].
  rewrite (buildCacheKey_fold_no_value _ _ _ Hafter).
  rewrite (buildCacheKey_step_present _ _ _ _ Hname Htruthy).
  rewrite buildCacheKey_fold_truthy. simpl.
  destruct (existsb (has_value data) before); [reflexivity|].
  change ("" +:+ name +:+ "=" +:+ value) with (name +:+ "=" +:+ value).
  by rewrite truthy_app_eq.
Qed.

Lemma buildCacheKey_last_value_only_witness :
  buildCacheKey (["a"; "b"] ++ "c" :: ["d"])
    (<["a" := "1"]> (<["b" := "2"]> (<["c" := "3"]> ∅))) "cookie"
  = "cookie(-c=3)".
Proof.
  rewrite (buildCacheKey_last_value_only ["a"; "b"] ["d"] "c" "3"
             (<["a" := "1"]> (<["b" := "2"]> (<["c" := "3"]> ∅))) "cookie");
    [by vm_compute | reflexivity | discriminate | reflexivity].
Defined.

Lemma buildCacheKey_empty_iff_witness :
  buildCacheKey ["locale"] (<["session" := "abc"]> ∅) "cookie" = "".
Proof.
  apply (proj2 (buildCacheKey_empty_iff ["locale"] (<["session" := "abc"]> ∅) "cookie")).
  reflexivity.
Defined.

(** X4. Registering a cookie name for which the parsed cookies of a
    request give a falsy value (no cookie of that name or an empty one,
    and the name is no member of [Object.prototype]) leaves the cookie
    segment of that request as it was. *)
Theorem addCookie_absent (cookieParser_parse : string -> gmap string string) (cfg : Config)
    (h : RequestHeaders) (name : string) :
  has_value (cookieParser_parse (match cookie h with
                                  | Some c => if Js.truthy c then c else ""
                                  | None => ""
                                  end)) name = false ->
  buildCookiesCacheKey cookieParser_parse (addCookie cfg name) h
  = buildCookiesCacheKey cookieParser_parse cfg h.
Proof.
  intros Habsent. unfold buildCookiesCacheKey, addCookie. cbn [cacheCookies].
  apply buildCacheKey_app_no_value. cbn [existsb]. by rewrite Habsent.
Qed.

Lemma addCookie_absent_witness :
  let parse := fun _ : string => (<["locale" := "fr"]> ∅ : gmap string string) in
  let cfg := {| cacheCookies := ["locale"]; cacheQueries := []; enableDeviceSplit := false |} in
  let h := {| cookie := Some "locale=fr"; x_invoke_query := None; user_agent := "" |} in
  buildCookiesCacheKey parse (addCookie cfg "theme") h = buildCookiesCacheKey parse cfg h.
Proof.
  intros parse cfg h. apply (addCookie_absent parse cfg h "theme"). reflexivity.
Defined.

Lemma append_empty_r (s : string) : s +:+ "" = s.
Proof.
  induction s as [|a s IH]; [done|].
  change (String a (s +:+ "") = String a s). by rewrite IH.
Qed.

(** X5. The composite key is the key followed by the device label, the
    cookie segment and the query segment, in that order, each after a dash
    and each left out when it is empty. With an empty key it is these
    parts without the dash of the first. *)
Theorem getPageCacheKey_parts (this : Instance) (key : string) :
  let parts := dashed (default "" (device this))
               +:+ dashed (cookieCacheKey this) +:+ dashed (queryCacheKey this) in
  getPageCacheKey this key = if Js.truthy key then key +:+ parts else Js.slice parts 1.
Proof.
  unfold getPageCacheKey.
  assert (forall rest : string, Js.slice ("-" +:+ rest) 1 = rest) as Hslice
    by (intros rest; apply (slice_app "-" rest)).
  assert (forall rest : string, "" +:+ rest = rest) as Hempty by done.
  destruct (default "" (device this)) as [|d0 d]; destruct (cookieCacheKey this) as [|c0 c];
    destruct (queryCacheKey this) as [|q0 q]; destruct key as [|k0 k];
    cbv zeta; unfold dashed; cbn [Js.truthy];
    rewrite ?append_empty_r, ?string_app_assoc, ?Hempty, ?Hslice; reflexivity.
Qed.

(** A name of the allow-list that is a member of [Object.prototype] has a
    value in every request. *)
Example buildCacheKey_inherited_name :
  buildCacheKey ["toString"] ∅ "cookie" = "cookie(toString=function toString() { [native code] })".
Proof. by vm_compute. Qed.

End KeyBuilderMore.

(** * Further properties of the listings *)

Section SortedListing.
Import S3.

Lemma string_ltb_compare (a b : string) : String.ltb a b = true <-> String.compare a b = Lt.
Proof. unfold String.ltb. by destruct (String.compare a b). Qed.

Lemma string_leb_cases (a b : string) : String.leb a b = true <-> String.ltb a b = true \/ a = b.
Proof.
  unfold String.leb, String.ltb. destruct (String.compare a b) eqn:Hc.
  - apply String.compare_eq_iff in Hc. naive_solver.
  - naive_solver.
  - split; [done|]. intros [?| ->]; [done|]. by rewrite string_compare_refl in Hc.
Qed.

#[local] Instance key_le_trans : Transitive key_le.
Proof.
  intros a b c. unfold key_le. rewrite !Is_true_true, !string_leb_cases.
  intros [Hab| ->] [Hbc| ->]; eauto using string_ltb_trans.
Qed.

#[local] Instance key_le_total : Total key_le.
Proof.
  intros a b. unfold key_le. rewrite !Is_true_true. apply String.leb_total.
Qed.

Lemma sorted_keys_NoDup (m : gmap string Object) : NoDup (sorted_keys m).
Proof.
  unfold sorted_keys. rewrite merge_sort_Permutation. apply NoDup_fst_map_to_list.
Qed.

Lemma StronglySorted_strict {A} (R : relation A) (l : list A) :
  StronglySorted R l -> NoDup l -> StronglySorted (fun a b => R a b /\ a <> b) l.
Proof.
  induction 1 as [|a l Hl IH Hall]; intros Hnd; [constructor|].
  apply NoDup_cons in Hnd as [Hnotin Hnd]. constructor; [by apply IH|].
  rewrite Forall_forall in Hall |- *. intros x Hx. split; [by apply Hall|].
  intros ->. done.
Qed.

Lemma StronglySorted_filter {A} (R : relation A) (P : A -> Prop) `{!forall x, Decision (P x)}
    (l : list A) :
  StronglySorted R l -> StronglySorted R (filter P l).
Proof.
  induction 1 as [|a l Hl IH Hall]; [constructor|].
  rewrite filter_cons. case_decide; [|done].
  constructor; [done|]. rewrite Forall_forall in Hall |- *.
  intros x [_ Hx]%list_elem_of_filter. by apply Hall.
Qed.

(** The keys of a bucket are listed in strictly increasing order. *)
Lemma sorted_keys_increasing (m : gmap string Object) :
  StronglySorted (fun a b => String.ltb a b = true) (sorted_keys m).
Proof.
  pose proof (StronglySorted_strict key_le (sorted_keys m)
                (StronglySorted_merge_sort key_le _) (sorted_keys_NoDup m)) as Hs.
  induction Hs as [|a l Hl IH Hall]; [constructor|].
  constructor; [done|]. eapply Forall_impl; [exact Hall|].
  intros b [Hle Hne]. apply Is_true_true, string_leb_cases in Hle as [?|?]; done.
Qed.

Lemma pending_increasing (m : gmap string Object) (token P D : option string) :
  StronglySorted (fun a b => String.ltb a b = true) (pending m token P D).
Proof. unfold pending. apply StronglySorted_filter, sorted_keys_increasing. Qed.

Lemma string_ltb_asym (a b : string) : String.ltb a b = true -> String.ltb b a = false.
Proof.
  intros Hab. destruct (String.ltb b a) eqn:Hba; [|done].
  pose proof (string_ltb_trans _ _ _ Hab Hba) as H. by rewrite string_ltb_irrefl in H.
Qed.

Lemma filter_all {A} (P : A -> Prop) `{!forall x, Decision (P x)} (l : list A) :
  Forall P l -> filter P l = l.
Proof.
  induction 1 as [|x l Hx _ IH]; [done|]. by rewrite filter_cons_True, IH.
Qed.

Lemma filter_none {A} (P : A -> Prop) `{!forall x, Decision (P x)} (l : list A) :
  Forall (fun x => ~ P x) l -> filter P l = [].
Proof.
  induction 1 as [|x l Hx _ IH]; [done|]. by rewrite filter_cons_False, IH.
Qed.

(** In a strictly increasing list, the elements after [x] are those
    greater than [x]. *)
Lemma filter_greater_increasing (l1 l2 : list string) (x : string) :
  StronglySorted (fun a b => String.ltb a b = true) (l1 ++ x :: l2) ->
  filter (fun k => Is_true (String.ltb x k)) (l1 ++ x :: l2) = l2.
Proof.
  intros Hs. rewrite filter_app, filter_cons_False by (by rewrite string_ltb_irrefl; intros []).
  rewrite filter_none, filter_all; [done| |].
  - apply StronglySorted_app_1_r, StronglySorted_inv in Hs as [_ Hall].
    eapply Forall_impl; [exact Hall|]. intros y Hy. by rewrite Hy.
  - apply Forall_forall. intros y Hy Hlt. apply Is_true_true in Hlt.
    assert (String.ltb y x = true) as Hyx.
    { apply (StronglySorted_app_1_elem_of _ _ _ _ _ Hs Hy). by left. }
    by rewrite (string_ltb_asym _ _ Hyx) in Hlt.
Qed.

(** The keys still to list after a page are those that the page left. *)
Lemma list_page_next (n : nat) (m : gmap string Object) (token P D : option string)
    (t' : string) :
  NextContinuationToken (list_page n m token P D) = Some t' ->
  pending m (Some t') P D = drop n (pending m token P D).
Proof.
  unfold list_page. simpl. intros Hnext.
  destruct (n <? length (pending m token P D))%nat eqn:Hn; [|done].
  apply last_Some in Hnext as [l1 Hl1].
  pose proof (pending_increasing m token P D) as Hs.
  set (ks := pending m token P D) in *.
  assert (ks = l1 ++ t' :: drop n ks) as Hks.
  { rewrite <- (take_drop n ks) at 1. by rewrite Hl1, <- app_assoc. }
  assert (after token t' = true) as Hafter.
  { assert (t' ∈ ks) as Hin by (rewrite Hks; set_solver).
    by apply pending_elem in Hin as (_ & ? & _). }
  transitivity (filter (fun k => Is_true (String.ltb t' k)) ks).
  - unfold ks, pending. rewrite list_filter_filter. apply list_filter_iff. intros k.
    simpl. rewrite !andb_True. split; [|tauto].
    intros [Hlt Hl]. split; [done|]. split; [|done].
    destruct token as [t|]; [|done]. simpl in *.
    apply Is_true_true. apply Is_true_true in Hlt. by apply (string_ltb_trans _ t').
  - rewrite Hks at 1. apply filter_greater_increasing. by rewrite <- Hks.
Qed.

(** A page without a continuation token is the rest of the listing. *)
Lemma list_page_last (n : nat) (m : gmap string Object) (token P D : option string) :
  0 < n ->
  NextContinuationToken (list_page n m token P D) = None ->
  take n (pending m token P D) = pending m token P D.
Proof.
  unfold list_page. simpl. intros Hpos Hnext.
  destruct (n <? length (pending m token P D))%nat eqn:Hn.
  - apply Nat.ltb_lt in Hn. apply last_None in Hnext.
    apply (f_equal length) in Hnext. rewrite length_take in Hnext. simpl in Hnext. lia.
  - apply Nat.ltb_ge in Hn. by apply take_ge.
Qed.

(** The keys of the objects of a page are the keys of the page. *)
Lemma list_page_keys (n : nat) (m : gmap string Object) (token P D : option string) :
  default [] (Contents (list_page n m token P D))
  = map (fun k => {| Key := Some k |}) (take n (pending m token P D)).
Proof. unfold list_page. simpl. by destruct (take n (pending m token P D)). Qed.

(** The keys to list from the start are the keys of the bucket under the
    prefix. *)
Lemma pending_all (m : gmap string Object) (P D : option string) (k : string) :
  k ∈ pending m None P D <-> is_Some (m !! k) /\ listed_under P D k = true.
Proof.
  split.
  - intros (? & _ & ?)%pending_elem. done.
  - intros [[o Ho] Hl]. unfold pending. apply list_elem_of_filter. split.
    + simpl. by rewrite Hl.
    + unfold sorted_keys. rewrite merge_sort_Permutation.
      apply list_elem_of_fmap. exists (k, o). split; [done|]. by apply elem_of_map_to_list.
Qed.

End SortedListing.

(** * Further properties of the second class *)

Section BatchDeletes.
Import S3.
Variable srv : Service.
Hypothesis deletes_served : forall lg ks, fault srv lg (DeleteObjects ks) = None.

Lemma deleteObjects_served_lookup (ks : list string) (w : World) (k : string) :
  objects (snd (S3.deleteObjects srv ks w)) !! k
  = if bool_decide (k ∈ ks) then None else objects w !! k.
Proof.
  unfold S3.deleteObjects, send. rewrite deletes_served. simpl. apply lookup_foldr_delete.
Qed.

Lemma issue_all_deleteObjects_served (chunks : list (list string)) (w : World) (k : string) :
  objects (snd (issue_all (map (S3.deleteObjects srv) chunks) w)) !! k
  = if bool_decide (k ∈ concat chunks) then None else objects w !! k.
Proof.
  revert w. induction chunks as [|c chunks IH]; intros w.
  - done.
  - cbn [map concat]. rewrite issue_all_cons_snd by apply deleteObjects_never_runs_out.
    rewrite IH, deleteObjects_served_lookup.
    rewrite (bool_decide_ext (k ∈ c ++ concat chunks) (k ∈ c \/ k ∈ concat chunks))
      by apply elem_of_app.
    destruct (decide (k ∈ concat chunks)) as [Hin|Hnin].
    + rewrite (bool_decide_eq_true_2 _ Hin). by rewrite bool_decide_eq_true_2 by (by right).
    + rewrite (bool_decide_eq_false_2 _ Hnin).
      destruct (decide (k ∈ c)) as [Hc|Hc].
      * rewrite (bool_decide_eq_true_2 _ Hc). by rewrite bool_decide_eq_true_2 by (by left).
      * rewrite (bool_decide_eq_false_2 _ Hc). by rewrite bool_decide_eq_false_2 by tauto.
Qed.

End BatchDeletes.

Section ExactDeletes.
Import S3 S3CacheTagging.
Variable srv : Service.
Hypothesis deletes_served : forall lg ks, fault srv lg (DeleteObjects ks) = None.

(** When the batch deletes are served, [deleteObjects] removes the keys it
    is given, and only them. *)
Lemma deleteObjects_served (keys : list string) (w : World) (k : string) :
  objects (snd (deleteObjects srv keys w)) !! k
  = if bool_decide (k ∈ keys) then None else objects w !! k.
Proof.
  rewrite deleteObjects_snd, (issue_all_deleteObjects_served srv deletes_served).
  by rewrite (proj1 (chunkArray_partition keys CHUNK_LIMIT ltac:(unfold CHUNK_LIMIT; lia))).
Qed.

Lemma deleteAllByKeyMatch_page_keys (page acc : list string) :
  fold_left (fun acc o =>
               let key := default "" (Key o) in
               if has_page_extension key then acc ++ [key] else acc)
            (map (fun k => {| Key := Some k |}) page) acc
  = acc ++ filter (fun k => Is_true (has_page_extension k)) page.
Proof.
  revert acc. induction page as [|k page IH]; intros acc; simpl; [by rewrite app_nil_r|].
  rewrite IH. destruct (has_page_extension k) eqn:Hk.
  - rewrite filter_cons_True by (by rewrite Hk). by rewrite <- app_assoc.
  - by rewrite filter_cons_False by (by rewrite Hk; intros []).
Qed.

(** When the listings are served, the loop gathers every key listed under
    the prefix that ends with an extension. *)
Lemma deleteAllByKeyMatch_loop_complete (fuel : nat) (pageKey : string) (acc : list string)
    (token : option string) (w : World) :
  0 < MaxKeys srv ->
  (forall lg tok, fault srv lg (ListObjectsV2 tok (Some (pageKey +:+ "/")) (Some "/")) = None) ->
  objects w !! "" = None ->
  length (pending (objects w) token (Some (pageKey +:+ "/")) (Some "/")) < fuel ->
  exists w',
    deleteAllByKeyMatch_loop srv fuel pageKey acc token w
    = (Returned (acc ++ filter (fun k => Is_true (has_page_extension k))
                          (pending (objects w) token (Some (pageKey +:+ "/")) (Some "/"))), w')
    /\ objects w' = objects w.
Proof.
  intros Hpos Hquiet Hempty. revert acc token w Hempty.
  induction fuel as [|fuel IH]; intros acc token w Hempty Hlen; [lia|].
  cbn [deleteAllByKeyMatch_loop]. unfold await. rewrite listObjectsV2_run, Hquiet.
  rewrite list_page_keys. unfold deleteAllByKeyMatch_page. rewrite deleteAllByKeyMatch_page_keys.
  cbn [app].
  set (ks := pending (objects w) token (Some (pageKey +:+ "/")) (Some "/")) in *.
  destruct (NextContinuationToken (list_page (MaxKeys srv) (objects w) token
                                     (Some (pageKey +:+ "/")) (Some "/"))) as [t'|] eqn:Hnext.
  - pose proof (list_page_progress _ _ _ _ _ _ Hnext) as Hprogress.
    pose proof (list_page_next _ _ _ _ _ _ Hnext) as Hrest.
    assert (more (Some t') = true) as Hmore.
    { destruct t'; [|done].
      assert ("" ∈ ks) as Hin.
      { unfold list_page in Hnext. simpl in Hnext. fold ks in Hnext.
        destruct (MaxKeys srv <? length ks)%nat; [|done].
        apply last_Some in Hnext as [l1 Hl1]. apply (subseteq_take (MaxKeys srv)).
        rewrite Hl1. apply elem_of_app. right. by left. }
      apply pending_elem in Hin as (_ & _ & [o Ho]). by rewrite Hempty in Ho. }
    rewrite Hmore.
    set (w1 := {| objects := objects w; log := _ |}).
    destruct (IH (acc ++ filter (fun k => Is_true (has_page_extension k)) (take (MaxKeys srv) ks))
                (Some t') w1 Hempty) as (w' & Hrun & Hobj); [simpl; fold ks in Hprogress; lia|].
    exists w'. split; [|done]. rewrite Hrun. simpl. rewrite Hrest. fold ks.
    by rewrite <- app_assoc, <- filter_app, take_drop.
  - pose proof (list_page_last _ _ _ _ _ Hpos Hnext) as Hlast. fold ks in Hlast.
    rewrite Hlast. by eexists.
Qed.

(** X6. When the service serves the listings and the batch deletes of a
    bucket without an empty key, [deleteAllByKeyMatch] returns, given
    enough fuel, and the objects gone are exactly those listed under
    [pageKey/] (no further [/] in the key) whose key ends with [json],
    [html] or [rsc] and, when there is a filter, passes its test. *)
Theorem deleteAllByKeyMatch_exact (pageKey : string) (ctx : option CacheContext)
    (allowCacheKeys : list string) (w : World) :
  0 < MaxKeys srv ->
  (forall lg tok, fault srv lg (ListObjectsV2 tok (Some (pageKey +:+ "/")) (Some "/")) = None) ->
  objects w !! "" = None ->
  exists n, forall fuel, n <= fuel ->
    fst (deleteAllByKeyMatch srv fuel pageKey ctx allowCacheKeys w) = Returned tt
    /\ forall k,
         objects (snd (deleteAllByKeyMatch srv fuel pageKey ctx allowCacheKeys w)) !! k
         = if listed_under (Some (pageKey +:+ "/")) (Some "/") k
              && has_page_extension k
              && (negb (nonempty allowCacheKeys) || some_allowKey_matches allowCacheKeys k)
           then None
           else objects w !! k.
Proof.
  intros Hpos Hquiet Hempty.
  exists (S (length (pending (objects w) None (Some (pageKey +:+ "/")) (Some "/")))).
  intros fuel Hle.
  destruct (deleteAllByKeyMatch_loop_complete fuel pageKey [] None w Hpos Hquiet Hempty)
    as (w1 & Hrun & Hobj); [lia|].
  unfold deleteAllByKeyMatch, await. rewrite Hrun. simpl.
  split; [apply deleteObjects_returns|].
  intros k. rewrite deleteObjects_served, Hobj.
  set (P := Some (pageKey +:+ "/")). set (D := Some "/").
  destruct (objects w !! k) as [o|] eqn:Hk.
  2:{ by repeat case_match. }
  assert (k ∈ pending (objects w) None P D <-> listed_under P D k = true) as Hpending.
  { rewrite pending_all, Hk. split; [tauto | by eauto]. }
  destruct (listed_under P D k) eqn:Hl; cbn [andb].
  - assert (k ∈ pending (objects w) None P D) as Hin by (by apply Hpending).
    destruct (has_page_extension k) eqn:Hext; cbn [andb].
    + assert (k ∈ filter (fun k => Is_true (has_page_extension k))
                    (pending (objects w) None P D)) as Hin'.
      { apply list_elem_of_filter. by rewrite Hext. }
      destruct (nonempty allowCacheKeys); cbn [negb orb].
      * destruct (some_allowKey_matches allowCacheKeys k) eqn:Hm.
        -- rewrite bool_decide_eq_true_2; [done|].
           apply list_elem_of_filter. by rewrite Hm.
        -- rewrite bool_decide_eq_false_2; [done|].
           intros [Hm' _]%list_elem_of_filter. by rewrite Hm in Hm'.
      * by rewrite bool_decide_eq_true_2.
    + rewrite bool_decide_eq_false_2; [done|].
      destruct (nonempty allowCacheKeys).
      * intros [_ [Hext' _]%list_elem_of_filter]%list_elem_of_filter. by rewrite Hext in Hext'.
      * intros [Hext' _]%list_elem_of_filter. by rewrite Hext in Hext'.
  - rewrite bool_decide_eq_false_2; [done|].
    assert (k ∉ pending (objects w) None P D) as Hnin by (rewrite Hpending; done).
    destruct (nonempty allowCacheKeys).
    + intros [_ [_ ?]%list_elem_of_filter]%list_elem_of_filter. done.
    + intros [_ ?]%list_elem_of_filter. done.
Qed.

End ExactDeletes.

Section ExactScan.
Import S3 S3CacheTagging.
Variable srv : Service.
Hypothesis positive_pages : 0 < MaxKeys srv.
Hypothesis listings_served : forall lg tok, fault srv lg (ListObjectsV2 tok None None) = None.
Hypothesis taggings_served : forall lg k, fault srv lg (GetObjectTagging k) = None.

Lemma revalidateTag_fold_exact m tag allowCacheKeys page c acc :
  (forall k, k ∈ page -> k <> "" /\ is_Some (m !! k)) ->
  (forall w, objects w = m -> exists w', c w = (Returned (inr acc), w') /\ objects w' = m) ->
  forall w, objects w = m ->
    exists w',
      fold_left (revalidateTag_step srv tag allowCacheKeys)
        (map (fun k => {| Key := Some k |}) page) c w
      = (Returned (inr (acc ++ filter (fun k => Is_true (scan_keeps m tag allowCacheKeys k)) page)),
         w')
      /\ objects w' = m.
Proof.
  revert c acc. induction page as [|k page IH]; intros c acc Hpage Hc.
  - simpl. rewrite filter_nil, app_nil_r. exact Hc.
  - cbn [map fold_left].
    assert (k <> "" /\ is_Some (m !! k)) as [Hk [o Ho]] by (apply Hpage; by left).
    assert (Js.truthy k = true) as Htruthy by (by destruct k).
    intros w0 Hw0.
    replace (acc ++ filter (fun k => Is_true (scan_keeps m tag allowCacheKeys k)) (k :: page))
      with ((acc ++ filter (fun k => Is_true (scan_keeps m tag allowCacheKeys k)) [k])
            ++ filter (fun k => Is_true (scan_keeps m tag allowCacheKeys k)) page)
      by (by rewrite <- app_assoc, <- filter_app).
    apply IH; [|clear w0 Hw0|exact Hw0].
    { intros k' Hk'. apply Hpage. by right. }
    intros w Hw. destruct (Hc w Hw) as (w1 & Hrun & Hobj).
    unfold revalidateTag_step, await at 1. rewrite Hrun. cbn [Key]. rewrite Htruthy. cbn [negb orb].
    assert (scan_keeps m tag allowCacheKeys k
            = negb (nonempty allowCacheKeys && some_allowKey_matches allowCacheKeys k)
              && Js.includes (revalidate_tags (TagSet o)) tag) as Hkeep.
    { unfold scan_keeps, tagged_with. by rewrite Ho. }
    destruct (nonempty allowCacheKeys && some_allowKey_matches allowCacheKeys k) eqn:Hskip.
    + rewrite filter_cons_False by (by rewrite Hkeep; intros []).
      rewrite filter_nil, app_nil_r. by exists w1.
    + unfold await, settle. rewrite getObjectTagging_run, taggings_served, Hobj, Ho.
      cbn [out_TagSet default]. change (id (TagSet o)) with (TagSet o).
      destruct (Js.includes (revalidate_tags (TagSet o)) tag) eqn:Htag.
      * rewrite filter_cons_True by (by rewrite Hkeep). rewrite filter_nil. by eexists.
      * rewrite filter_cons_False by (by rewrite Hkeep; intros []).
        rewrite filter_nil, app_nil_r. by eexists.
Qed.

Lemma revalidateTag_loop_complete (fuel : nat) (tag : string) (allowCacheKeys acc : list string)
    (token : option string) (w : World) :
  objects w !! "" = None ->
  length (pending (objects w) token None None) < fuel ->
  exists w',
    revalidateTag_loop srv fuel tag allowCacheKeys acc token w
    = (Returned (acc ++ filter (fun k => Is_true (scan_keeps (objects w) tag allowCacheKeys k))
                          (pending (objects w) token None None)), w')
    /\ objects w' = objects w.
Proof.
  revert acc token w. induction fuel as [|fuel IH]; intros acc token w Hempty Hlen; [lia|].
  cbn [revalidateTag_loop]. unfold await at 1. rewrite listObjectsV2_run, listings_served.
  rewrite list_page_keys.
  set (ks := pending (objects w) token None None) in *.
  set (w1 := {| objects := objects w; log := _ |}).
  assert (forall k, k ∈ take (MaxKeys srv) ks -> k <> "" /\ is_Some (objects w !! k)) as Hpage.
  { intros k Hk%(subseteq_take (MaxKeys srv)). apply pending_elem in Hk as (_ & _ & Hsome).
    split; [|done]. intros ->. destruct Hsome as [o Ho]. by rewrite Hempty in Ho. }
  destruct (revalidateTag_fold_exact (objects w) tag allowCacheKeys (take (MaxKeys srv) ks)
              (resolve (inr [])) [] Hpage) with (w := w1) as (w2 & Hfold & Hobj2); [|done|].
  { intros w0 Hw0. by exists w0. }
  unfold await, revalidateTag_page, await. rewrite Hfold. cbn [app].
  unfold resolve. cbn beta iota.
  destruct (NextContinuationToken (list_page (MaxKeys srv) (objects w) token None None))
    as [t'|] eqn:Hnext.
  - pose proof (list_page_progress _ _ _ _ _ _ Hnext) as Hprogress.
    pose proof (list_page_next _ _ _ _ _ _ Hnext) as Hrest.
    assert (more (Some t') = true) as Hmore.
    { destruct t'; [|done].
      assert ("" ∈ ks) as Hin.
      { unfold list_page in Hnext. simpl in Hnext. fold ks in Hnext.
        destruct (MaxKeys srv <? length ks)%nat; [|done].
        apply last_Some in Hnext as [l1 Hl1]. apply (subseteq_take (MaxKeys srv)).
        rewrite Hl1. apply elem_of_app. right. by left. }
      apply pending_elem in Hin as (_ & _ & [o Ho]). by rewrite Hempty in Ho. }
    rewrite Hmore.
    destruct (IH (acc ++ filter (fun k => Is_true (scan_keeps (objects w) tag allowCacheKeys k))
                           (take (MaxKeys srv) ks))
                (Some t') w2) as (w' & Hrun & Hobj); [by rewrite Hobj2 | rewrite Hobj2; fold ks in Hprogress; lia|].
    exists w'. split; [|by rewrite Hobj, Hobj2]. rewrite Hrun, Hobj2, Hrest. fold ks.
    by rewrite <- app_assoc, <- filter_app, take_drop.
  - pose proof (list_page_last _ _ _ _ _ positive_pages Hnext) as Hlast. fold ks in Hlast.
    rewrite Hlast. by eexists.
Qed.

Lemma startsWith_empty (k : string) : Js.startsWith k "" = true.
Proof. unfold Js.startsWith. apply bool_decide_eq_true_2. apply prefix_nil. Qed.

Hypothesis deletes_served : forall lg ks, fault srv lg (DeleteObjects ks) = None.

(** The run of [revalidateTag] on a service that serves its requests. *)
Lemma revalidateTag_served_run (tag : string) (ctx : option CacheContext)
    (allowCacheKeys : list string) (w : World) (fuel : nat) :
  objects w !! "" = None ->
  S (length (pending (objects w) None None None)) <= fuel ->
  fst (revalidateTag srv fuel tag ctx allowCacheKeys w) = Returned tt
  /\ forall k,
       objects (snd (revalidateTag srv fuel tag ctx allowCacheKeys w)) !! k
       = if scan_keeps (objects w) tag allowCacheKeys k then None else objects w !! k.
Proof.
  intros Hempty Hle.
  destruct (revalidateTag_loop_complete fuel tag allowCacheKeys [] None w Hempty)
    as (w1 & Hrun & Hobj); [lia|].
  unfold revalidateTag, await. rewrite Hrun. cbn [app fst snd].
  split; [apply deleteObjects_returns|].
  intros k. rewrite (deleteObjects_served srv deletes_served), Hobj.
  destruct (scan_keeps (objects w) tag allowCacheKeys k) eqn:Hkeep.
  - rewrite bool_decide_eq_true_2; [done|]. apply list_elem_of_filter. rewrite Hkeep.
    split; [done|]. apply pending_all. split.
    + unfold scan_keeps, tagged_with in Hkeep. destruct (objects w !! k); [done|].
      by rewrite andb_false_r in Hkeep.
    + unfold listed_under. cbn [default from_option id]. by rewrite startsWith_empty.
  - rewrite bool_decide_eq_false_2; [done|].
    intros [Hkeep' _]%list_elem_of_filter. by rewrite Hkeep in Hkeep'.
Qed.

(** X7. When the service serves the requests of a bucket without an empty
    key, [revalidateTag] returns, given enough fuel, and the objects gone
    are exactly those that carry the tag among their [revalidateTagN]
    values and on whose key the filter test fails (all those that carry the
    tag when there is no filter). *)
Theorem revalidateTag_exact (tag : string) (ctx : option CacheContext)
    (allowCacheKeys : list string) (w : World) :
  objects w !! "" = None ->
  exists n, forall fuel, n <= fuel ->
    fst (revalidateTag srv fuel tag ctx allowCacheKeys w) = Returned tt
    /\ forall k,
         objects (snd (revalidateTag srv fuel tag ctx allowCacheKeys w)) !! k
         = if scan_keeps (objects w) tag allowCacheKeys k then None else objects w !! k.
Proof.
  intros Hempty. exists (S (length (pending (objects w) None None None))). intros fuel Hle.
  by apply revalidateTag_served_run.
Qed.

End ExactScan.

Lemma deleteAllByKeyMatch_exact_witness :
  exists n, forall fuel, n <= fuel ->
    fst (S3CacheTagging.deleteAllByKeyMatch quiet fuel "/blog" None [] blog_bucket) = Returned tt
    /\ forall k,
         S3.objects (snd (S3CacheTagging.deleteAllByKeyMatch quiet fuel "/blog" None [] blog_bucket))
           !! k
         = if S3.listed_under (Some ("/blog" +:+ "/")) (Some "/") k
              && S3CacheTagging.has_page_extension k
              && (negb (S3CacheTagging.nonempty (@nil string)) || S3CacheTagging.some_allowKey_matches [] k)
           then None
           else S3.objects blog_bucket !! k.
Proof.
  apply (deleteAllByKeyMatch_exact quiet); [done | simpl; lia | done | by vm_compute].
Defined.

Lemma revalidateTag_exact_witness :
  exists n, forall fuel, n <= fuel ->
    fst (S3CacheTagging.revalidateTag quiet fuel "t" None [] blog_bucket) = Returned tt
    /\ forall k,
         S3.objects (snd (S3CacheTagging.revalidateTag quiet fuel "t" None [] blog_bucket)) !! k
         = if scan_keeps (S3.objects blog_bucket) "t" [] k then None
           else S3.objects blog_bucket !! k.
Proof.
  apply (revalidateTag_exact quiet); [simpl; lia | done | done | done | by vm_compute].
Defined.

Section ScanFrame.
Import S3 S3CacheTagging.
Variable srv : Service.

Lemma carries_tag_tagged_with (m : gmap string Object) (tag k : string) :
  carries_tag m tag k <-> tagged_with m tag k = true.
Proof.
  unfold carries_tag, tagged_with. split.
  - intros (o & -> & Ho). done.
  - destruct (m !! k) as [o|]; [|done]. intros Ho. by exists o.
Qed.

(** X8. Whatever the service does, [revalidateTag] leaves every object that
    does not carry the tag as it was. *)
Theorem revalidateTag_only_tagged (fuel : nat) (tag : string) (ctx : option CacheContext)
    (allowCacheKeys : list string) (w : World) (k : string) :
  tagged_with (objects w) tag k = false ->
  objects (snd (revalidateTag srv fuel tag ctx allowCacheKeys w)) !! k = objects w !! k.
Proof.
  intros Hno.
  destruct (decide (objects (snd (revalidateTag srv fuel tag ctx allowCacheKeys w)) !! k
                    = objects w !! k)) as [Heq|Hneq]; [exact Heq|].
  destruct (revalidateTag_removes srv fuel tag ctx allowCacheKeys w k Hneq) as (Htag & _ & _).
  apply carries_tag_tagged_with in Htag. by rewrite Hno in Htag.
Qed.

(** X9. The two invalidation calls remove nothing when they throw: a
    rejected listing or tagging read ends the call before any delete is
    sent. *)
Theorem invalidation_throws_before_deleting (fuel : nat) (ctx : option CacheContext)
    (allowCacheKeys : list string) (w : World) (e : JsError) :
  (forall tag,
     fst (revalidateTag srv fuel tag ctx allowCacheKeys w) = Thrown e ->
     objects (snd (revalidateTag srv fuel tag ctx allowCacheKeys w)) = objects w)
  /\ (forall pageKey,
        fst (deleteAllByKeyMatch srv fuel pageKey ctx allowCacheKeys w) = Thrown e ->
        objects (snd (deleteAllByKeyMatch srv fuel pageKey ctx allowCacheKeys w)) = objects w).
Proof.
  split.
  - intros tag. unfold revalidateTag, await.
    destruct (revalidateTag_loop_sound srv fuel tag allowCacheKeys [] None w) as [Hobj _].
    destruct (revalidateTag_loop srv fuel tag allowCacheKeys [] None w) as [[ks|e'|] w1];
      simpl in *; [|done..].
    by rewrite deleteObjects_returns.
  - intros pageKey. unfold deleteAllByKeyMatch, await.
    destruct (deleteAllByKeyMatch_loop_sound srv fuel pageKey [] None w) as [Hobj _].
    destruct (deleteAllByKeyMatch_loop srv fuel pageKey [] None w) as [[ks|e'|] w1];
      simpl in *; [|done..].
    by rewrite deleteObjects_returns.
Qed.

Lemma only_sends_settle {A} P (c : Async World A) :
  only_sends P c -> only_sends P (settle c).
Proof.
  intros Hc w. destruct (Hc w) as (sent & Hlog & HP). exists sent. split; [|done].
  unfold settle. by destruct (c w) as [[a|e'|] w1].
Qed.

Lemma revalidateTag_step_reads tag allowCacheKeys c o :
  only_sends (fun req => ~ is_write req) c ->
  only_sends (fun req => ~ is_write req) (revalidateTag_step srv tag allowCacheKeys c o).
Proof.
  intros Hc. unfold revalidateTag_step. apply only_sends_await; [done|]. intros acc.
  destruct (Key o) as [key|]; [|apply only_sends_resolve].
  destruct (negb (Js.truthy key) || _); [apply only_sends_resolve|].
  apply only_sends_await.
  - apply only_sends_settle, only_sends_send. simpl. tauto.
  - intros [e'|out]; [apply only_sends_resolve|].
    destruct (Js.includes _ tag); apply only_sends_resolve.
Qed.

Lemma revalidateTag_loop_reads fuel tag allowCacheKeys acc token :
  only_sends (fun req => ~ is_write req) (revalidateTag_loop srv fuel tag allowCacheKeys acc token).
Proof.
  revert acc token. induction fuel as [|fuel IH]; intros acc token; simpl.
  - apply only_sends_out_of_fuel.
  - apply only_sends_await; [apply only_sends_send; simpl; tauto|]. intros page.
    apply only_sends_await.
    + unfold revalidateTag_page. apply only_sends_await.
      * generalize (default [] (Contents page)). intros contents.
        assert (only_sends (fun req => ~ is_write req)
                  (resolve (inr []) : Async World (JsError + list string))) as Hstart
          by apply only_sends_resolve.
        revert Hstart. generalize (resolve (inr []) : Async World (JsError + list string)).
        induction contents as [|o contents IHc]; intros c Hc; [done|].
        simpl. apply IHc. by apply revalidateTag_step_reads.
      * intros [e'|ks]; [|apply only_sends_resolve].
        intros w0. exists []. by rewrite app_nil_r.
    + intros found. destruct (more _); [apply IH | apply only_sends_resolve].
Qed.

(** X10. When no object carries the tag, [revalidateTag] only reads: it
    sends no delete request at all. *)
Theorem revalidateTag_nothing_to_delete (fuel : nat) (tag : string) (ctx : option CacheContext)
    (allowCacheKeys : list string) (w : World) :
  (forall k, tagged_with (objects w) tag k = false) ->
  exists sent,
    log (snd (revalidateTag srv fuel tag ctx allowCacheKeys w)) = log w ++ sent
    /\ Forall (fun req => ~ is_write req) sent.
Proof.
  intros Hnone.
  destruct (revalidateTag_loop_reads fuel tag allowCacheKeys [] None w) as (sent & Hlog & Hsent).
  destruct (revalidateTag_loop_sound srv fuel tag allowCacheKeys [] None w) as [_ Hks].
  exists sent. split; [|done].
  unfold revalidateTag, await.
  destruct (revalidateTag_loop srv fuel tag allowCacheKeys [] None w) as [[ks|e'|] w1];
    simpl in *; [|done..].
  destruct ks as [|k ks]; [done|].
  destruct (Hks (k :: ks) eq_refl k) as [Hnil|[_ Htag]]; [by left|set_solver|].
  apply carries_tag_tagged_with in Htag. by rewrite Hnone in Htag.
Qed.

End ScanFrame.

Lemma revalidateTag_only_tagged_witness :
  S3.objects (snd (S3CacheTagging.revalidateTag quiet 2 "t" None [] blog_bucket)) !! "/news/c.json"
  = S3.objects blog_bucket !! "/news/c.json".
Proof. apply revalidateTag_only_tagged. by vm_compute. Defined.

Lemma invalidation_throws_before_deleting_witness :
  let srv := {| S3.MaxKeys := 1000;
                S3.fault := fun _ req =>
                  match req with
                  | S3.GetObjectTagging _ => Some AccessDenied
                  | _ => None
                  end |} in
  S3.objects (snd (S3CacheTagging.revalidateTag srv 2 "t" None [] blog_bucket))
  = S3.objects blog_bucket.
Proof.
  intros srv.
  apply (proj1 (invalidation_throws_before_deleting srv 2 None [] blog_bucket AccessDenied) "t").
  by vm_compute.
Defined.

Lemma revalidateTag_nothing_to_delete_witness :
  exists sent,
    S3.log (snd (S3CacheTagging.revalidateTag quiet 2 "z" None [] blog_bucket))
    = S3.log blog_bucket ++ sent
    /\ Forall (fun req => ~ is_write req) sent.
Proof.
  apply revalidateTag_nothing_to_delete. intros k. unfold tagged_with, blog_bucket. simpl.
  destruct (decide (k = "/blog/a.json")) as [->|Ha]; [by vm_compute|].
  destruct (decide (k = "/blog/b.json")) as [->|Hb]; [by vm_compute|].
  destruct (decide (k = "/news/c.json")) as [->|Hc]; [by vm_compute|].
  by rewrite !lookup_insert_ne, lookup_empty by done.
Defined.

Section Writes.
Import S3 S3CacheTagging.
Variable srv : Service.
Variable json : JsonCodec.
Variable NEXT_CACHE_TAGS_HEADER : string.

(** [set] is the wait for an array of puts, one per extension, the last of
    which is the put of the JSON text of the entry. *)
Lemma set_as_puts (pageKey cacheKey : string) (data : CacheEntry) (ctx : CacheContext) :
  exists front ijson,
    set srv json NEXT_CACHE_TAGS_HEADER pageKey cacheKey data ctx
    = (let_await _ := Promise_all (map (putObject srv) (front ++ [ijson])) in resolve tt)
    /\ put_Key ijson = (pageKey +:+ "/" +:+ cacheKey) +:+ ".json"
    /\ put_Body ijson = JSON_stringify json data
    /\ map put_Key (front ++ [ijson])
       = map (fun ext => (pageKey +:+ "/" +:+ cacheKey) +:+ "." +:+ ext) (set_extensions data ctx).
Proof.
  unfold set, set_extensions.
  destruct (value data) as [[html pageData hs|body hs|d]|]; [destruct (isAppRouter ctx)| | |].
  - eexists [_; _], _. split; [reflexivity|]. done.
  - eexists [_], _. split; [reflexivity|]. done.
  - eexists [], _. split; [reflexivity|]. done.
  - eexists [], _. split; [reflexivity|]. done.
  - eexists [], _. split; [reflexivity|]. done.
Qed.

Lemma after_puts_untouched (m : gmap string Object) (inputs : list PutObjectInput) (k : string) :
  k ∉ map put_Key inputs -> after_puts m inputs !! k = m !! k.
Proof.
  revert m. induction inputs as [|i inputs IH]; intros m Hk; [done|].
  unfold after_puts in *. cbn [foldl]. rewrite IH.
  - apply lookup_insert_ne. intros Heq. apply Hk. rewrite <- Heq. by left.
  - intros Hin. apply Hk. by right.
Qed.

Lemma after_puts_written (m m' : gmap string Object) (inputs : list PutObjectInput) (k : string) :
  k ∈ map put_Key inputs -> after_puts m inputs !! k = after_puts m' inputs !! k.
Proof.
  revert m m'. induction inputs as [|i inputs IH]; intros m m' Hk; [by apply elem_of_nil in Hk|].
  destruct (decide (k ∈ map put_Key inputs)) as [Hin|Hnin].
  - unfold after_puts in *. cbn [foldl]. by apply IH.
  - apply elem_of_cons in Hk as [->|Hk]; [|done].
    change (after_puts m (i :: inputs)) with (after_puts (<[put_Key i := object_of_put i]> m) inputs).
    change (after_puts m' (i :: inputs)) with (after_puts (<[put_Key i := object_of_put i]> m') inputs).
    rewrite !after_puts_untouched by done. by rewrite !lookup_insert_eq.
Qed.

Lemma after_puts_twice (m : gmap string Object) (inputs : list PutObjectInput) :
  after_puts (after_puts m inputs) inputs = after_puts m inputs.
Proof.
  apply map_eq. intros k. destruct (decide (k ∈ map put_Key inputs)) as [Hin|Hnin].
  - by apply after_puts_written.
  - by rewrite after_puts_untouched.
Qed.

(** X11. For every kind of entry: when [set] returns and the read is
    served, [get] of the same key returns what [JSON.parse] makes of the
    [JSON.stringify] of the entry written, and throws what it throws. *)
Theorem set_then_get_any_kind (pageKey cacheKey : string) (data : CacheEntry) (ctx : CacheContext)
    (w w1 : World) :
  set srv json NEXT_CACHE_TAGS_HEADER pageKey cacheKey data ctx w = (Returned tt, w1) ->
  fault srv (log w1) (GetObject (pageKey +:+ "/" +:+ cacheKey +:+ ".json")) = None ->
  fst (get srv json pageKey cacheKey w1)
  = match JSON_parse json (JSON_stringify json data) with
    | inl e => Thrown e
    | inr d => Returned (Some d)
    end.
Proof.
  intros Hset Hread.
  destruct (set_as_puts pageKey cacheKey data ctx) as (front & ijson & Hputs & Hkey & Hbody & _).
  rewrite Hputs in Hset. unfold await in Hset.
  destruct (Promise_all _ w) as [[l|e|] w'] eqn:Hall; try done.
  injection Hset as ->.
  apply Promise_all_puts in Hall as [Hobj _].
  assert (pageKey +:+ "/" +:+ cacheKey +:+ ".json" = put_Key ijson) as Hk.
  { rewrite Hkey. by rewrite !string_app_assoc. }
  rewrite get_by_read, getObject_run, Hread, Hk, Hobj.
  unfold after_puts. rewrite foldl_app. cbn [foldl]. rewrite lookup_insert_eq.
  cbn [object_of_put Body out_Body fst]. by rewrite Hbody.
Qed.

(** X12. Writing the same entry under the same key twice leaves the bucket
    as the first write left it. *)
Theorem set_twice (pageKey cacheKey : string) (data : CacheEntry) (ctx : CacheContext)
    (w w1 w2 : World) :
  set srv json NEXT_CACHE_TAGS_HEADER pageKey cacheKey data ctx w = (Returned tt, w1) ->
  set srv json NEXT_CACHE_TAGS_HEADER pageKey cacheKey data ctx w1 = (Returned tt, w2) ->
  objects w2 = objects w1.
Proof.
  intros Hset1 Hset2.
  destruct (set_as_puts pageKey cacheKey data ctx) as (front & ijson & Hputs & _).
  rewrite Hputs in Hset1, Hset2. unfold await in Hset1, Hset2.
  destruct (Promise_all _ w) as [[l|e|] w'] eqn:Hall1; try done. injection Hset1 as ->.
  destruct (Promise_all _ w1) as [[l'|e|] w''] eqn:Hall2; try done. injection Hset2 as ->.
  apply Promise_all_puts in Hall1 as [Hobj1 _]. apply Promise_all_puts in Hall2 as [Hobj2 _].
  rewrite Hobj2, Hobj1. apply after_puts_twice.
Qed.

Lemma putObject_never_runs_out (i : PutObjectInput) (w : World) :
  fst (putObject srv i w) <> OutOfFuel.
Proof. rewrite putObject_run. by destruct (fault srv (log w) _). Qed.

Lemma Promise_all_snd {A} (ms : list (Async World A)) (w : World) :
  snd (Promise_all ms w) = snd (issue_all ms w).
Proof.
  unfold Promise_all, await. destruct (issue_all ms w) as [[rs|e|] w1]; [|done..].
  by destruct (first_rejection rs).
Qed.

Lemma issue_all_puts_other (inputs : list PutObjectInput) (w : World) (k : string) :
  k ∉ map put_Key inputs ->
  objects (snd (issue_all (map (putObject srv) inputs) w)) !! k = objects w !! k.
Proof.
  revert w. induction inputs as [|i inputs IH]; intros w Hk; [done|].
  cbn [map]. rewrite issue_all_cons_snd by apply putObject_never_runs_out.
  rewrite IH by (intros Hin; apply Hk; by right).
  rewrite putObject_run. destruct (fault srv (log w) _); [done|]. simpl.
  apply lookup_insert_ne. intros Heq. apply Hk. rewrite <- Heq. by left.
Qed.

(** A put that the service serves is in the bucket after the array of
    puts, whatever happened to the others. *)
Lemma issue_all_puts_served (inputs : list PutObjectInput) (w : World) (i : PutObjectInput) :
  NoDup (map put_Key inputs) ->
  i ∈ inputs ->
  (forall lg, fault srv lg (PutObject i) = None) ->
  objects (snd (issue_all (map (putObject srv) inputs) w)) !! put_Key i = Some (object_of_put i).
Proof.
  revert w. induction inputs as [|i0 inputs IH]; intros w Hnd Hin Hserved;
    [by apply elem_of_nil in Hin|].
  cbn [map] in *. apply NoDup_cons in Hnd as [Hfresh Hnd].
  rewrite issue_all_cons_snd by apply putObject_never_runs_out.
  apply elem_of_cons in Hin as [->|Hin]; [|by apply IH].
  rewrite issue_all_puts_other by done.
  rewrite putObject_run, Hserved. simpl. apply lookup_insert_eq.
Qed.

Lemma set_extensions_NoDup (data : CacheEntry) (ctx : CacheContext) :
  NoDup (set_extensions data ctx).
Proof.
  unfold set_extensions.
  destruct (value data) as [[html pageData hs|body hs|d]|]; [destruct (isAppRouter ctx)| | |];
    apply (bool_decide_unpack _); by vm_compute.
Qed.

(** X13. [set] sends one put per extension of the kind of the entry
    ([html] and [json] for a PAGE, with [rsc] between them under the app
    router, [json] alone otherwise), all of them whatever the service
    answers to the others; a put that is served stays in the bucket even
    when another one is rejected and [set] throws. *)
Theorem set_sends_every_put (pageKey cacheKey : string) (data : CacheEntry) (ctx : CacheContext)
    (w : World) :
  exists inputs,
    log (snd (set srv json NEXT_CACHE_TAGS_HEADER pageKey cacheKey data ctx w))
    = log w ++ map PutObject inputs
    /\ map put_Key inputs
       = map (fun ext => (pageKey +:+ "/" +:+ cacheKey) +:+ "." +:+ ext) (set_extensions data ctx)
    /\ forall i, i ∈ inputs ->
         (forall lg, fault srv lg (PutObject i) = None) ->
         objects (snd (set srv json NEXT_CACHE_TAGS_HEADER pageKey cacheKey data ctx w))
           !! put_Key i = Some (object_of_put i).
Proof.
  destruct (set_as_puts pageKey cacheKey data ctx) as (front & ijson & Hputs & _ & _ & Hkeys).
  exists (front ++ [ijson]).
  assert (snd (set srv json NEXT_CACHE_TAGS_HEADER pageKey cacheKey data ctx w)
          = snd (issue_all (map (putObject srv) (front ++ [ijson])) w)) as Hsnd.
  { rewrite Hputs. unfold await. rewrite <- Promise_all_snd.
    by destruct (Promise_all _ w) as [[l|e|] w1]. }
  rewrite Hsnd. split; [|split; [exact Hkeys|]].
  - destruct (issue_all_puts srv (front ++ [ijson]) w) as (rs & w1 & Hrun & Hlog & _).
    by rewrite Hrun.
  - intros i Hin Hserved. apply issue_all_puts_served; [|done..].
    rewrite Hkeys. apply NoDup_fmap_2; [|apply set_extensions_NoDup].
    intros a b Hab. by apply String.app_inj, String.app_inj in Hab.
Qed.

End Writes.

Lemma set_then_get_any_kind_witness :
  let w1 := snd (S3CacheTagging.set quiet sample_codec "x-next-cache-tags" "/blog" "k"
                   sample_page (mkCtx false "") empty_bucket) in
  fst (S3CacheTagging.get quiet sample_codec "/blog" "k" w1)
  = match JSON_parse sample_codec (JSON_stringify sample_codec sample_page) with
    | inl e => Thrown e
    | inr d => Returned (Some d)
    end.
Proof.
  intros w1.
  apply (set_then_get_any_kind quiet sample_codec "x-next-cache-tags" "/blog" "k" sample_page
           (mkCtx false "") empty_bucket w1); reflexivity.
Defined.

Lemma set_twice_witness :
  let w1 := snd (S3CacheTagging.set quiet sample_codec "x-next-cache-tags" "/blog" "k"
                   sample_page (mkCtx true "") empty_bucket) in
  let w2 := snd (S3CacheTagging.set quiet sample_codec "x-next-cache-tags" "/blog" "k"
                   sample_page (mkCtx true "") w1) in
  S3.objects w2 = S3.objects w1.
Proof.
  intros w1 w2.
  apply (set_twice quiet sample_codec "x-next-cache-tags" "/blog" "k" sample_page
           (mkCtx true "") empty_bucket w1 w2); reflexivity.
Defined.

(** A service that rejects the writes of [.json] objects. *)
Lemma set_sends_every_put_witness :
  let srv := {| S3.MaxKeys := 1000;
                S3.fault := fun _ req =>
                  match req with
                  | S3.PutObject i =>
                      if Js.endsWith (S3.put_Key i) ".json" then Some AccessDenied else None
                  | _ => None
                  end |} in
  let run := S3CacheTagging.set srv sample_codec "x-next-cache-tags" "/blog" "k"
               sample_page (mkCtx true "") empty_bucket in
  fst run = Thrown AccessDenied
  /\ exists inputs,
       S3.log (snd run) = S3.log empty_bucket ++ map S3.PutObject inputs
       /\ map S3.put_Key inputs
          = map (fun ext => ("/blog" +:+ "/" +:+ "k") +:+ "." +:+ ext)
              (set_extensions sample_page (mkCtx true ""))
       /\ forall i, i ∈ inputs ->
            (forall lg, S3.fault srv lg (S3.PutObject i) = None) ->
            S3.objects (snd run) !! S3.put_Key i = Some (S3.object_of_put i).
Proof.
  intros srv run. split; [by vm_compute|].
  apply (set_sends_every_put srv sample_codec "x-next-cache-tags" "/blog" "k" sample_page
           (mkCtx true "") empty_bucket).
Defined.

Section HandlerGet.
Import CacheHandler.
Context {W : Type}.
Variable cache_get : string -> CacheContext -> Async W (option CacheEntry).
Variable this : Instance.

Lemma checkIsStaleCache_true (now : Z) (d : CacheEntry) :
  checkIsStaleCache now (Some d) = true
  <-> exists r, revalidate d = Some r /\ r <> 0%Z /\ (lastModified d + r * 1000 < now)%Z.
Proof.
  unfold checkIsStaleCache. destruct (revalidate d) as [r|].
  - destruct (Z.eqb_spec r 0) as [->|Hne]; simpl.
    + split; [done|]. by intros (r & [= <-] & Hne & _).
    + rewrite Z.ltb_lt. split; [by exists r|]. by intros (r' & [= <-] & _ & Hlt).
  - split; [done|]. by intros (r & ? & _).
Qed.

Lemma get_run (now : Z) (key : string) (ctx : CacheContext) (w : W) :
  get cache_get this now key ctx w
  = match cache_get (getPageCacheKey this key)
            {| isAppRouter := isAppRouter ctx; serverAppPath := instServerAppPath this |} w with
    | (Returned (Some d), w1) =>
        (Returned (if checkIsStaleCache now (Some d) then None else Some d), w1)
    | other => other
    end.
Proof.
  unfold get, await. destruct (cache_get _ _ w) as [[[d|]|e|] w1]; try reflexivity.
  destruct (checkIsStaleCache now (Some d)); [reflexivity|].
  by rewrite bool_decide_eq_true_2.
Qed.

(** X14. The handler's [get] hands over an entry exactly when the strategy
    returned that entry and it is not stale; it returns [null] exactly when
    the strategy returned [null] or a stale entry; it throws what the
    strategy throws. In each case the store is as the one call of the
    strategy left it: a stale entry is not removed. *)
Theorem get_returns_fresh_only (now : Z) (key : string) (ctx : CacheContext) (w w' : W) :
  let read := cache_get (getPageCacheKey this key)
                {| isAppRouter := isAppRouter ctx; serverAppPath := instServerAppPath this |} w in
  (forall d, get cache_get this now key ctx w = (Returned (Some d), w')
             <-> read = (Returned (Some d), w')
                 /\ match revalidate d with
                    | Some r => r = 0%Z \/ (now <= lastModified d + r * 1000)%Z
                    | None => True
                    end)
  /\ (get cache_get this now key ctx w = (Returned None, w')
      <-> read = (Returned None, w')
          \/ exists d r, read = (Returned (Some d), w')
                         /\ revalidate d = Some r /\ r <> 0%Z
                         /\ (lastModified d + r * 1000 < now)%Z)
  /\ (forall e, get cache_get this now key ctx w = (Thrown e, w') <-> read = (Thrown e, w')).
Proof.
  intros read. rewrite get_run. fold read.
  destruct read as [[[d0|]|e0|] w0].
  - destruct (checkIsStaleCache now (Some d0)) eqn:Hs.
    + apply checkIsStaleCache_true in Hs as (r & Hr & Hne & Hlt).
      split; [|split].
      * intros d. split; [done|]. intros [[= -> ->] Hfresh]. rewrite Hr in Hfresh. lia.
      * split; [|intros [H|(d & r' & H & _)]; congruence]. intros [= ->]. right. by exists d0, r.
      * intros e. split; intros [=].
    + split; [|split].
      * intros d. split.
        -- intros [= -> ->]. split; [done|].
           destruct (revalidate d) as [r|] eqn:Hr; [|done].
           destruct (decide (r = 0%Z)) as [->|Hne]; [by left|]. right.
           destruct (Z.le_gt_cases now (lastModified d + r * 1000)) as [Hle|Hlt]; [done|].
           assert (checkIsStaleCache now (Some d) = true) as Hs'
             by (apply checkIsStaleCache_true; by exists r).
           congruence.
        -- by intros [[= -> ->] _].
      * split; [done|]. intros [[=]|(d & r & [= -> ->] & Hr & Hne & Hlt)].
        assert (checkIsStaleCache now (Some d) = true) as Hs'
          by (apply checkIsStaleCache_true; by exists r).
        congruence.
      * intros e. split; intros [=].
  - split; [|split].
    + intros d. split; [done|]. by intros [[=] _].
    + split; [by left|]. by intros [?|(d & r & [=] & _)].
    + intros e. split; intros [=].
  - split; [|split].
    + intros d. split; [done|]. by intros [[=] _].
    + split; [done|]. by intros [[=]|(d & r & [=] & _)].
    + done.
  - split; [|split].
    + intros d. split; [done|]. by intros [[=] _].
    + split; [done|]. by intros [[=]|(d & r & [=] & _)].
    + intros e. split; intros [=].
Qed.

End HandlerGet.

Section DeleteEntry.
Import S3 S3CacheTagging.
Variable srv : Service.
Variable json : JsonCodec.

(** X15. [delete] of the second class is one request. When it returns, none of
    the three objects of the entry ([json], [html], [rsc]) is in the
    bucket, every other object is as it was, and a [get] of the entry that
    the service serves returns [null]. *)
Theorem delete_then_get (pageKey cacheKey : string) (w w1 : World) :
  delete srv pageKey cacheKey w = (Returned tt, w1) ->
  let key ext := pageKey +:+ "/" +:+ cacheKey +:+ "." +:+ ext in
  log w1 = log w ++ [DeleteObjects [key "json"; key "html"; key "rsc"]]
  /\ (forall k, objects w1 !! k
                = if bool_decide (k ∈ [key "json"; key "html"; key "rsc"]) then None
                  else objects w !! k)
  /\ (fault srv (log w1) (GetObject (key "json")) = None ->
      fst (get srv json pageKey cacheKey w1) = Returned None).
Proof.
  intros Hdel key. unfold delete, S3.deleteObjects, send in Hdel. cbn [map PAGE_CACHE_EXTENSIONS] in Hdel.
  fold (key "json") (key "html") (key "rsc") in Hdel.
  destruct (fault srv (log w) _) eqn:Hfault; [done|].
  injection Hdel as <-. cbn [log objects].
  split; [done|]. split; [intros k; apply (lookup_foldr_delete _ [_; _; _])|].
  intros Hread. rewrite get_by_read, getObject_run. cbn [log objects].
  change (pageKey +:+ "/" +:+ cacheKey +:+ ".json") with (key "json").
  rewrite Hread.
  assert (foldr base.delete (objects w) [key "json"; key "html"; key "rsc"] !! key "json" = None)
    as Hgone by (rewrite lookup_foldr_delete, bool_decide_eq_true_2; [done | by left]).
  cbn [foldr] in Hgone. rewrite Hgone. reflexivity.
Qed.

End DeleteEntry.

Lemma delete_then_get_witness :
  let w1 := snd (S3CacheTagging.delete quiet "/blog" "a" blog_bucket) in
  let key ext := "/blog" +:+ "/" +:+ "a" +:+ "." +:+ ext in
  S3.log w1 = S3.log blog_bucket ++ [S3.DeleteObjects [key "json"; key "html"; key "rsc"]]
  /\ (forall k, S3.objects w1 !! k
                = if bool_decide (k ∈ [key "json"; key "html"; key "rsc"]) then None
                  else S3.objects blog_bucket !! k)
  /\ (S3.fault quiet (S3.log w1) (S3.GetObject (key "json")) = None ->
      fst (S3CacheTagging.get quiet sample_codec "/blog" "a" w1) = Returned None).
Proof.
  intros w1.
  apply (delete_then_get quiet sample_codec "/blog" "a" blog_bucket w1). reflexivity.
Defined.

Section KeyValueScan.
Import RedisCache.
Variable srv : Server.
Variable CHUNK_LIMIT : nat.

(** The scan loop sends scans of the pattern and nothing else, one per
    turn. *)
Lemma scan_loop_sends_scans (fuel : nat) (key : string) (cur : Z) (acc : list string)
    (log : World) :
  exists out scans,
    scan_loop srv CHUNK_LIMIT fuel key cur acc log = (out, log ++ scans)
    /\ Forall (is_scan_of CHUNK_LIMIT (key +:+ "//*")) scans
    /\ (out = OutOfFuel -> length scans = fuel).
Proof.
  revert cur acc log. induction fuel as [|fuel IH]; intros cur acc log.
  - exists OutOfFuel, []. simpl. unfold out_of_fuel. by rewrite app_nil_r.
  - cbn [scan_loop]. unfold await, client_scan.
    destruct (on_scan srv log cur _ CHUNK_LIMIT) as [e|r]; cbn [of_reply].
    + exists (Thrown e), [SCAN cur (key +:+ "//*") CHUNK_LIMIT].
      split; [done|]. split; [|done]. constructor; [by eexists | constructor].
    + destruct (negb (cursor r =? 0)%Z).
      * destruct (IH (cursor r) (acc ++ keys r) (log ++ [SCAN cur (key +:+ "//*") CHUNK_LIMIT]))
          as (out & scans & Hrun & Hall & Hfuel).
        exists out, (SCAN cur (key +:+ "//*") CHUNK_LIMIT :: scans).
        split; [by rewrite Hrun, <- app_assoc|]. split; [constructor; [by eexists | done]|].
        intros Hout. simpl. f_equal. by apply Hfuel.
      * exists (Returned (acc ++ keys r)), [SCAN cur (key +:+ "//*") CHUNK_LIMIT].
        split; [done|]. split; [|done]. constructor; [by eexists | constructor].
Qed.

(** X16. Without a cache key, [deleteAllByKeyMatch] sends scans of [key//*] and
    then at most one unlink, of a list that is not empty. When it throws,
    either the last scan was rejected and nothing has been unlinked, or the
    unlink itself was rejected with that error. When the loop has not ended
    after [fuel] turns, it has sent [fuel] scans and no unlink. *)
Theorem deleteAllByKeyMatch_unlinks_last (fuel : nat) (key : string) (log : World) :
  let run := deleteAllByKeyMatch srv CHUNK_LIMIT fuel key "" log in
  exists scans,
    Forall (is_scan_of CHUNK_LIMIT (key +:+ "//*")) scans
    /\ match fst run with
       | Returned _ =>
           snd run = log ++ scans
           \/ exists acc, acc <> [] /\ snd run = log ++ scans ++ [UNLINK acc]
       | Thrown e =>
           snd run = log ++ scans
           \/ exists acc, acc <> [] /\ snd run = log ++ scans ++ [UNLINK acc]
                          /\ on_unlink srv (log ++ scans) acc = inl e
       | OutOfFuel => snd run = log ++ scans /\ length scans = fuel
       end.
Proof.
  intros run. subst run. unfold deleteAllByKeyMatch. cbn [Js.truthy].
  destruct (scan_loop_sends_scans fuel key 0 [] log) as (out & scans & Hrun & Hall & Hfuel).
  exists scans. split; [done|].
  unfold await. rewrite Hrun. destruct out as [acc|e|]; cbn [fst snd].
  - destruct acc as [|k acc]; cbn [length bool_decide negb].
    + rewrite bool_decide_eq_true_2 by done. simpl. by left.
    + rewrite bool_decide_eq_false_2 by done. cbn [negb].
      unfold client_unlink.
      destruct (on_unlink srv (log ++ scans) (k :: acc)) as [e|n] eqn:Hunlink; cbn [of_reply fst snd].
      * right. exists (k :: acc). by rewrite app_assoc.
      * right. exists (k :: acc). by rewrite app_assoc.
  - by left.
  - split; [done|]. by apply Hfuel.
Qed.

(** X17. The loop ends only on cursor 0: with a server that answers every scan
    of the pattern and never with cursor 0, the call is still scanning
    after any number of turns, and has unlinked nothing. *)
Theorem deleteAllByKeyMatch_needs_cursor_zero (fuel : nat) (key : string) (log : World) :
  (forall lg c, exists r, on_scan srv lg c (key +:+ "//*") CHUNK_LIMIT = inr r
                          /\ cursor r <> 0%Z) ->
  fst (deleteAllByKeyMatch srv CHUNK_LIMIT fuel key "" log) = OutOfFuel
  /\ exists scans, snd (deleteAllByKeyMatch srv CHUNK_LIMIT fuel key "" log) = log ++ scans
                   /\ length scans = fuel
                   /\ Forall (is_scan_of CHUNK_LIMIT (key +:+ "//*")) scans.
Proof.
  intros Hendless.
  assert (forall cur acc lg, fst (scan_loop srv CHUNK_LIMIT fuel key cur acc lg) = OutOfFuel)
    as Hout.
  { induction fuel as [|n IH]; intros cur acc lg; [done|].
    cbn [scan_loop]. unfold await, client_scan.
    destruct (Hendless lg cur) as (r & -> & Hne). cbn [of_reply].
    destruct (Z.eqb_spec (cursor r) 0) as [?|_]; [done|]. apply IH. }
  destruct (scan_loop_sends_scans fuel key 0 [] log) as (out & scans & Hrun & Hall & Hfuel).
  specialize (Hout 0%Z [] log). rewrite Hrun in Hout. cbn [fst] in Hout. subst out.
  unfold deleteAllByKeyMatch. cbn [Js.truthy]. unfold await. rewrite Hrun. cbn [fst snd].
  split; [done|]. exists scans. by split; [|split; [apply Hfuel|]].
Qed.

End KeyValueScan.

(** A server whose cursor never comes back to 0. *)
Lemma deleteAllByKeyMatch_needs_cursor_zero_witness :
  let srv := {| RedisCache.on_scan := fun _ _ _ _ =>
                  inr {| RedisCache.cursor := 7; RedisCache.keys := ["page//k"] |};
                RedisCache.on_unlink := fun _ ks => inr (Z.of_nat (length ks)) |} in
  fst (RedisCache.deleteAllByKeyMatch srv 100 3 "page" "" []) = OutOfFuel
  /\ exists scans, snd (RedisCache.deleteAllByKeyMatch srv 100 3 "page" "" []) = [] ++ scans
                   /\ length scans = 3
                   /\ Forall (RedisCache.is_scan_of 100 ("page" +:+ "//*")) scans.
Proof.
  intros srv. apply (deleteAllByKeyMatch_needs_cursor_zero srv 100 3 "page" []).
  intros lg c. eexists. split; [reflexivity|]. simpl. lia.
Defined.

Section TagText.
Import S3 S3CacheTagging.

Lemma of_chars_chars (s : string) : Js.of_chars (Js.chars s) = s.
Proof. apply string_of_list_ascii_of_string. Qed.

Lemma chars_of_chars (l : list ascii) : Js.chars (Js.of_chars l) = l.
Proof. apply list_ascii_of_string_of_list_ascii. Qed.

Lemma split_chars_app (sep : ascii) (a cur rest : list ascii) :
  sep ∉ a -> Js.split_chars sep cur (a ++ rest) = Js.split_chars sep (rev a ++ cur) rest.
Proof.
  revert cur. induction a as [|c a IH]; intros cur Hsep; [done|].
  cbn [app Js.split_chars]. destruct (Ascii.eqb_spec c sep) as [->|Hne].
  - exfalso. apply Hsep. by left.
  - rewrite IH by (intros Hin; apply Hsep; by right).
    cbn [rev]. by rewrite <- app_assoc.
Qed.

(** [l.join(sep).split(sep)] is [l] when [l] is not empty and the
    separator occurs in none of its elements. *)
Lemma split_join (sep : ascii) (l : list string) :
  l <> [] ->
  Forall (fun s => sep ∉ Js.chars s) l ->
  Js.split (Js.join (String sep "") l) sep = l.
Proof.
  intros Hne Hall. unfold Js.split. induction Hall as [|x l Hx Hall IH]; [done|].
  destruct l as [|y l].
  - cbn [Js.join]. rewrite <- (app_nil_r (Js.chars x)), split_chars_app by done.
    cbn [Js.split_chars]. by rewrite app_nil_r, rev_involutive, of_chars_chars.
  - change (Js.join (String sep "") (x :: y :: l))
      with (x +:+ String sep "" +:+ Js.join (String sep "") (y :: l)).
    rewrite !chars_app, split_chars_app by done. cbn [Js.chars list_ascii_of_string app Js.split_chars].
    rewrite Ascii.eqb_refl, app_nil_r, rev_involutive, of_chars_chars.
    f_equal. by apply IH.
Qed.

Lemma pretty_N_char_digit (x : N) : pretty_N_char x ∈ digits.
Proof. unfold pretty_N_char, digits. repeat case_match; set_solver. Qed.

Lemma pretty_N_go_chars (x : N) (s : string) (c : ascii) :
  c ∈ Js.chars (pretty_N_go x s) -> c ∈ Js.chars s \/ c ∈ digits.
Proof.
  revert s. induction (N.lt_wf_0 x) as [x _ IH]; intros s.
  destruct (decide (0 < x)%N) as [Hpos|Hz].
  - rewrite pretty_N_go_step by done. intros Hin.
    apply IH in Hin as [Hin|Hin]; [|by right|by apply N.div_lt].
    cbn [Js.chars list_ascii_of_string] in Hin. apply elem_of_cons in Hin as [->|Hin].
    + right. apply pretty_N_char_digit.
    + by left.
  - assert (x = 0%N) as -> by lia. rewrite pretty_N_go_0. by left.
Qed.

(** The decimal text of an index holds digits only. *)
Lemma pretty_nat_chars (n : nat) (c : ascii) : c ∈ Js.chars (pretty n) -> c ∈ digits.
Proof.
  unfold pretty, pretty_nat, pretty, pretty_N. case_decide.
  - cbn. intros ->%list_elem_of_singleton. set_solver.
  - intros [Hin|Hin]%pretty_N_go_chars; [|done]. by apply elem_of_nil in Hin.
Qed.

Lemma cut_at_app (c : ascii) (a rest : list ascii) :
  c ∉ a -> cut_at c (a ++ c :: rest) = (a, Some rest).
Proof.
  induction a as [|d a IH]; intros Hc; cbn [app cut_at].
  - by rewrite Ascii.eqb_refl.
  - destruct (Ascii.eqb_spec d c) as [->|Hne]; [exfalso; apply Hc; by left|].
    rewrite IH by (intros Hin; apply Hc; by right). done.
Qed.

Lemma parse_tag_pair (k v : string) :
  "="%char ∉ Js.chars k ->
  parse_tag (k +:+ "=" +:+ v) = {| tag_Key := Some k; tag_Value := Some v |}.
Proof.
  intros Hk. unfold parse_tag. rewrite !chars_app.
  change (Js.chars "=") with ["="%char]. cbn [app].
  rewrite cut_at_app by done. cbn [default from_option id]. by rewrite !of_chars_chars.
Qed.

Lemma tag_key_no (c : ascii) (i : nat) :
  c ∉ Js.chars TAG_PREFIX -> c ∉ digits -> c ∉ Js.chars (TAG_PREFIX +:+ pretty i).
Proof.
  intros Hp Hd. rewrite chars_app. intros [Hin|Hin]%elem_of_app; [done|].
  by apply pretty_nat_chars in Hin.
Qed.

Lemma chars_join_no (c sep : ascii) (l : list string) :
  Forall (fun s => c ∉ Js.chars s) l -> c <> sep -> c ∉ Js.chars (Js.join (String sep "") l).
Proof.
  intros Hall Hne. induction Hall as [|x l Hx Hall IH]; [by intros ?%elem_of_nil|].
  destruct l as [|y l]; [done|].
  change (Js.join (String sep "") (x :: y :: l))
    with (x +:+ String sep "" +:+ Js.join (String sep "") (y :: l)).
  rewrite !chars_app. intros [Hin|[Hin|Hin]%elem_of_app]%elem_of_app; [done| |done].
  cbn in Hin. apply list_elem_of_singleton in Hin. done.
Qed.

(** The tagging text that [buildTagKeys] makes of a list of tags, read as
    the store reads it, has one entry per tag, with the key
    [revalidateTag<index>] and the tag as its value. *)
Lemma parse_tagging_numbered (f : nat -> string) (ts : list string) :
  ts <> [] ->
  (forall i, "="%char ∉ Js.chars (f i)) ->
  (forall i, "&"%char ∉ Js.chars (f i)) ->
  Forall (fun t => "&"%char ∉ Js.chars t) ts ->
  map parse_tag (Js.split (Js.join "&" (imap (fun i t => f i +:+ "=" +:+ t) ts)) "&"%char)
  = imap (fun i t => {| tag_Key := Some (f i); tag_Value := Some t |}) ts.
Proof.
  intros Hne Heq Hamp Hall. rewrite split_join.
  - clear Hne. revert f Heq Hamp. induction Hall as [|t ts Ht Hall IH]; intros f Heq Hamp; [done|].
    cbn [imap map]. rewrite parse_tag_pair by done. f_equal. apply (IH (f ∘ S)); naive_solver.
  - by destruct ts.
  - clear Hne. revert f Heq Hamp. induction Hall as [|t ts Ht Hall IH]; intros f Heq Hamp;
      [constructor|].
    cbn [imap]. constructor; [|apply (IH (f ∘ S)); naive_solver].
    rewrite !chars_app. intros [Hin|[Hin|Hin]%elem_of_app]%elem_of_app.
    + by apply (Hamp 0).
    + cbn in Hin. by apply list_elem_of_singleton in Hin.
    + done.
Qed.

Lemma revalidate_tags_numbered (f : nat -> string) (ts : list string) :
  (forall i, Js.startsWith (f i) TAG_PREFIX = true) ->
  revalidate_tags (imap (fun i t => {| tag_Key := Some (f i); tag_Value := Some t |}) ts) = ts.
Proof.
  revert f. induction ts as [|t ts IH]; intros f Hf; [done|].
  cbn [imap]. unfold revalidate_tags in *.
  rewrite filter_cons_True by (cbn; rewrite Hf; done).
  cbn [map tag_Value]. f_equal; [by destruct t|]. apply (IH (f ∘ S)). naive_solver.
Qed.

Lemma revalidate_tags_of_list (ts : list string) :
  ts <> [] ->
  Forall (fun t => "&"%char ∉ Js.chars t) ts ->
  revalidate_tags (parse_tagging (Some (buildTagKeys (Some (inr ts))))) = ts.
Proof.
  intros Hne Hall. unfold parse_tagging, buildTagKeys.
  destruct ts as [|t0 ts0] eqn:Hts; [done|]. rewrite <- Hts in *. clear Hts.
  assert (Js.join "&" (imap (fun index tag => TAG_PREFIX +:+ pretty index +:+ "=" +:+ tag) ts)
          = Js.join "&" (imap (fun i t => (TAG_PREFIX +:+ pretty i) +:+ "=" +:+ t) ts)) as ->.
  { reflexivity. }
  assert (Js.truthy (Js.join "&" (imap (fun i t => (TAG_PREFIX +:+ pretty i) +:+ "=" +:+ t) ts))
          = true) as ->.
  { destruct ts as [|t [|t' ts]]; done. }
  rewrite (parse_tagging_numbered (fun i => TAG_PREFIX +:+ pretty i)); [|done| | |done].
  - apply (revalidate_tags_numbered (fun i => TAG_PREFIX +:+ pretty i)).
    intros i. apply startsWith_app.
  - intros i. apply tag_key_no; apply (bool_decide_unpack _); by vm_compute.
  - intros i. apply tag_key_no; apply (bool_decide_unpack _); by vm_compute.
Qed.

End TagText.

Section TaggedWrites.
Import S3 S3CacheTagging.
Variable srv : Service.
Variable json : JsonCodec.
Variable NEXT_CACHE_TAGS_HEADER : string.

Lemma elem_of_rev (c : ascii) (l : list ascii) : c ∈ rev l <-> c ∈ l.
Proof. rewrite !list_elem_of_In. symmetry. apply in_rev. Qed.

Lemma split_chars_pieces (c sep : ascii) (cur l : list ascii) :
  c ∉ cur -> c ∉ l -> Forall (fun p => c ∉ Js.chars p) (Js.split_chars sep cur l).
Proof.
  revert cur. induction l as [|d l IH]; intros cur Hcur Hl; cbn [Js.split_chars].
  - constructor; [|constructor]. rewrite chars_of_chars. by rewrite elem_of_rev.
  - assert (c ∉ l) as Hl' by (intros Hin; apply Hl; by right).
    assert (c <> d) as Hd by (intros ->; apply Hl; by left).
    destruct (Ascii.eqb d sep).
    + constructor; [rewrite chars_of_chars; by rewrite elem_of_rev|].
      apply IH; [by intros ?%elem_of_nil | done].
    + apply IH; [|done]. by intros [?|?]%elem_of_cons.
Qed.

Lemma split_chars_nonempty (sep : ascii) (cur l : list ascii) : Js.split_chars sep cur l <> [].
Proof.
  revert cur. induction l as [|d l IH]; intros cur; cbn [Js.split_chars]; [done|].
  destruct (Ascii.eqb d sep); [done | apply IH].
Qed.

Lemma revalidate_tags_built (tags : option (string + list string)) :
  Forall (fun t => "&"%char ∉ Js.chars t) (listed_tags tags) ->
  revalidate_tags (parse_tagging (Some (buildTagKeys tags))) = listed_tags tags.
Proof.
  destruct tags as [[s|l]|]; cbn [listed_tags]; [| |done].
  - destruct (Js.truthy s) eqn:Hs; [|unfold buildTagKeys; by rewrite Hs].
    assert (buildTagKeys (Some (inl s)) = buildTagKeys (Some (inr (Js.split s ",")))) as ->.
    { unfold buildTagKeys. rewrite Hs. destruct (Js.split s ",") eqn:Hsplit; [|done].
      by apply split_chars_nonempty in Hsplit. }
    intros Hall. apply revalidate_tags_of_list; [apply split_chars_nonempty | done].
  - destruct l as [|t l]; [done|]. intros Hall. by apply revalidate_tags_of_list.
Qed.

(** X18. The tags that [buildTagKeys] numbers are the tags that [revalidateTag]
    reads back from the tagging of the object, as long as none holds the
    [&] that separates the entries of a tagging: the array it was given, or
    the pieces of the text between the commas. The tagging text is empty
    exactly when there is no tag to number. *)
Theorem buildTagKeys_round_trip (tags : option (string + list string)) :
  Forall (fun t => "&"%char ∉ Js.chars t) (listed_tags tags) ->
  revalidate_tags (parse_tagging (Some (buildTagKeys tags))) = listed_tags tags
  /\ (buildTagKeys tags = "" <-> listed_tags tags = []).
Proof.
  intros Hall. split; [by apply revalidate_tags_built|].
  assert (forall l : list string, l <> [] ->
            Js.join "&" (imap (fun index tag => TAG_PREFIX +:+ pretty index +:+ "=" +:+ tag) l)
            <> "") as Hjoin.
  { intros [|t [|t' l]] Hl; [done| |]; cbn; discriminate. }
  destruct tags as [[s|l]|]; cbn [listed_tags buildTagKeys]; [| |done].
  - destruct (Js.truthy s); [|done].
    split; [intros Hempty | intros Hnone; by apply split_chars_nonempty in Hnone].
    by apply Hjoin in Hempty; [|apply split_chars_nonempty].
  - destruct l as [|t l]; [done|].
    split; [intros Hempty | done]. by apply Hjoin in Hempty.
Qed.

Lemma parse_tagging_truthy (s : string) :
  parse_tagging (if Js.truthy s then Some s else None) = parse_tagging (Some s).
Proof. by destruct s. Qed.

(** [set] as the wait for an array of puts, with the keys and the tags of
    the objects written. *)
Lemma set_as_tagged_puts (pageKey cacheKey : string) (data : CacheEntry) (ctx : CacheContext) :
  Forall (fun t => "&"%char ∉ Js.chars t) (entry_tags NEXT_CACHE_TAGS_HEADER data) ->
  exists inputs,
    set srv json NEXT_CACHE_TAGS_HEADER pageKey cacheKey data ctx
    = (let_await _ := Promise_all (map (putObject srv) inputs) in resolve tt)
    /\ map put_Key inputs
       = map (fun ext => (pageKey +:+ "/" +:+ cacheKey) +:+ "." +:+ ext) (set_extensions data ctx)
    /\ Forall (fun i => revalidate_tags (TagSet (object_of_put i))
                        = entry_tags NEXT_CACHE_TAGS_HEADER data) inputs.
Proof.
  unfold set, set_extensions, entry_tags, object_of_put. intros Hall.
  destruct (value data) as [[html pageData hs|body hs|d]|]; [destruct (isAppRouter ctx)| | |].
  - eexists [_; _; _]. split; [reflexivity|]. split; [done|].
    repeat constructor; cbn [TagSet put_Tagging]; rewrite parse_tagging_truthy;
      by apply revalidate_tags_built.
  - eexists [_; _]. split; [reflexivity|]. split; [done|].
    repeat constructor; cbn [TagSet put_Tagging]; rewrite parse_tagging_truthy;
      by apply revalidate_tags_built.
  - eexists [_]. split; [reflexivity|]. split; [done|].
    repeat constructor; cbn [TagSet put_Tagging]; rewrite parse_tagging_truthy;
      by apply revalidate_tags_built.
  - eexists [_]. split; [reflexivity|]. split; [done|].
    repeat constructor; cbn [TagSet put_Tagging].
    destruct (tags data) as [[|t ts]|]; [done| |done].
    by apply (revalidate_tags_built (Some (inr (t :: ts)))).
  - eexists [_]. split; [reflexivity|]. split; [done|].
    repeat constructor; cbn [TagSet put_Tagging].
    destruct (tags data) as [[|t ts]|]; [done| |done].
    by apply (revalidate_tags_built (Some (inr (t :: ts)))).
Qed.

Lemma after_puts_lookup (m : gmap string Object) (inputs : list PutObjectInput)
    (i : PutObjectInput) :
  NoDup (map put_Key inputs) -> i ∈ inputs ->
  after_puts m inputs !! put_Key i = Some (object_of_put i).
Proof.
  revert m. induction inputs as [|i0 inputs IH]; intros m Hnd Hin; [by apply elem_of_nil in Hin|].
  cbn [map] in Hnd. apply NoDup_cons in Hnd as [Hfresh Hnd].
  change (after_puts m (i0 :: inputs)) with (after_puts (<[put_Key i0 := object_of_put i0]> m) inputs).
  apply elem_of_cons in Hin as [->|Hin]; [|by apply IH].
  rewrite after_puts_untouched by done. apply lookup_insert_eq.
Qed.

Lemma set_keys_NoDup (base : string) (data : CacheEntry) (ctx : CacheContext) :
  NoDup (map (fun ext => base +:+ "." +:+ ext) (set_extensions data ctx)).
Proof.
  apply NoDup_fmap_2; [|apply set_extensions_NoDup].
  intros a b Hab. by apply String.app_inj, String.app_inj in Hab.
Qed.


Lemma set_written_tagged (pageKey cacheKey : string) (data : CacheEntry) (ctx : CacheContext)
    (w w1 : World) (ext : string) :
  Forall (fun t => "&"%char ∉ Js.chars t) (entry_tags NEXT_CACHE_TAGS_HEADER data) ->
  set srv json NEXT_CACHE_TAGS_HEADER pageKey cacheKey data ctx w = (Returned tt, w1) ->
  ext ∈ set_extensions data ctx ->
  exists i, objects w1 !! ((pageKey +:+ "/" +:+ cacheKey) +:+ "." +:+ ext)
            = Some (object_of_put i)
            /\ revalidate_tags (TagSet (object_of_put i)) = entry_tags NEXT_CACHE_TAGS_HEADER data.
Proof.
  intros Hall Hset Hext.
  destruct (set_as_tagged_puts pageKey cacheKey data ctx Hall) as (inputs & Hputs & Hkeys & Htags).
  rewrite Hputs in Hset. unfold await in Hset.
  destruct (Promise_all _ w) as [[l|e|] w'] eqn:Hrun; try done. injection Hset as ->.
  apply Promise_all_puts in Hrun as [Hobj _].
  assert (((pageKey +:+ "/" +:+ cacheKey) +:+ "." +:+ ext) ∈ map put_Key inputs) as Hin.
  { rewrite Hkeys. apply (list_elem_of_fmap_2 (fun ext => _ +:+ "." +:+ ext)). done. }
  apply list_elem_of_fmap in Hin as (i & Hkey & Hin).
  exists i. split; [|exact (proj1 (Forall_forall _ _) Htags i Hin)].
  rewrite Hobj, Hkey. apply after_puts_lookup; [|done]. rewrite Hkeys. apply set_keys_NoDup.
Qed.

(** X19. Every object that a [set] writes carries the tags of the entry: what
    [revalidateTag] reads from its tagging is the list of the tags (of the
    tags header for a PAGE or a ROUTE, of [tags] otherwise), as long as
    none holds an [&]. *)
Theorem set_stores_tags (pageKey cacheKey : string) (data : CacheEntry) (ctx : CacheContext)
    (w w1 : World) :
  Forall (fun t => "&"%char ∉ Js.chars t) (entry_tags NEXT_CACHE_TAGS_HEADER data) ->
  set srv json NEXT_CACHE_TAGS_HEADER pageKey cacheKey data ctx w = (Returned tt, w1) ->
  forall ext, ext ∈ set_extensions data ctx ->
    exists o, objects w1 !! ((pageKey +:+ "/" +:+ cacheKey) +:+ "." +:+ ext) = Some o
              /\ revalidate_tags (TagSet o) = entry_tags NEXT_CACHE_TAGS_HEADER data
              /\ forall tag, carries_tag (objects w1) tag ((pageKey +:+ "/" +:+ cacheKey) +:+ "." +:+ ext)
                             <-> tag ∈ entry_tags NEXT_CACHE_TAGS_HEADER data.
Proof.
  intros Hall Hset ext Hext.
  destruct (set_written_tagged pageKey cacheKey data ctx w w1 ext Hall Hset Hext)
    as (i & Hlook & Hi).
  exists (object_of_put i). split; [done|]. split; [done|].
  intros tag. unfold carries_tag. rewrite Hlook. split.
  - intros (o & [= <-] & Ho). rewrite Hi in Ho. by apply bool_decide_eq_true_1 in Ho.
  - intros Htag. exists (object_of_put i). split; [done|]. rewrite Hi.
    by apply bool_decide_eq_true_2.
Qed.

Lemma issue_all_puts_all_served (inputs : list PutObjectInput) (w : World) :
  (forall lg i, fault srv lg (PutObject i) = None) ->
  exists w1, issue_all (map (putObject srv) inputs) w
             = (Returned (map (fun _ => inr tt) inputs), w1).
Proof.
  intros Hserved. revert w. induction inputs as [|i inputs IH]; intros w; [by eexists|].
  cbn [map issue_all]. unfold await, settle. rewrite putObject_run, Hserved.
  destruct (IH {| objects := <[put_Key i := object_of_put i]> (objects w);
                  log := log w ++ [PutObject i] |}) as (w1 & ->).
  by eexists.
Qed.

Lemma first_rejection_none {A} (l : list A) :
  first_rejection (map inr l) = inr l.
Proof. induction l as [|a l IH]; [done|]. cbn [map first_rejection]. by rewrite IH. Qed.

(** When the writes are served, [set] returns. *)
Lemma set_served_returns (pageKey cacheKey : string) (data : CacheEntry) (ctx : CacheContext)
    (w : World) :
  (forall lg i, fault srv lg (PutObject i) = None) ->
  fst (set srv json NEXT_CACHE_TAGS_HEADER pageKey cacheKey data ctx w) = Returned tt.
Proof.
  intros Hserved.
  destruct (set_as_puts srv json NEXT_CACHE_TAGS_HEADER pageKey cacheKey data ctx)
    as (front & ijson & -> & _).
  unfold Promise_all, await.
  destruct (issue_all_puts_all_served (front ++ [ijson]) w Hserved) as (w1 & ->).
  rewrite <- (map_map (fun _ => tt) inr), first_rejection_none. done.
Qed.

Lemma set_keeps_no_empty_key (pageKey cacheKey : string) (data : CacheEntry) (ctx : CacheContext)
    (w w1 : World) :
  set srv json NEXT_CACHE_TAGS_HEADER pageKey cacheKey data ctx w = (Returned tt, w1) ->
  objects w1 !! "" = objects w !! "".
Proof.
  intros Hset.
  destruct (set_as_puts srv json NEXT_CACHE_TAGS_HEADER pageKey cacheKey data ctx)
    as (front & ijson & Hputs & _ & _ & Hkeys).
  rewrite Hputs in Hset. unfold await in Hset.
  destruct (Promise_all _ w) as [[l|e|] w'] eqn:Hrun; try done. injection Hset as ->.
  apply Promise_all_puts in Hrun as [-> _]. apply after_puts_untouched.
  rewrite Hkeys. intros (ext & Hext & _)%list_elem_of_fmap.
  apply (f_equal (fun s => length (Js.chars s))) in Hext.
  rewrite !chars_app, !length_app in Hext. simpl in Hext. lia.
Qed.

Lemma json_in_set_extensions (data : CacheEntry) (ctx : CacheContext) :
  "json" ∈ set_extensions data ctx.
Proof.
  unfold set_extensions.
  destruct (value data) as [[html pageData hs|body hs|d]|]; [destruct (isAppRouter ctx)| | |];
    set_solver.
Qed.

Hypothesis positive_pages : 0 < MaxKeys srv.
Hypothesis all_served : forall lg req, fault srv lg req = None.

(** X20. An entry written under a tag is gone after the invalidation of the
    tag: on a service that serves its requests, [set] returns, a
    [revalidateTag] without filter on one of the tags of the entry
    returns, given enough fuel, none of the objects that [set] wrote is left
    and [get] returns [null]. *)
Theorem set_then_revalidateTag (pageKey cacheKey tag : string) (data : CacheEntry)
    (ctx : CacheContext) (w : World) :
  objects w !! "" = None ->
  Forall (fun t => "&"%char ∉ Js.chars t) (entry_tags NEXT_CACHE_TAGS_HEADER data) ->
  tag ∈ entry_tags NEXT_CACHE_TAGS_HEADER data ->
  exists n, forall fuel, n <= fuel ->
    exists w1 w2,
      set srv json NEXT_CACHE_TAGS_HEADER pageKey cacheKey data ctx w = (Returned tt, w1)
      /\ revalidateTag srv fuel tag (Some ctx) [] w1 = (Returned tt, w2)
      /\ (forall ext, ext ∈ set_extensions data ctx ->
            objects w2 !! ((pageKey +:+ "/" +:+ cacheKey) +:+ "." +:+ ext) = None)
      /\ fst (get srv json pageKey cacheKey w2) = Returned None.
Proof.
  intros Hempty Hall Htag.
  pose proof (set_served_returns pageKey cacheKey data ctx w (fun lg i => all_served lg _)) as Hret.
  destruct (set srv json NEXT_CACHE_TAGS_HEADER pageKey cacheKey data ctx w) as [r w1] eqn:Hset.
  cbn [fst] in Hret. subst r.
  assert (objects w1 !! "" = None) as Hempty1
    by (by rewrite (set_keeps_no_empty_key _ _ _ _ _ _ Hset)).
  exists (S (length (pending (objects w1) None None None))). intros fuel Hle.
  destruct (revalidateTag_served_run srv positive_pages (fun lg tok => all_served lg _)
              (fun lg k => all_served lg _) (fun lg ks => all_served lg _)
              tag (Some ctx) [] w1 fuel Hempty1 Hle) as [Hrun Hobj].
  destruct (revalidateTag srv fuel tag (Some ctx) [] w1) as [r w2] eqn:Hrev.
  cbn [fst snd] in Hrun, Hobj. subst r.
  exists w1, w2. split; [done|]. split; [done|].
  assert (forall ext, ext ∈ set_extensions data ctx ->
            objects w2 !! ((pageKey +:+ "/" +:+ cacheKey) +:+ "." +:+ ext) = None) as Hgone.
  { intros ext Hext. rewrite Hobj.
    destruct (set_written_tagged pageKey cacheKey data ctx w w1 ext Hall Hset Hext)
      as (i & Hlook & Hi).
    unfold scan_keeps, tagged_with. rewrite Hlook, Hi. cbn [nonempty andb negb].
    unfold Js.includes. by rewrite bool_decide_eq_true_2. }
  split; [exact Hgone|].
  rewrite get_by_read, getObject_run, all_served.
  replace (pageKey +:+ "/" +:+ cacheKey +:+ ".json")
    with ((pageKey +:+ "/" +:+ cacheKey) +:+ "." +:+ "json") by (by rewrite !string_app_assoc).
  by rewrite (Hgone "json" (json_in_set_extensions data ctx)).
Qed.

End TaggedWrites.

Lemma buildTagKeys_round_trip_witness :
  S3CacheTagging.revalidate_tags
    (S3.parse_tagging (Some (S3CacheTagging.buildTagKeys (Some (inl "news,sports=live")))))
  = listed_tags (Some (inl "news,sports=live"))
  /\ (S3CacheTagging.buildTagKeys (Some (inl "news,sports=live")) = ""
      <-> listed_tags (Some (inl "news,sports=live")) = []).
Proof.
  apply (buildTagKeys_round_trip (Some (inl "news,sports=live"))).
  repeat constructor; apply (bool_decide_unpack _); by vm_compute.
Defined.

Lemma set_stores_tags_witness :
  let data := {| value := Some (FETCH "{}"); lastModified := 0; revalidate := None;
                 tags := Some ["news"; "sports"] |} in
  let w1 := snd (S3CacheTagging.set quiet sample_codec "x-next-cache-tags" "/blog" "k" data
                   (mkCtx false "") empty_bucket) in
  exists o, S3.objects w1 !! (("/blog" +:+ "/" +:+ "k") +:+ "." +:+ "json") = Some o
            /\ S3CacheTagging.revalidate_tags (S3.TagSet o) = entry_tags "x-next-cache-tags" data
            /\ forall tag, S3CacheTagging.carries_tag (S3.objects w1) tag
                             (("/blog" +:+ "/" +:+ "k") +:+ "." +:+ "json")
                           <-> tag ∈ entry_tags "x-next-cache-tags" data.
Proof.
  intros data w1.
  apply (set_stores_tags quiet sample_codec "x-next-cache-tags" "/blog" "k" data (mkCtx false "")
           empty_bucket w1).
  - repeat constructor; apply (bool_decide_unpack _); by vm_compute.
  - reflexivity.
  - apply (bool_decide_unpack _). by vm_compute.
Defined.

Lemma set_then_revalidateTag_witness :
  let data := {| value := Some (FETCH "{}"); lastModified := 0; revalidate := None;
                 tags := Some ["news"; "sports"] |} in
  exists n, forall fuel, n <= fuel ->
    exists w1 w2,
      S3CacheTagging.set quiet sample_codec "x-next-cache-tags" "/blog" "k" data (mkCtx false "")
        blog_bucket = (Returned tt, w1)
      /\ S3CacheTagging.revalidateTag quiet fuel "sports" (Some (mkCtx false "")) [] w1
         = (Returned tt, w2)
      /\ (forall ext, ext ∈ set_extensions data (mkCtx false "") ->
            S3.objects w2 !! (("/blog" +:+ "/" +:+ "k") +:+ "." +:+ ext) = None)
      /\ fst (S3CacheTagging.get quiet sample_codec "/blog" "k" w2) = Returned None.
Proof.
  intros data.
  apply (set_then_revalidateTag quiet sample_codec "x-next-cache-tags"); [simpl; lia | done | | |].
  - by vm_compute.
  - repeat constructor; apply (bool_decide_unpack _); by vm_compute.
  - apply (bool_decide_unpack _). by vm_compute.
Defined.

Section PendingKeys.
Import S3.

Lemma pending_elem_iff (m : gmap string Object) (token P D : option string) (k : string) :
  k ∈ pending m token P D
  <-> is_Some (m !! k) /\ after token k = true /\ listed_under P D k = true.
Proof.
  split.
  - intros (? & ? & ?)%pending_elem. done.
  - intros ([o Ho] & Ha & Hl). unfold pending. apply list_elem_of_filter. split.
    + by rewrite Ha, Hl.
    + unfold sorted_keys. rewrite merge_sort_Permutation.
      apply list_elem_of_fmap. exists (k, o). split; [done|]. by apply elem_of_map_to_list.
Qed.

Lemma pending_NoDup (m : gmap string Object) (token P D : option string) :
  NoDup (pending m token P D).
Proof. unfold pending. apply NoDup_filter, sorted_keys_NoDup. Qed.

(** The keys still to list depend only on the keys of the bucket after the
    token. *)
Lemma pending_ext (m1 m2 : gmap string Object) (token P D : option string) :
  (forall k, after token k = true -> is_Some (m1 !! k) <-> is_Some (m2 !! k)) ->
  pending m1 token P D = pending m2 token P D.
Proof.
  intros Hsame.
  apply (StronglySorted_unique_strong (fun a b => String.ltb a b = true)).
  - intros x1 x2 _ _ H12 H21. by rewrite (string_ltb_asym _ _ H12) in H21.
  - apply pending_increasing.
  - apply pending_increasing.
  - apply NoDup_Permutation; [apply pending_NoDup..|].
    intros k. rewrite !pending_elem_iff. split; intros (Hk & Ha & Hl);
      (split; [by apply (Hsame k Ha) | done]).
Qed.

(** The keys of a page are not after its continuation token. *)
Lemma list_page_before_token (n : nat) (m : gmap string Object) (token P D : option string)
    (t' k : string) :
  NextContinuationToken (list_page n m token P D) = Some t' ->
  k ∈ take n (pending m token P D) ->
  after (Some t') k = false.
Proof.
  intros Hnext Hk. pose proof (list_page_next _ _ _ _ _ _ Hnext) as Hrest.
  destruct (after (Some t') k) eqn:Hafter; [|done]. exfalso.
  assert (k ∈ pending m (Some t') P D) as Hin.
  { apply pending_elem_iff.
    assert (k ∈ pending m token P D) as Hk' by (by apply (subseteq_take n)).
    apply pending_elem_iff in Hk' as (? & _ & ?). done. }
  rewrite Hrest in Hin.
  pose proof (pending_NoDup m token P D) as Hnd.
  rewrite <- (take_drop n (pending m token P D)) in Hnd.
  apply NoDup_app in Hnd as (_ & Hdisj & _). by apply (Hdisj k).
Qed.

End PendingKeys.

Section MetadataDeletes.
Import S3 S3CacheMetadata.
Variable srv : Service.

Lemma deleteObject_run (k : string) (w : World) :
  deleteObject srv k w
  = match fault srv (log w) (DeleteObject k) with
    | Some e => (Thrown e, {| objects := objects w; log := log w ++ [DeleteObject k] |})
    | None => (Returned tt, {| objects := base.delete k (objects w);
                               log := log w ++ [DeleteObject k] |})
    end.
Proof. unfold deleteObject, send. by destruct (fault srv (log w) _). Qed.

(** One turn of the loop deletes the listed key or nothing. *)
Lemma delete_listed_lookup (key : string) (w : World) (k : string) :
  objects (snd (delete_listed srv {| Key := Some key |} w)) !! k = objects w !! k
  \/ (k = key /\ has_dotted_extension key = true).
Proof.
  unfold delete_listed, has_dotted_extension. cbn [Key].
  destruct (negb (Js.truthy key)); [by left|].
  destruct (Js.endsWith key ".json" || Js.endsWith key ".html"); [|by left].
  rewrite deleteObject_run. destruct (fault srv (log w) _); [by left|]. cbn [snd objects].
  destruct (decide (k = key)) as [->|Hne]; [by right|]. left. by apply lookup_delete_ne.
Qed.

Lemma for_of_delete_listed_lookup (ks : list string) (w : World) (k : string) :
  objects (snd (for_of (map (fun k => {| Key := Some k |}) ks) (delete_listed srv) w)) !! k
  = objects w !! k
  \/ (k ∈ ks /\ has_dotted_extension k = true).
Proof.
  revert w. induction ks as [|k0 ks IH]; intros w; [by left|].
  cbn [map for_of]. unfold await.
  destruct (delete_listed_lookup k0 w k) as [Hsame|[-> Hext]]; [|right; split; [by left|done]].
  destruct (delete_listed srv {| Key := Some k0 |} w) as [[[]|e|] w1]; cbn [snd] in *;
    [|by left..].
  destruct (IH w1) as [Hsame'|[Hin Hext]]; [left; by rewrite Hsame'|].
  right. split; [by right|done].
Qed.

(** X21. [deleteAllByKeyMatch] of the first class removes nothing but objects
    listed under [pageKey/] whose key ends in [.json] or [.html], whatever
    the service answers and however long the loop runs. *)
Theorem deleteAllByKeyMatch_spares (fuel : nat) (pageKey : string) (w : World) (k : string) :
  listed_under (Some (pageKey +:+ "/")) (Some "/") k && has_dotted_extension k = false ->
  objects (snd (deleteAllByKeyMatch srv fuel pageKey w)) !! k = objects w !! k.
Proof.
  intros Hk. unfold deleteAllByKeyMatch. generalize (@None string). revert w.
  induction fuel as [|fuel IH]; intros w token; [done|].
  cbn [deleteAllByKeyMatch_loop]. unfold await at 1. rewrite listObjectsV2_run.
  destruct (fault srv (log w) _); [done|]. rewrite list_page_keys.
  set (w1 := {| objects := objects w; log := _ |}).
  set (page := take (MaxKeys srv) (pending (objects w) token (Some (pageKey +:+ "/")) (Some "/"))).
  assert (objects (snd (for_of (map (fun k => {| Key := Some k |}) page) (delete_listed srv) w1))
            !! k = objects w !! k) as Hturn.
  { destruct (for_of_delete_listed_lookup page w1 k) as [H|[Hin Hext]]; [done|]. exfalso.
    apply (subseteq_take (MaxKeys srv)), pending_elem in Hin as (Hl & _).
    by rewrite Hl, Hext in Hk. }
  unfold await.
  destruct (for_of _ (delete_listed srv) w1) as [[[]|e|] w2]; cbn [snd] in *; [|done..].
  destruct (more _); [|done]. by rewrite IH.
Qed.

Hypothesis positive_pages : 0 < MaxKeys srv.
Hypothesis all_served : forall lg req, fault srv lg req = None.

Lemma for_of_delete_listed_served (ks : list string) (w : World) :
  Forall (fun k => k <> "") ks ->
  exists w',
    for_of (map (fun k => {| Key := Some k |}) ks) (delete_listed srv) w = (Returned tt, w')
    /\ forall k, objects w' !! k
                 = if bool_decide (k ∈ filter (fun k => Is_true (has_dotted_extension k)) ks)
                   then None else objects w !! k.
Proof.
  intros Hall. revert w. induction Hall as [|k0 ks Hk0 Hall IH]; intros w.
  - exists w. split; [done|]. intros k. by rewrite bool_decide_eq_false_2 by (by intros ?%elem_of_nil).
  - cbn [map for_of]. unfold await, delete_listed at 1. cbn [Key].
    assert (Js.truthy k0 = true) as -> by (by destruct k0). cbn [negb].
    fold (has_dotted_extension k0).
    destruct (has_dotted_extension k0) eqn:Hext.
    + rewrite deleteObject_run, all_served.
      destruct (IH {| objects := base.delete k0 (objects w); log := log w ++ [DeleteObject k0] |})
        as (w' & -> & Hobj).
      exists w'. split; [done|]. intros k. rewrite Hobj. cbn [objects].
      rewrite filter_cons_True by (by rewrite Hext).
      destruct (decide (k = k0)) as [->|Hne].
      * rewrite lookup_delete_eq, (bool_decide_eq_true_2 (k0 ∈ k0 :: _)) by (by left).
        by destruct (bool_decide _).
      * rewrite lookup_delete_ne by done. apply (f_equal (fun b : bool => if b then _ else _)).
        apply bool_decide_ext. rewrite elem_of_cons.
        split; [intros Hin; by right | by intros [?|Hin]].
    + unfold resolve at 1. destruct (IH w) as (w' & -> & Hobj).
      exists w'. split; [done|]. intros k. rewrite Hobj.
      by rewrite filter_cons_False by (rewrite Hext; by intros []).
Qed.

Lemma deleteAllByKeyMatch_loop_exact (fuel : nat) (pageKey : string) (token : option string)
    (w : World) :
  length (pending (objects w) token (Some (pageKey +:+ "/")) (Some "/")) < fuel ->
  exists w',
    deleteAllByKeyMatch_loop srv fuel pageKey token w = (Returned tt, w')
    /\ forall k, objects w' !! k
                 = if bool_decide (k ∈ filter (fun k => Is_true (has_dotted_extension k))
                                         (pending (objects w) token (Some (pageKey +:+ "/"))
                                            (Some "/")))
                   then None else objects w !! k.
Proof.
  revert token w. induction fuel as [|fuel IH]; intros token w Hlen; [lia|].
  cbn [deleteAllByKeyMatch_loop]. unfold await at 1. rewrite listObjectsV2_run, all_served.
  rewrite list_page_keys.
  set (P := Some (pageKey +:+ "/")) in *. set (D := Some "/") in *.
  set (ks := pending (objects w) token P D) in *.
  set (w1 := {| objects := objects w; log := _ |}).
  assert (forall k, k ∈ ks -> k <> "") as Hnonempty.
  { intros k (Hl & _)%pending_elem ->. apply listed_under_startsWith in Hl.
    unfold Js.startsWith in Hl. apply bool_decide_eq_true_1 in Hl.
    rewrite chars_app in Hl. destruct Hl as [rest Hl].
    apply (f_equal length) in Hl. rewrite !length_app in Hl. simpl in Hl. lia. }
  destruct (for_of_delete_listed_served (take (MaxKeys srv) ks) w1) as (w2 & Hturn & Hobj2).
  { apply Forall_forall. intros k Hk. by apply Hnonempty, (subseteq_take (MaxKeys srv)). }
  unfold await. rewrite Hturn.
  destruct (NextContinuationToken (list_page (MaxKeys srv) (objects w) token P D))
    as [t'|] eqn:Hnext.
  - pose proof (list_page_progress _ _ _ _ _ _ Hnext) as Hprogress.
    pose proof (list_page_next _ _ _ _ _ _ Hnext) as Hrest. fold ks in Hprogress, Hrest.
    assert (more (Some t') = true) as ->.
    { assert (t' ∈ ks) as Hin.
      { unfold list_page in Hnext. simpl in Hnext. fold ks in Hnext.
        destruct (MaxKeys srv <? length ks)%nat; [|done].
        apply last_Some in Hnext as [l1 Hl1]. apply (subseteq_take (MaxKeys srv)).
        rewrite Hl1. apply elem_of_app. right. by left. }
      apply Hnonempty in Hin. by destruct t'. }
    assert (pending (objects w2) (Some t') P D = drop (MaxKeys srv) ks) as Hpending.
    { rewrite <- Hrest. apply pending_ext. intros k Hafter. rewrite Hobj2.
      rewrite bool_decide_eq_false_2; [done|].
      intros [_ Hin]%list_elem_of_filter.
      by rewrite (list_page_before_token _ _ _ _ _ _ _ Hnext Hin) in Hafter. }
    rewrite Hrest in Hprogress.
    destruct (IH (Some t') w2) as (w' & Hrun & Hobj); [fold P D; rewrite Hpending; lia|].
    fold P D in Hobj.
    exists w'. split; [done|]. intros k. rewrite Hobj, Hpending, Hobj2.
    assert (filter (fun k => Is_true (has_dotted_extension k)) ks
            = filter (fun k => Is_true (has_dotted_extension k)) (take (MaxKeys srv) ks)
              ++ filter (fun k => Is_true (has_dotted_extension k)) (drop (MaxKeys srv) ks))
      as -> by (by rewrite <- filter_app, take_drop).
    destruct (bool_decide (k ∈ filter _ (drop _ ks))) eqn:Hd.
    + apply bool_decide_eq_true_1 in Hd.
      by rewrite (bool_decide_eq_true_2 (k ∈ _ ++ _)) by (apply elem_of_app; by right).
    + apply bool_decide_eq_false_1 in Hd. apply (f_equal (fun b : bool => if b then _ else _)).
      apply bool_decide_ext. rewrite elem_of_app.
      split; [intros Hin; by left | by intros [?|?]].
  - pose proof (list_page_last _ _ _ _ _ positive_pages Hnext) as Hlast. fold ks in Hlast.
    cbn [more]. exists w2. split; [done|]. intros k. by rewrite Hobj2, Hlast.
Qed.

(** X22. On a service that serves its requests, [deleteAllByKeyMatch] of the
    first class returns, given enough fuel, and the objects gone are
    exactly those listed under [pageKey/] (no further slash in the key)
    whose key ends in [.json] or [.html]. The deletes of a page are made
    before the next page is listed. *)
Theorem deleteAllByKeyMatch_metadata_exact (pageKey : string) (w : World) :
  exists n, forall fuel, n <= fuel ->
    fst (deleteAllByKeyMatch srv fuel pageKey w) = Returned tt
    /\ forall k,
         objects (snd (deleteAllByKeyMatch srv fuel pageKey w)) !! k
         = if listed_under (Some (pageKey +:+ "/")) (Some "/") k && has_dotted_extension k
           then None else objects w !! k.
Proof.
  exists (S (length (pending (objects w) None (Some (pageKey +:+ "/")) (Some "/")))).
  intros fuel Hle. unfold deleteAllByKeyMatch.
  destruct (deleteAllByKeyMatch_loop_exact fuel pageKey None w) as (w' & -> & Hobj); [lia|].
  split; [done|]. intros k. cbn [snd]. rewrite Hobj.
  destruct (listed_under _ _ k && has_dotted_extension k) eqn:Htest.
  - apply andb_true_iff in Htest as [Hl Hext].
    destruct (objects w !! k) as [o|] eqn:Hk; [|by destruct (bool_decide _)].
    rewrite bool_decide_eq_true_2; [done|]. apply list_elem_of_filter. split; [by rewrite Hext|].
    apply pending_all. split; [by exists o | done].
  - rewrite bool_decide_eq_false_2; [done|].
    intros [Hext Hin]%list_elem_of_filter. apply pending_elem in Hin as (Hl & _).
    apply Is_true_true in Hext. by rewrite Hl, Hext in Htest.
Qed.

End MetadataDeletes.

Lemma deleteAllByKeyMatch_spares_witness :
  S3.objects (snd (S3CacheMetadata.deleteAllByKeyMatch quiet 5 "/blog" blog_bucket))
    !! "/news/c.json"
  = S3.objects blog_bucket !! "/news/c.json".
Proof.
  apply (deleteAllByKeyMatch_spares quiet 5 "/blog" blog_bucket "/news/c.json").
  by vm_compute.
Defined.

Lemma deleteAllByKeyMatch_metadata_exact_witness :
  exists n, forall fuel, n <= fuel ->
    fst (S3CacheMetadata.deleteAllByKeyMatch quiet fuel "/blog" blog_bucket) = Returned tt
    /\ forall k,
         S3.objects (snd (S3CacheMetadata.deleteAllByKeyMatch quiet fuel "/blog" blog_bucket)) !! k
         = if S3.listed_under (Some ("/blog" +:+ "/")) (Some "/") k && has_dotted_extension k
           then None else S3.objects blog_bucket !! k.
Proof.
  apply (deleteAllByKeyMatch_metadata_exact quiet); [simpl; lia | done].
Defined.

Section MetadataEntries.
Import S3 S3CacheMetadata.
Variable srv : Service.
Variable json : JsonCodec.

Lemma get_metadata_by_read (pageKey cacheKey : string) (w : World) :
  get srv json pageKey cacheKey w
  = match getObject srv (pageKey +:+ "/" +:+ cacheKey +:+ ".json") w with
    | (Returned out, w1) =>
        (match out_Body out with
         | Some body =>
             match JSON_parse json body with
             | inl e => Thrown e
             | inr d => Returned (Some d)
             end
         | None => Returned None
         end, w1)
    | (Thrown e, w1) =>
        (if Js.includes NOT_FOUND_ERROR (name e) then Returned None else Thrown e, w1)
    | (OutOfFuel, w1) => (OutOfFuel, w1)
    end.
Proof.
  unfold get, catch, await.
  destruct (getObject srv _ w) as [[[[body|] md]|e|] w1]; simpl; try reflexivity.
  - by destruct (JSON_parse json body).
  - unfold swallow_not_found. by destruct (Js.includes NOT_FOUND_ERROR (name e)).
Qed.

Lemma dotted_keys_differ (base : string) : base +:+ ".html" <> base +:+ ".json".
Proof. by intros ?%String.app_inj. Qed.

(** The [.json] object of a [set] of the first class. *)
Lemma set_metadata_json (pageKey cacheKey : string) (data : CacheEntry) (w : World) :
  let key := pageKey +:+ "/" +:+ cacheKey +:+ ".json" in
  let run := set srv json pageKey cacheKey data w in
  (fst run = Returned tt ->
     (exists o, objects (snd run) !! key = Some o
                /\ Body o = Some (JSON_stringify json data)
                /\ Metadata o !! "tags"
                   = match tags data with
                     | Some (t :: ts) => Some (Js.join "," (t :: ts))
                     | _ => None
                     end)
     /\ (fault srv (log (snd run)) (GetObject key) = None ->
         fst (get srv json pageKey cacheKey (snd run))
         = match JSON_parse json (JSON_stringify json data) with
           | inl e => Thrown e
           | inr d => Returned (Some d)
           end))
  /\ (forall e, fst run = Thrown e -> objects (snd run) !! key = objects w !! key).
Proof.
  intros key run. subst run. unfold set.
  set (md := match tags data with
             | Some ((_ :: _) as ts) => Some ({[ "tags" := Js.join TAGS_SEPARATOR ts ]} : gmap string string)
             | _ => None
             end).
  set (ihtml := fun html => {| put_Key := (pageKey +:+ "/" +:+ cacheKey) +:+ ".html"; put_Body := html;
                   put_ContentType := None; put_CacheControl := None; put_Tagging := None;
                   put_Metadata := md |}).
  set (ijson := {| put_Key := (pageKey +:+ "/" +:+ cacheKey) +:+ ".json";
                   put_Body := JSON_stringify json data;
                   put_ContentType := None; put_CacheControl := None; put_Tagging := None;
                   put_Metadata := md |}).
  assert (key = put_Key ijson) as Hkey
    by (subst key ijson; cbn [put_Key]; by rewrite !string_app_assoc).
  assert (Metadata (object_of_put ijson) !! "tags"
          = match tags data with
            | Some (t :: ts) => Some (Js.join "," (t :: ts))
            | _ => None
            end) as Hmd.
  { subst md. cbn. destruct (tags data) as [[|t ts]|]; [done| |done].
    cbn. apply lookup_singleton_eq. }
  assert (forall w0 : World,
            let run := putObject srv ijson w0 in
            (fst run = Returned tt ->
               (exists o, objects (snd run) !! key = Some o
                          /\ Body o = Some (JSON_stringify json data)
                          /\ Metadata o !! "tags"
                             = match tags data with
                               | Some (t :: ts) => Some (Js.join "," (t :: ts))
                               | _ => None
                               end)
               /\ (fault srv (log (snd run)) (GetObject key) = None ->
                   fst (get srv json pageKey cacheKey (snd run))
                   = match JSON_parse json (JSON_stringify json data) with
                     | inl e => Thrown e
                     | inr d => Returned (Some d)
                     end))
            /\ (forall e, fst run = Thrown e -> objects (snd run) !! key = objects w0 !! key))
    as Hjson.
  { intros w0 run. subst run. rewrite putObject_run.
    destruct (fault srv (log w0) (PutObject ijson)) as [e|]; cbn [fst snd objects log].
    - split; [done|]. done.
    - split; [|done]. intros _. split.
      + exists (object_of_put ijson). rewrite Hkey, lookup_insert_eq. done.
      + intros Hread. rewrite get_metadata_by_read. fold key. rewrite getObject_run.
        cbn [log objects]. rewrite Hread, Hkey, lookup_insert_eq. done. }
  destruct (value data) as [[html pageData hs|body hs|d]|]; unfold await;
    try (unfold resolve at 1; apply Hjson).
  fold (ihtml html). rewrite putObject_run.
  destruct (fault srv (log w) (PutObject (ihtml html))) as [e|].
  - cbn [fst snd objects]. split; [done|]. done.
  - set (w0 := {| objects := _; log := _ |}). destruct (Hjson w0) as [Hret Hthrown].
    fold ijson. split; [exact Hret|]. intros e He. rewrite (Hthrown e He).
    subst w0. cbn [objects]. rewrite Hkey. apply lookup_insert_ne, dotted_keys_differ.
Qed.

(** X23. [set] of the first class writes one object after the other: for a
    PAGE the [.html] object with the page's [html], then the [.json]
    object; for any other entry the [.json] object alone. A rejected
    [.html] put ends the call before the [.json] put is sent; a served one
    stays in the bucket whatever becomes of the [.json] put. When [set]
    returns, the [.json] object holds the JSON text of the entry and the
    joined tags of the entry as its [tags] metadata (the [.html] object has
    the same metadata), and a [get] that the service serves returns what
    [JSON.parse] makes of that text. When it throws, the [.json] object is
    as it was before the call. *)
Theorem set_metadata_then_get (pageKey cacheKey : string) (data : CacheEntry) (w : World) :
  let key := pageKey +:+ "/" +:+ cacheKey +:+ ".json" in
  let html_key := pageKey +:+ "/" +:+ cacheKey +:+ ".html" in
  let tags_metadata := match tags data with
                       | Some (t :: ts) => Some (Js.join "," (t :: ts))
                       | _ => None
                       end in
  let run := set srv json pageKey cacheKey data w in
  (fst run = Returned tt ->
     (exists o, objects (snd run) !! key = Some o
                /\ Body o = Some (JSON_stringify json data)
                /\ Metadata o !! "tags" = tags_metadata)
     /\ (fault srv (log (snd run)) (GetObject key) = None ->
         fst (get srv json pageKey cacheKey (snd run))
         = match JSON_parse json (JSON_stringify json data) with
           | inl e => Thrown e
           | inr d => Returned (Some d)
           end))
  /\ (forall e, fst run = Thrown e -> objects (snd run) !! key = objects w !! key)
  /\ match value data with
     | Some (PAGE html _ _) =>
         exists ih ij,
           put_Key ih = html_key /\ put_Body ih = html
           /\ put_Key ij = key /\ put_Body ij = JSON_stringify json data
           /\ match fault srv (log w) (PutObject ih) with
              | Some e =>
                  fst run = Thrown e
                  /\ log (snd run) = log w ++ [PutObject ih]
                  /\ objects (snd run) = objects w
              | None =>
                  log (snd run) = log w ++ [PutObject ih; PutObject ij]
                  /\ exists oh, objects (snd run) !! html_key = Some oh
                                /\ Body oh = Some html
                                /\ Metadata oh !! "tags" = tags_metadata
              end
     | _ =>
         exists ij,
           put_Key ij = key /\ put_Body ij = JSON_stringify json data
           /\ log (snd run) = log w ++ [PutObject ij]
           /\ objects (snd run) !! html_key = objects w !! html_key
     end.
Proof.
  intros key html_key tags_metadata run.
  destruct (set_metadata_json pageKey cacheKey data w) as [Hreturned Hthrown].
  split; [exact Hreturned|]. split; [exact Hthrown|]. clear Hreturned Hthrown.
  subst run. unfold set.
  set (md := match tags data with
             | Some ((_ :: _) as ts) => Some ({[ "tags" := Js.join TAGS_SEPARATOR ts ]} : gmap string string)
             | _ => None
             end).
  set (ijson := {| put_Key := (pageKey +:+ "/" +:+ cacheKey) +:+ ".json";
                   put_Body := JSON_stringify json data;
                   put_ContentType := None; put_CacheControl := None; put_Tagging := None;
                   put_Metadata := md |}).
  assert (put_Key ijson = key) as Hkey
    by (subst key ijson; cbn [put_Key]; by rewrite !string_app_assoc).
  assert (key <> html_key) as Hne.
  { subst key html_key. intros Heq. rewrite <- !string_app_assoc in Heq.
    by apply String.app_inj in Heq. }
  assert (forall w0 : World,
            log (snd (putObject srv ijson w0)) = log w0 ++ [PutObject ijson]
            /\ objects (snd (putObject srv ijson w0)) !! html_key = objects w0 !! html_key)
    as Hjson.
  { intros w0. rewrite putObject_run. destruct (fault srv (log w0) _); cbn [snd log objects];
      [done|]. split; [done|]. rewrite Hkey. by apply lookup_insert_ne. }
  destruct (value data) as [[html pageData hs|body hs|d]|]; unfold await;
    try (unfold resolve at 1; cbv beta iota; exists ijson;
         split; [exact Hkey|]; split; [done|]; apply Hjson).
  set (ihtml := {| put_Key := (pageKey +:+ "/" +:+ cacheKey) +:+ ".html"; put_Body := html;
                   put_ContentType := None; put_CacheControl := None; put_Tagging := None;
                   put_Metadata := md |}).
  assert (put_Key ihtml = html_key) as Hhtml
    by (subst html_key ihtml; cbn [put_Key]; by rewrite !string_app_assoc).
  exists ihtml, ijson. split; [exact Hhtml|]. split; [done|]. split; [exact Hkey|].
  split; [done|].
  rewrite putObject_run. destruct (fault srv (log w) (PutObject ihtml)) as [e|]; [done|].
  set (w0 := {| objects := _; log := _ |}). destruct (Hjson w0) as [Hlog Hobj].
  split; [rewrite Hlog; subst w0; cbn [log]; by rewrite <- app_assoc|].
  exists (object_of_put ihtml). rewrite Hobj. subst w0. cbn [objects].
  rewrite Hhtml, lookup_insert_eq. split; [done|]. split; [done|].
  subst md tags_metadata. cbn. destruct (tags data) as [[|t ts]|]; [done| |done].
  cbn. apply lookup_singleton_eq.
Qed.

(** X24. [delete] of the first class never throws a not-found error: a delete
    rejected with [NotFound] or [NoSuchKey] counts as done. When it returns
    and the delete of the [.json] object was served, that object is gone
    and a [get] that the service serves returns [null]. *)
Theorem delete_metadata_then_get (pageKey cacheKey : string) (w : World) :
  let key := pageKey +:+ "/" +:+ cacheKey +:+ ".json" in
  let run := delete srv pageKey cacheKey w in
  (forall e, fst run = Thrown e -> name e ∉ NOT_FOUND_ERROR)
  /\ fst run <> OutOfFuel
  /\ (fst run = Returned tt ->
      fault srv (log w) (DeleteObject key) = None ->
      objects (snd run) !! key = None
      /\ (fault srv (log (snd run)) (GetObject key) = None ->
          fst (get srv json pageKey cacheKey (snd run)) = Returned None)).
Proof.
  intros key run. subst run.
  assert (forall e, Js.includes NOT_FOUND_ERROR (name e) = false -> name e ∉ NOT_FOUND_ERROR)
    as Hnot by (intros e He; by apply bool_decide_eq_false_1 in He).
  assert (forall w1 : World, objects w1 !! key = None ->
            fault srv (log w1) (GetObject key) = None ->
            fst (get srv json pageKey cacheKey w1) = Returned None) as Hget.
  { intros w1 Hgone Hread. rewrite get_metadata_by_read. fold key.
    by rewrite getObject_run, Hread, Hgone. }
  set (khtml := pageKey +:+ "/" +:+ cacheKey +:+ ".html").
  assert (forall m : gmap string Object, base.delete khtml (base.delete key m) !! key = None)
    as Hgone.
  { intros m. destruct (decide (khtml = key)) as [->|Hne]; [apply lookup_delete_eq|].
    rewrite lookup_delete_ne by done. apply lookup_delete_eq. }
  destruct (delete srv pageKey cacheKey w) as [r w1] eqn:Hrun. cbn [fst snd].
  unfold delete, catch, await in Hrun. fold key khtml in Hrun.
  rewrite deleteObject_run in Hrun.
  destruct (fault srv (log w) (DeleteObject key)) as [e1|] eqn:Hf1.
  - unfold swallow_not_found at 1 in Hrun.
    destruct (Js.includes NOT_FOUND_ERROR (name e1)) eqn:Hn1.
    + unfold resolve at 1 in Hrun. rewrite deleteObject_run in Hrun. cbn [log objects] in Hrun.
      destruct (fault srv _ (DeleteObject khtml)) as [e2|].
      * unfold swallow_not_found in Hrun.
        destruct (Js.includes NOT_FOUND_ERROR (name e2)) eqn:Hn2; injection Hrun as <- <-.
        -- split; [done|]. split; [done|]. done.
        -- split; [intros e [= <-]; by apply Hnot|]. split; [done|]. done.
      * injection Hrun as <- <-. split; [done|]. split; [done|]. done.
    + injection Hrun as <- <-. split; [intros e [= <-]; by apply Hnot|]. split; [done|]. done.
  - unfold resolve at 1 in Hrun. cbv beta iota in Hrun.
    rewrite deleteObject_run in Hrun. cbn [log objects] in Hrun.
    destruct (fault srv _ (DeleteObject khtml)) as [e2|].
    + unfold swallow_not_found in Hrun.
      destruct (Js.includes NOT_FOUND_ERROR (name e2)) eqn:Hn2; injection Hrun as <- <-.
      * split; [done|]. split; [done|]. intros _ _. cbn [objects].
        split; [apply lookup_delete_eq|]. apply Hget. apply lookup_delete_eq.
      * split; [intros e [= <-]; by apply Hnot|]. split; [done|]. done.
    + injection Hrun as <- <-. split; [done|]. split; [done|]. intros _ _. cbn [objects].
      split; [apply Hgone|]. apply Hget. apply Hgone.
Qed.

End MetadataEntries.

Lemma set_metadata_then_get_witness :
  let data := {| value := Some (PAGE "<p>hi</p>" "{}" None); lastModified := 0;
                 revalidate := None; tags := Some ["news"; "sports"] |} in
  let run := S3CacheMetadata.set quiet sample_codec "/blog" "k" data empty_bucket in
  fst run = Returned tt
  /\ exists o, S3.objects (snd run) !! "/blog/k.json" = Some o
               /\ S3.Body o = Some (JSON_stringify sample_codec data)
               /\ S3.Metadata o !! "tags" = Some "news,sports".
Proof.
  intros data run.
  assert (fst run = Returned tt) as Hret by reflexivity.
  split; [exact Hret|].
  exact (proj1 (proj1 (set_metadata_then_get quiet sample_codec "/blog" "k" data empty_bucket)
                  Hret)).
Defined.

Lemma delete_metadata_then_get_witness :
  let run := S3CacheMetadata.delete quiet "/blog" "a" blog_bucket in
  S3.objects (snd run) !! "/blog/a.json" = None
  /\ (S3.fault quiet (S3.log (snd run)) (S3.GetObject "/blog/a.json") = None ->
      fst (S3CacheMetadata.get quiet sample_codec "/blog" "a" (snd run)) = Returned None).
Proof.
  intros run.
  apply (proj2 (proj2 (delete_metadata_then_get quiet sample_codec "/blog" "a" blog_bucket)));
    reflexivity.
Defined.

Section OnlyRemoves.
Import S3 S3CacheMetadata.
Variable srv : Service.
Variable json : JsonCodec.
Variable NEXT_CACHE_IMPLICIT_TAG_ID : string.
Variable NEXT_CACHE_TAGS_HEADER : string.
Variable P : string -> Prop.

Lemma only_removes_resolve {A} (a : A) : only_removes P (resolve a).
Proof. intros w k. by left. Qed.

Lemma only_removes_reject {A} (e : JsError) : only_removes P (@reject World A e).
Proof. intros w k. by left. Qed.

Lemma only_removes_out_of_fuel {A} : only_removes P (@out_of_fuel World A).
Proof. intros w k. by left. Qed.

Lemma only_removes_await {A B} (c : Async World A) (f : A -> Async World B) :
  only_removes P c -> (forall a, only_removes P (f a)) -> only_removes P (await c f).
Proof.
  intros Hc Hf w k. unfold await. specialize (Hc w k).
  destruct (c w) as [[a|e|] w1]; cbn [snd] in *; [|done..].
  destruct (Hf a w1 k) as [Hsame|[HP Hnone]]; [|by right].
  rewrite Hsame. done.
Qed.

Lemma only_removes_catch {A} (c : Async World A) (h : JsError -> Async World A) :
  only_removes P c -> (forall e, only_removes P (h e)) -> only_removes P (catch c h).
Proof.
  intros Hc Hh w k. unfold catch. specialize (Hc w k).
  destruct (c w) as [[a|e|] w1]; cbn [snd] in *; [done| |done].
  destruct (Hh e w1 k) as [Hsame|[HP Hnone]]; [|by right].
  rewrite Hsame. done.
Qed.

Lemma only_removes_for_of {A} (l : list A) (body : A -> Async World unit) :
  (forall x, only_removes P (body x)) -> only_removes P (for_of l body).
Proof.
  intros Hbody. induction l as [|x l IH]; cbn [for_of].
  - apply only_removes_resolve.
  - apply only_removes_await; [apply Hbody | intros _; apply IH].
Qed.

Lemma only_removes_getObject (key : string) : only_removes P (getObject srv key).
Proof. intros w k. left. by rewrite getObject_objects. Qed.

Lemma only_removes_listObjectsV2 (token Prefix Delimiter : option string) :
  only_removes P (listObjectsV2 srv token Prefix Delimiter).
Proof. intros w k. left. by rewrite listObjectsV2_run. Qed.

Lemma only_removes_deleteObject (key : string) :
  P key -> only_removes P (deleteObject srv key).
Proof.
  intros HP w k. rewrite deleteObject_run. destruct (fault srv (log w) _); [by left|].
  cbn [snd objects]. destruct (decide (k = key)) as [->|Hne].
  - right. split; [done|]. apply lookup_delete_eq.
  - left. by apply lookup_delete_ne.
Qed.

End OnlyRemoves.

Section MetadataFrame.
Import S3 S3CacheMetadata.
Variable srv : Service.
Variable json : JsonCodec.
Variable NEXT_CACHE_IMPLICIT_TAG_ID : string.
Variable NEXT_CACHE_TAGS_HEADER : string.

Lemma endsWith_app (a b : string) : Js.endsWith (a +:+ b) b = true.
Proof.
  unfold Js.endsWith. apply bool_decide_eq_true_2. rewrite chars_app. by apply suffix_app_r.
Qed.

Lemma swallow_not_found_only_removes {A} (e : JsError) :
  only_removes (fun k => has_dotted_extension k = true) (@swallow_not_found A e).
Proof.
  unfold swallow_not_found. destruct (Js.includes NOT_FOUND_ERROR (name e));
    [apply only_removes_resolve | apply only_removes_reject].
Qed.

Lemma delete_only_removes (pageKey cacheKey : string) :
  only_removes (fun k => has_dotted_extension k = true) (delete srv pageKey cacheKey).
Proof.
  unfold delete.
  apply only_removes_await; [|intros _; apply only_removes_await;
                                [|intros _; apply only_removes_resolve]].
  - apply only_removes_catch; [|apply swallow_not_found_only_removes].
    apply only_removes_await; [|intros _; apply only_removes_resolve].
    apply only_removes_deleteObject. unfold has_dotted_extension.
    rewrite <- !string_app_assoc. by rewrite endsWith_app.
  - apply only_removes_catch; [|apply swallow_not_found_only_removes].
    apply only_removes_await; [|intros _; apply only_removes_resolve].
    apply only_removes_deleteObject. unfold has_dotted_extension.
    rewrite <- !string_app_assoc. rewrite (endsWith_app _ ".html"). apply orb_true_r.
Qed.

Lemma revalidate_listed_only_removes (tag : string) (o : Listed) :
  only_removes (fun k => has_dotted_extension k = true) (revalidate_listed srv json NEXT_CACHE_TAGS_HEADER tag o).
Proof.
  assert (forall key, only_removes (fun k => has_dotted_extension k = true) (delete_entry_of srv key)) as Hentry.
  { intros key. unfold delete_entry_of.
    destruct (Js.lastIndexOf key "/"); apply delete_only_removes. }
  unfold revalidate_listed. destruct (Key o) as [key|]; [|apply only_removes_resolve].
  destruct (negb (Js.truthy key)); [apply only_removes_resolve|].
  apply only_removes_await; [apply only_removes_getObject|]. intros out.
  destruct (_ && _); [apply Hentry|].
  destruct (out_Body out) as [body|]; [|apply only_removes_resolve].
  destruct (Js.endsWith key ".json"); [|apply only_removes_resolve].
  destruct (JSON_parse json body) as [e|entry]; [apply only_removes_reject|].
  destruct (page_headers_include _ _ _); [apply Hentry | apply only_removes_resolve].
Qed.

Lemma delete_listed_only_removes (o : Listed) : only_removes (fun k => has_dotted_extension k = true) (delete_listed srv o).
Proof.
  unfold delete_listed. destruct (Key o) as [key|]; [|apply only_removes_resolve].
  destruct (negb (Js.truthy key)); [apply only_removes_resolve|].
  destruct (Js.endsWith key ".json" || Js.endsWith key ".html") eqn:Hext;
    [|apply only_removes_resolve].
  by apply only_removes_deleteObject.
Qed.

(** X25. [revalidateTag] of the first class, on a tag of either form, changes
    the bucket only by removing objects whose key ends in [.json] or
    [.html]: it writes nothing, and an object under another extension
    stays, whatever the service answers and however long the loops run. *)
Theorem revalidateTag_metadata_only_removes (fuel : nat) (tag : string) (w : World) (k : string) :
  let w' := snd (revalidateTag srv json NEXT_CACHE_IMPLICIT_TAG_ID NEXT_CACHE_TAGS_HEADER
                   fuel tag w) in
  objects w' !! k = objects w !! k
  \/ (has_dotted_extension k = true /\ objects w' !! k = None).
Proof.
  cbv zeta. revert w k. change (only_removes (fun k => has_dotted_extension k = true)
    (revalidateTag srv json NEXT_CACHE_IMPLICIT_TAG_ID NEXT_CACHE_TAGS_HEADER fuel tag)).
  unfold revalidateTag. destruct (Js.startsWith tag NEXT_CACHE_IMPLICIT_TAG_ID).
  - unfold deleteAllByKeyMatch. generalize (@None string).
    generalize (Js.slice tag (String.length NEXT_CACHE_IMPLICIT_TAG_ID)). intros pageKey.
    induction fuel as [|fuel IH]; intros token; cbn [deleteAllByKeyMatch_loop].
    + apply only_removes_out_of_fuel.
    + apply only_removes_await; [apply only_removes_listObjectsV2|]. intros page.
      apply only_removes_await; [apply only_removes_for_of, delete_listed_only_removes|].
      intros _. destruct (more _); [apply IH | apply only_removes_resolve].
  - generalize (@None string).
    induction fuel as [|fuel IH]; intros token; cbn [revalidateTag_loop].
    + apply only_removes_out_of_fuel.
    + apply only_removes_await; [apply only_removes_listObjectsV2|]. intros page.
      apply only_removes_await; [apply only_removes_for_of, revalidate_listed_only_removes|].
      intros _. destruct (more _); [apply IH | apply only_removes_resolve].
Qed.

End MetadataFrame.

Section WrittenKeys.

Lemma lastIndexOf_from_none (c : ascii) (i : nat) (l : list ascii) :
  c ∉ l -> Js.lastIndexOf_from c i l = None.
Proof.
  revert i. induction l as [|d l IH]; intros i Hc; [done|].
  cbn [Js.lastIndexOf_from]. rewrite IH by (intros Hin; apply Hc; by right).
  destruct (Ascii.eqb_spec d c) as [->|Hne]; [|done]. exfalso. apply Hc. by left.
Qed.

Lemma lastIndexOf_from_app (c : ascii) (i : nat) (a rest : list ascii) :
  c ∉ rest -> Js.lastIndexOf_from c i (a ++ c :: rest) = Some (i + length a).
Proof.
  intros Hc. revert i. induction a as [|d a IH]; intros i; cbn [app Js.lastIndexOf_from length].
  - by rewrite lastIndexOf_from_none, Ascii.eqb_refl, Nat.add_0_r.
  - rewrite IH. f_equal. lia.
Qed.

(** The last slash of [pageKey/cacheKey.ext] is the one after [pageKey]
    when the cache key holds none. *)
Lemma lastIndexOf_written (pageKey rest : string) :
  "/"%char ∉ Js.chars rest ->
  Js.lastIndexOf (pageKey +:+ "/" +:+ rest) "/" = Some (String.length pageKey).
Proof.
  intros Hc. unfold Js.lastIndexOf. rewrite !chars_app.
  change (Js.chars "/") with ["/"%char]. cbn [app].
  rewrite lastIndexOf_from_app by done. by rewrite chars_length.
Qed.

Lemma substring_to_app (p rest : string) : Js.substring_to (p +:+ rest) (String.length p) = p.
Proof.
  unfold Js.substring_to. rewrite chars_app, <- chars_length, take_app_length.
  apply of_chars_chars.
Qed.

Lemma slice_after_slash (p rest : string) :
  Js.slice (p +:+ "/" +:+ rest) (S (String.length p)) = rest.
Proof.
  unfold Js.slice. rewrite !chars_app. change (Js.chars "/") with ["/"%char]. cbn [app].
  rewrite cons_middle, app_assoc, drop_app_length'; [apply of_chars_chars|].
  rewrite length_app, chars_length. simpl. lia.
Qed.

Lemma endsWith_other (c a b : string) :
  String.length a = String.length b -> a <> b -> Js.endsWith (c +:+ a) b = false.
Proof.
  intros Hlen Hne. unfold Js.endsWith. apply bool_decide_eq_false_2. intros [k Hk].
  rewrite chars_app in Hk. apply app_inj_2 in Hk as [_ Hk]; [|by rewrite !chars_length].
  apply Hne. by rewrite <- (of_chars_chars a), Hk, of_chars_chars.
Qed.

Lemma strip_json_html_written (c ext : string) :
  ext = ".json" \/ ext = ".html" -> Js.strip_json_html (c +:+ ext) = c.
Proof.
  assert (forall ext, String.length ext = 5 ->
            Js.substring_to (c +:+ ext) (String.length (c +:+ ext) - 5) = c) as Hcut.
  { intros e He. rewrite <- (substring_to_app c e) at 3. f_equal.
    rewrite <- !chars_length, chars_app, length_app, !chars_length. lia. }
  unfold Js.strip_json_html. intros [->| ->].
  - rewrite endsWith_app. by apply Hcut.
  - rewrite endsWith_other by done. rewrite endsWith_app. by apply Hcut.
Qed.

Lemma string_ltb_app (a x y : string) : String.ltb (a +:+ x) (a +:+ y) = String.ltb x y.
Proof.
  unfold String.ltb.
  assert (String.compare (a +:+ x) (a +:+ y) = String.compare x y) as ->; [|done].
  induction a as [|c a IH]; [done|]. simpl. by rewrite ascii_compare_refl.
Qed.

End WrittenKeys.

Section MetadataPage.
Import S3 S3CacheMetadata.
Variable srv : Service.
Variable json : JsonCodec.
Variable NEXT_CACHE_IMPLICIT_TAG_ID : string.
Variable NEXT_CACHE_TAGS_HEADER : string.
Hypothesis all_served : forall lg req, fault srv lg req = None.

Lemma delete_entry_of_written (pageKey cacheKey ext : string) :
  "/"%char ∉ Js.chars cacheKey ->
  ext = ".json" \/ ext = ".html" ->
  delete_entry_of srv (pageKey +:+ "/" +:+ cacheKey +:+ ext) = delete srv pageKey cacheKey.
Proof.
  intros Hc Hext. unfold delete_entry_of.
  rewrite lastIndexOf_written.
  - by rewrite substring_to_app, slice_after_slash, strip_json_html_written.
  - rewrite chars_app. intros [Hin|Hin]%elem_of_app; [done|].
    destruct Hext as [-> | ->]; revert Hin; apply (bool_decide_unpack _); by vm_compute.
Qed.

Lemma delete_served (pageKey cacheKey : string) (w : World) :
  delete srv pageKey cacheKey w
  = (Returned tt,
     {| objects := base.delete (pageKey +:+ "/" +:+ cacheKey +:+ ".html")
                     (base.delete (pageKey +:+ "/" +:+ cacheKey +:+ ".json") (objects w));
        log := (log w ++ [DeleteObject (pageKey +:+ "/" +:+ cacheKey +:+ ".json")])
               ++ [DeleteObject (pageKey +:+ "/" +:+ cacheKey +:+ ".html")] |}).
Proof.
  unfold delete, catch, await. rewrite deleteObject_run, all_served.
  unfold resolve at 1. cbv beta iota. rewrite deleteObject_run, all_served. reflexivity.
Qed.

(** A listed object whose [tags] metadata holds the tag has its entry
    deleted. *)
Lemma revalidate_listed_hit (tag key tg : string) (o : Object) (w : World) :
  key <> "" ->
  objects w !! key = Some o ->
  Metadata o !! "tags" = Some tg ->
  Js.truthy tg && Js.includes (Js.split tg ",") tag = true ->
  revalidate_listed srv json NEXT_CACHE_TAGS_HEADER tag {| Key := Some key |} w
  = delete_entry_of srv key {| objects := objects w; log := log w ++ [GetObject key] |}.
Proof.
  intros Hkey Ho Hmd Htag. unfold revalidate_listed. cbn [Key].
  assert (Js.truthy key = true) as -> by (by destruct key). cbn [negb].
  unfold await. rewrite getObject_run, all_served, Ho.
  cbn [out_Metadata default from_option id]. rewrite Hmd. cbn [from_option id].
  by rewrite Htag.
Qed.

(** A listed object that is no longer there makes the turn throw. *)
Lemma revalidate_listed_missing (tag key : string) (w : World) :
  key <> "" ->
  objects w !! key = None ->
  revalidate_listed srv json NEXT_CACHE_TAGS_HEADER tag {| Key := Some key |} w
  = (Thrown NoSuchKey, {| objects := objects w; log := log w ++ [GetObject key] |}).
Proof.
  intros Hkey Ho. unfold revalidate_listed. cbn [Key].
  assert (Js.truthy key = true) as -> by (by destruct key). cbn [negb].
  unfold await. by rewrite getObject_run, all_served, Ho.
Qed.

Lemma pending_two (kh kj : string) (oh oj : Object) :
  String.ltb kh kj = true ->
  pending (<[kj := oj]> (<[kh := oh]> ∅)) None None None = [kh; kj].
Proof.
  intros Hlt.
  assert (kh <> kj) as Hne by (intros ->; by rewrite string_ltb_irrefl in Hlt).
  apply (StronglySorted_unique_strong (fun a b => String.ltb a b = true)).
  - intros x1 x2 _ _ H12 H21. by rewrite (string_ltb_asym _ _ H12) in H21.
  - apply pending_increasing.
  - repeat constructor. done.
  - apply NoDup_Permutation; [apply pending_NoDup| |].
    + apply NoDup_cons. split; [by intros ->%list_elem_of_singleton|]. apply NoDup_singleton.
    + intros k. rewrite pending_elem_iff.
      assert (listed_under None None k = true) as ->.
      { unfold listed_under. cbn [default from_option id]. by rewrite startsWith_empty. }
      cbn [after]. split.
      * intros ([o Ho] & _). apply lookup_insert_Some in Ho as [[<- _]|[_ Ho]]; [set_solver|].
        apply lookup_insert_Some in Ho as [[<- _]|[_ Ho]]; [set_solver|]. done.
      * intros [->|[->|Hin]%elem_of_cons]%elem_of_cons; [| |by apply elem_of_nil in Hin].
        -- split; [|done]. rewrite lookup_insert_ne, lookup_insert_eq by done. by eexists.
        -- split; [|done]. rewrite lookup_insert_eq. by eexists.
Qed.

(** X26. A PAGE entry written by [set] with tags of its own makes the
    invalidation of one of these tags fail: the two objects are listed
    together, the turn on the [.html] object deletes both, and the turn on
    the [.json] object then reads an object that is gone. On a bucket that
    held nothing else, with a service that serves the requests and lists
    two keys or more a page, [revalidateTag] throws [NoSuchKey] and leaves
    the bucket empty. *)
Theorem revalidateTag_metadata_page_throws (pageKey cacheKey tag html pageData : string)
    (hs : option (gmap string string)) (ts : list string) (data : CacheEntry)
    (fuel : nat) (w : World) :
  2 <= MaxKeys srv ->
  objects w = ∅ ->
  value data = Some (PAGE html pageData hs) ->
  tags data = Some ts ->
  Forall (fun t => ","%char ∉ Js.chars t) ts ->
  tag ∈ ts ->
  tag <> "" ->
  Js.startsWith tag NEXT_CACHE_IMPLICIT_TAG_ID = false ->
  "/"%char ∉ Js.chars cacheKey ->
  exists w1 w2,
    set srv json pageKey cacheKey data w = (Returned tt, w1)
    /\ revalidateTag srv json NEXT_CACHE_IMPLICIT_TAG_ID NEXT_CACHE_TAGS_HEADER (S fuel) tag w1
       = (Thrown NoSuchKey, w2)
    /\ objects w2 = ∅.
Proof.
  intros Hpage Hempty Hvalue Htags Hcommas Htag Hnonempty Hform Hslash.
  set (kh := pageKey +:+ "/" +:+ cacheKey +:+ ".html").
  set (kj := pageKey +:+ "/" +:+ cacheKey +:+ ".json").
  assert (ts <> []) as Hts by (intros ->; by apply elem_of_nil in Htag).
  set (tg := Js.join "," ts).
  assert (Js.truthy tg && Js.includes (Js.split tg ",") tag = true) as Hhit.
  { assert (Js.split tg "," = ts) as Hsplit by (by apply split_join).
    rewrite Hsplit. apply andb_true_iff. split; [|by apply bool_decide_eq_true_2].
    destruct tg eqn:Htg; [|done]. cbn in Hsplit. subst ts.
    apply list_elem_of_singleton in Htag. done. }
  assert (kh <> "" /\ kj <> "") as [Hkh Hkj].
  { split; intros H; apply (f_equal (fun s => length (Js.chars s))) in H;
      unfold kh, kj in H; rewrite !chars_app, !length_app in H; simpl in H; lia. }
  assert (String.ltb kh kj = true) as Hlt.
  { unfold kh, kj. by rewrite !string_ltb_app. }
  assert (kh <> kj) as Hne by (intros Heq; by rewrite Heq, string_ltb_irrefl in Hlt).
  (* the write *)
  set (md := Some ({[ "tags" := tg ]} : gmap string string)).
  set (oh := object_of_put {| put_Key := kh; put_Body := html; put_ContentType := None;
                              put_CacheControl := None; put_Tagging := None;
                              put_Metadata := md |}).
  set (oj := object_of_put {| put_Key := kj; put_Body := JSON_stringify json data;
                              put_ContentType := None; put_CacheControl := None;
                              put_Tagging := None; put_Metadata := md |}).
  assert (exists lg, set srv json pageKey cacheKey data w
                     = (Returned tt, {| objects := <[kj := oj]> (<[kh := oh]> ∅); log := lg |}))
    as [lg Hset].
  { unfold set. rewrite Hvalue, Htags. destruct ts as [|t0 ts0]; [done|].
    unfold await. rewrite !string_app_assoc. fold kh kj.
    rewrite putObject_run, all_served, putObject_run, all_served. cbn [objects log put_Key].
    rewrite Hempty. by eexists. }
  assert (Metadata oh !! "tags" = Some tg /\ Metadata oj !! "tags" = Some tg) as [Hmh Hmj].
  { split; apply lookup_singleton_eq. }
  set (w0 := {| objects := <[kj := oj]> (<[kh := oh]> ∅);
                log := lg ++ [ListObjectsV2 None None None] |}).
  assert (exists lg', for_of [{| Key := Some kh |}; {| Key := Some kj |}]
                        (revalidate_listed srv json NEXT_CACHE_TAGS_HEADER tag) w0
                      = (Thrown NoSuchKey, {| objects := ∅; log := lg' |})) as [lg' Hturns].
  { unfold w0. cbn [for_of]. unfold await.
    (* the turn on the .html object *)
    rewrite (revalidate_listed_hit tag kh tg oh); [|done| |done|done];
      [|cbn [objects]; by rewrite lookup_insert_ne, lookup_insert_eq].
    unfold kh at 1. rewrite delete_entry_of_written; [|done|by right].
    rewrite delete_served. fold kh kj. cbn [objects log].
    (* the turn on the .json object *)
    rewrite revalidate_listed_missing; [|done|]; cbn [objects].
    - eexists. f_equal. f_equal. apply map_eq. intros k. rewrite lookup_empty.
      destruct (decide (k = kh)) as [->|Hk1]; [apply lookup_delete_eq|].
      rewrite lookup_delete_ne by done.
      destruct (decide (k = kj)) as [->|Hk2]; [apply lookup_delete_eq|].
      rewrite lookup_delete_ne, !lookup_insert_ne by done. apply lookup_empty.
    - rewrite lookup_delete_ne by done. apply lookup_delete_eq. }
  exists {| objects := <[kj := oj]> (<[kh := oh]> ∅); log := lg |},
         {| objects := ∅; log := lg' |}.
  split; [exact Hset|]. split; [|done].
  (* the listing *)
  unfold revalidateTag. rewrite Hform. cbn [revalidateTag_loop]. unfold await at 1.
  rewrite listObjectsV2_run, all_served, list_page_keys. cbn [objects].
  rewrite (pending_two kh kj oh oj Hlt).
  assert (take (MaxKeys srv) [kh; kj] = [kh; kj]) as -> by (apply take_ge; simpl; lia).
  cbn [map log]. unfold await. fold w0. by rewrite Hturns.
Qed.

End MetadataPage.

Lemma revalidateTag_metadata_page_throws_witness :
  let data := {| value := Some (PAGE "<p>hi</p>" "{}" None); lastModified := 0;
                 revalidate := None; tags := Some ["news"; "sports"] |} in
  exists w1 w2,
    S3CacheMetadata.set quiet sample_codec "/blog" "k" data empty_bucket = (Returned tt, w1)
    /\ S3CacheMetadata.revalidateTag quiet sample_codec "_N_T_" "x-next-cache-tags" 1 "sports" w1
       = (Thrown S3.NoSuchKey, w2)
    /\ S3.objects w2 = ∅.
Proof.
  intros data.
  apply (revalidateTag_metadata_page_throws quiet sample_codec "_N_T_" "x-next-cache-tags")
    with (html := "<p>hi</p>") (pageData := "{}") (hs := None) (ts := ["news"; "sports"]);
    try done.
  - simpl. lia.
  - repeat constructor; apply (bool_decide_unpack _); by vm_compute.
  - apply (bool_decide_unpack _). by vm_compute.
  - apply (bool_decide_unpack _). by vm_compute.
Defined.
